(** * OpenGE sort / dedup core: reader, prefetch worker, merge sort, FASTQ writer

    A shallow embedding of
    - [bamtools/src/api/internal/bam/BamReader_p.cpp]  (module [BamReaderPrivate]
      and the prefetch worker, module [Prefetch]),
    - [openge/src/algorithms/read_sorter.cpp]          (module [ReadSorter]),
    - [openge/src/util/fastq_writer.cpp]               (module [FastqWriter]),
    followed by the properties of the specification that are checked against it.

    Conventions.  C++ integers are [Z] with the wrap-around written out where
    the code can reach it; [std::string] is [string]; [std::vector] is [list];
    [std::map] is a [gmap] that is iterated in key order; [std::multiset] is a
    list kept sorted by its comparator.  Functions that mutate the object they
    are called on take the object and return the new one. *)

From Stdlib Require Import ZArith Lia Ascii.
From stdpp Require Import base list gmap strings pretty sorting.

Open Scope Z_scope.

(** ** Machine integers *)

Definition wrap32 (z : Z) : Z := z `mod` 2 ^ 32.

(** Conversion to [int] (two's complement, 32 bit). *)
Definition to_int (z : Z) : Z := (z + 2 ^ 31) `mod` 2 ^ 32 - 2 ^ 31.

Definition INT_MAX : Z := 2 ^ 31 - 1.

(** How a function ends: it returns to its caller, or it calls [exit]. *)
Inductive outcome (A : Type) : Type :=
  | Returned (a : A)
  | Exited (code : Z).
Arguments Returned {A} a.
Arguments Exited {A} code.

(** ** Data model of the BAM API that the three files share *)

Module BamTools.

Record CigarOp : Type := mkCigarOp {
  Type_ : ascii;
  Length : Z
}.

Record BamAlignmentSupportData : Type := mkSupportData {
  AllCharData : list Byte.byte;
  BlockLength : Z;
  NumCigarOperations : Z;
  QueryNameLength : Z;
  QuerySequenceLength : Z;
  HasCoreOnly : bool
}.

Definition emptySupportData : BamAlignmentSupportData :=
  mkSupportData [] 0 0 0 0 false.

Record BamAlignment : Type := mkBamAlignment {
  Name : string;
  QueryBases : string;
  Qualities : string;
  RefID : Z;
  Position : Z;
  Bin : Z;
  MapQuality : Z;
  AlignmentFlag : Z;
  CigarData : list CigarOp;
  MateRefID : Z;
  MatePosition : Z;
  InsertSize : Z;
  SupportData : BamAlignmentSupportData
}.

(** [new BamAlignment()] *)
Definition newBamAlignment : BamAlignment :=
  mkBamAlignment "" "" "" (-1) (-1) 0 0 0 [] (-1) (-1) 0 emptySupportData.

Definition setRefID (v : Z) (a : BamAlignment) : BamAlignment :=
  mkBamAlignment (Name a) (QueryBases a) (Qualities a) v (Position a) (Bin a)
    (MapQuality a) (AlignmentFlag a) (CigarData a) (MateRefID a)
    (MatePosition a) (InsertSize a) (SupportData a).
Definition setPosition (v : Z) (a : BamAlignment) : BamAlignment :=
  mkBamAlignment (Name a) (QueryBases a) (Qualities a) (RefID a) v (Bin a)
    (MapQuality a) (AlignmentFlag a) (CigarData a) (MateRefID a)
    (MatePosition a) (InsertSize a) (SupportData a).
Definition setBin (v : Z) (a : BamAlignment) : BamAlignment :=
  mkBamAlignment (Name a) (QueryBases a) (Qualities a) (RefID a) (Position a) v
    (MapQuality a) (AlignmentFlag a) (CigarData a) (MateRefID a)
    (MatePosition a) (InsertSize a) (SupportData a).
Definition setMapQuality (v : Z) (a : BamAlignment) : BamAlignment :=
  mkBamAlignment (Name a) (QueryBases a) (Qualities a) (RefID a) (Position a)
    (Bin a) v (AlignmentFlag a) (CigarData a) (MateRefID a)
    (MatePosition a) (InsertSize a) (SupportData a).
Definition setAlignmentFlag (v : Z) (a : BamAlignment) : BamAlignment :=
  mkBamAlignment (Name a) (QueryBases a) (Qualities a) (RefID a) (Position a)
    (Bin a) (MapQuality a) v (CigarData a) (MateRefID a)
    (MatePosition a) (InsertSize a) (SupportData a).
Definition setCigarData (v : list CigarOp) (a : BamAlignment) : BamAlignment :=
  mkBamAlignment (Name a) (QueryBases a) (Qualities a) (RefID a) (Position a)
    (Bin a) (MapQuality a) (AlignmentFlag a) v (MateRefID a)
    (MatePosition a) (InsertSize a) (SupportData a).
Definition setMateRefID (v : Z) (a : BamAlignment) : BamAlignment :=
  mkBamAlignment (Name a) (QueryBases a) (Qualities a) (RefID a) (Position a)
    (Bin a) (MapQuality a) (AlignmentFlag a) (CigarData a) v
    (MatePosition a) (InsertSize a) (SupportData a).
Definition setMatePosition (v : Z) (a : BamAlignment) : BamAlignment :=
  mkBamAlignment (Name a) (QueryBases a) (Qualities a) (RefID a) (Position a)
    (Bin a) (MapQuality a) (AlignmentFlag a) (CigarData a) (MateRefID a)
    v (InsertSize a) (SupportData a).
Definition setInsertSize (v : Z) (a : BamAlignment) : BamAlignment :=
  mkBamAlignment (Name a) (QueryBases a) (Qualities a) (RefID a) (Position a)
    (Bin a) (MapQuality a) (AlignmentFlag a) (CigarData a) (MateRefID a)
    (MatePosition a) v (SupportData a).
Definition setSupportData (v : BamAlignmentSupportData) (a : BamAlignment)
  : BamAlignment :=
  mkBamAlignment (Name a) (QueryBases a) (Qualities a) (RefID a) (Position a)
    (Bin a) (MapQuality a) (AlignmentFlag a) (CigarData a) (MateRefID a)
    (MatePosition a) (InsertSize a) v.

Record RefData : Type := mkRefData {
  RefName : string;
  RefLength : Z
}.

Abbreviation RefVector := (list RefData).

(** *** Constants and byte helpers ([BamConstants.h], [BamAux.h])

    These headers are not part of the sources at hand. *)

(** Modelled from the spec: [Constants::BAM_CORE_SIZE], the 32 bytes of
    fixed fields that follow [block_length]. *)
Definition BAM_CORE_SIZE : Z := 32.

(** Modelled from the spec: [Constants::BAM_CIGAR_SHIFT] and
    [Constants::BAM_CIGAR_MASK], "len = word >> 4" with a 4-bit mask. *)
Definition BAM_CIGAR_SHIFT : Z := 4.
Definition BAM_CIGAR_MASK : Z := 15.

(** Modelled from the spec: [Constants::BAM_CIGAR_LOOKUP], the table
    "MIDNSHP=X".  Index 9 is the terminating NUL of the literal; the model
    also answers NUL for the indices 10..15, which lie outside the table. *)
Definition BAM_CIGAR_LOOKUP (i : Z) : ascii :=
  match String.get (Z.to_nat i) "MIDNSHP=X" with
  | Some c => c
  | None => Ascii.zero
  end.

Definition byte_val (b : Byte.byte) : Z := Z.of_N (Byte.to_N b).

(** Value of four bytes, least significant first. *)
Definition le32 (b0 b1 b2 b3 : Byte.byte) : Z :=
  Z.lor (byte_val b0)
    (Z.lor (Z.shiftl (byte_val b1) 8)
       (Z.lor (Z.shiftl (byte_val b2) 16) (Z.shiftl (byte_val b3) 24))).

Definition nth_byte (i : nat) (l : list Byte.byte) : Byte.byte :=
  nth i l Byte.x00.

(** Modelled from the spec: [UnpackUnsignedInt] of [BamAux.h], which copies
    four bytes into an [unsigned int] of the host; the value therefore
    depends on the host byte order ("the decoder swaps in-place when the
    host is big-endian"). *)
Definition UnpackUnsignedInt (bigEndian : bool) (buf : list Byte.byte) : Z :=
  if bigEndian
  then le32 (nth_byte 3 buf) (nth_byte 2 buf) (nth_byte 1 buf) (nth_byte 0 buf)
  else le32 (nth_byte 0 buf) (nth_byte 1 buf) (nth_byte 2 buf) (nth_byte 3 buf).

(** Modelled from the spec: [UnpackSignedInt], the same four bytes read as
    a signed 32-bit integer. *)
Definition UnpackSignedInt (bigEndian : bool) (buf : list Byte.byte) : Z :=
  to_int (UnpackUnsignedInt bigEndian buf).

(** Modelled from the spec: [SwapEndian_32], byte reversal of a 32-bit
    value. *)
Definition SwapEndian_32 (v : Z) : Z :=
  Z.lor (Z.shiftl (Z.land v 255) 24)
    (Z.lor (Z.shiftl (Z.land (Z.shiftr v 8) 255) 16)
       (Z.lor (Z.shiftl (Z.land (Z.shiftr v 16) 255) 8)
          (Z.land (Z.shiftr v 24) 255))).

(** Modelled from the spec: [SwapEndian_32p], byte reversal of four bytes
    in a buffer. *)
Definition SwapEndian_32p (buf : list Byte.byte) : list Byte.byte :=
  [nth_byte 3 buf; nth_byte 2 buf; nth_byte 1 buf; nth_byte 0 buf].

End BamTools.

(** ** Comparators of [api/algorithms/Sort.h]

    The header is not part of the sources at hand; the sorter only names the
    two comparators. *)

Module Sort.
Import BamTools.

(** [-1] (unmapped) is ordered after every valid reference id. *)
Definition ref_lt (r1 r2 : Z) : bool :=
  if bool_decide (r1 = -1) then false
  else if bool_decide (r2 = -1) then true
  else bool_decide (r1 < r2).

(** Modelled from the spec: [Sort::ByPosition], "lexicographic on
    (ref_id, position) with the convention ref_id = -1 sorts after all
    valid ref ids". *)
Definition ByPosition (lhs rhs : BamAlignment) : bool :=
  if bool_decide (RefID lhs = RefID rhs)
  then bool_decide (Position lhs < Position rhs)
  else ref_lt (RefID lhs) (RefID rhs).

(** The first-in-pair bit of the flags. *)
Definition IsFirstMate (a : BamAlignment) : bool :=
  Z.testbit (AlignmentFlag a) 6.

(** Modelled from the spec: [Sort::ByName], "lexicographic on query_name,
    then by flags' first-in-pair bit to stabilize mate ordering"; of two
    records with one name the first mate is the smaller. *)
Definition ByName (lhs rhs : BamAlignment) : bool :=
  if String.eqb (Name lhs) (Name rhs)
  then IsFirstMate lhs && negb (IsFirstMate rhs)
  else String.ltb (Name lhs) (Name rhs).

End Sort.

(** ** The reader: [BamReader_p.cpp] *)

Module BamReaderPrivate.
Import BamTools.

(** *** The block-stream device

    Modelled from the spec: [BgzfStream], "an opaque byte-stream device
    exposing read(n), seek(offset), tell()".  [device] is the decompressed
    content of the file, [unread] the bytes after the file pointer and
    [position] the number of bytes before it.  [Read] hands out at most the
    bytes that are left; [Seek] fails (the device throws) outside the
    file. *)
Record BgzfStream : Type := mkStream {
  IsOpen : bool;
  device : list Byte.byte;
  unread : list Byte.byte;
  position : Z
}.

Definition closedStream : BgzfStream := mkStream false [] [] 0.

Definition openStream (bytes : list Byte.byte) : BgzfStream :=
  mkStream true bytes bytes 0.

Definition Read (n : Z) (s : BgzfStream) : list Byte.byte * BgzfStream :=
  let got := take (Z.to_nat n) (unread s) in
  (got, mkStream (IsOpen s) (device s) (drop (Z.to_nat n) (unread s))
          (position s + Z.of_nat (length got))).

Definition Tell (s : BgzfStream) : Z := position s.

Definition StreamSeek (p : Z) (s : BgzfStream) : option BgzfStream :=
  if bool_decide (0 <= p <= Z.of_nat (length (device s)))
  then Some (mkStream (IsOpen s) (device s) (drop (Z.to_nat p) (device s)) p)
  else None.

Definition StreamClose (s : BgzfStream) : BgzfStream :=
  mkStream false (device s) (unread s) (position s).

(** What a call of [BgzfStream::Close] does: it closes the stream, or it
    throws a [BamException] with the text [what] and leaves the stream as
    [remains]. *)
Inductive close_outcome : Type :=
  | Closes
  | CloseThrows (what : string) (remains : BgzfStream).

(** *** The random-access controller

    [BamRandomAccessController] is used through its interface only. *)
Inductive RegionState : Type := BeforeRegion | OverlapsRegion | AfterRegion.

Class RandomAccessController (C : Type) : Type := {
  HasRegion : C -> bool;
  RegionHasAlignments : C -> bool;
  AlignmentState : C -> BamAlignment -> RegionState;
  ClearRegion : C -> C;
  ControllerClose : C -> C
}.

(** Calls into the thread library, in the order in which they are made. *)
Inductive pthread_call : Type := pthread_create | pthread_join.

(** *** The reader object

    [prefetch_alignments] is the queue between the worker and the caller;
    a null pointer in it is [None].  [cerr] collects what the reader prints
    ([perror] included) and [pthread_calls] the thread-library calls it
    makes.  The header object is left out: nothing here reads it. *)
Record t (C : Type) : Type := mkReader {
  m_stream : BgzfStream;
  m_isBigEndian : bool;
  m_references : RefVector;
  m_alignmentsBeginOffset : Z;
  m_filename : string;
  m_errorString : string;
  m_randomAccessController : C;
  do_prefetch : bool;
  prefetch_alignments : list (option BamAlignment);
  prefetch_tell_fail : list Z;
  pthread_calls : list pthread_call;
  cerr : list string
}.
Arguments mkReader {C}.
Arguments m_stream {C}.
Arguments m_isBigEndian {C}.
Arguments m_references {C}.
Arguments m_alignmentsBeginOffset {C}.
Arguments m_filename {C}.
Arguments m_errorString {C}.
Arguments m_randomAccessController {C}.
Arguments do_prefetch {C}.
Arguments prefetch_alignments {C}.
Arguments prefetch_tell_fail {C}.
Arguments pthread_calls {C}.
Arguments cerr {C}.

Section Reader.
Context {C : Type} `{RandomAccessController C}.

Definition set_stream (v : BgzfStream) (r : t C) : t C :=
  mkReader v (m_isBigEndian r) (m_references r) (m_alignmentsBeginOffset r)
    (m_filename r) (m_errorString r) (m_randomAccessController r)
    (do_prefetch r) (prefetch_alignments r) (prefetch_tell_fail r)
    (pthread_calls r) (cerr r).
Definition set_references (v : RefVector) (r : t C) : t C :=
  mkReader (m_stream r) (m_isBigEndian r) v (m_alignmentsBeginOffset r)
    (m_filename r) (m_errorString r) (m_randomAccessController r)
    (do_prefetch r) (prefetch_alignments r) (prefetch_tell_fail r)
    (pthread_calls r) (cerr r).
Definition set_alignmentsBeginOffset (v : Z) (r : t C) : t C :=
  mkReader (m_stream r) (m_isBigEndian r) (m_references r) v
    (m_filename r) (m_errorString r) (m_randomAccessController r)
    (do_prefetch r) (prefetch_alignments r) (prefetch_tell_fail r)
    (pthread_calls r) (cerr r).
Definition set_filename (v : string) (r : t C) : t C :=
  mkReader (m_stream r) (m_isBigEndian r) (m_references r)
    (m_alignmentsBeginOffset r) v (m_errorString r)
    (m_randomAccessController r) (do_prefetch r) (prefetch_alignments r)
    (prefetch_tell_fail r) (pthread_calls r) (cerr r).
Definition set_controller (v : C) (r : t C) : t C :=
  mkReader (m_stream r) (m_isBigEndian r) (m_references r)
    (m_alignmentsBeginOffset r) (m_filename r) (m_errorString r) v
    (do_prefetch r) (prefetch_alignments r) (prefetch_tell_fail r)
    (pthread_calls r) (cerr r).
Definition set_do_prefetch (v : bool) (r : t C) : t C :=
  mkReader (m_stream r) (m_isBigEndian r) (m_references r)
    (m_alignmentsBeginOffset r) (m_filename r) (m_errorString r)
    (m_randomAccessController r) v (prefetch_alignments r)
    (prefetch_tell_fail r) (pthread_calls r) (cerr r).
Definition set_prefetch_alignments (v : list (option BamAlignment))
    (r : t C) : t C :=
  mkReader (m_stream r) (m_isBigEndian r) (m_references r)
    (m_alignmentsBeginOffset r) (m_filename r) (m_errorString r)
    (m_randomAccessController r) (do_prefetch r) v
    (prefetch_tell_fail r) (pthread_calls r) (cerr r).
Definition set_prefetch_tell_fail (v : list Z) (r : t C) : t C :=
  mkReader (m_stream r) (m_isBigEndian r) (m_references r)
    (m_alignmentsBeginOffset r) (m_filename r) (m_errorString r)
    (m_randomAccessController r) (do_prefetch r) (prefetch_alignments r)
    v (pthread_calls r) (cerr r).
Definition log_pthread (c : pthread_call) (r : t C) : t C :=
  mkReader (m_stream r) (m_isBigEndian r) (m_references r)
    (m_alignmentsBeginOffset r) (m_filename r) (m_errorString r)
    (m_randomAccessController r) (do_prefetch r) (prefetch_alignments r)
    (prefetch_tell_fail r) (pthread_calls r ++ [c]) (cerr r).
Definition print_cerr (msg : string) (r : t C) : t C :=
  mkReader (m_stream r) (m_isBigEndian r) (m_references r)
    (m_alignmentsBeginOffset r) (m_filename r) (m_errorString r)
    (m_randomAccessController r) (do_prefetch r) (prefetch_alignments r)
    (prefetch_tell_fail r) (pthread_calls r) (cerr r ++ [msg]).

(** [SetErrorString] *)
Definition SetErrorString (where_ what : string) (r : t C) : t C :=
  mkReader (m_stream r) (m_isBigEndian r) (m_references r)
    (m_alignmentsBeginOffset r) (m_filename r)
    (where_ +:+ ": " +:+ what)
    (m_randomAccessController r) (do_prefetch r) (prefetch_alignments r)
    (prefetch_tell_fail r) (pthread_calls r) (cerr r).

(** [GetReferenceID]: the names are copied out, [std::find] locates the
    first equal one, and [std::distance] is stored in an [int]. *)
Fixpoint find_distance (refNames : list string) (refName : string) : Z :=
  match refNames with
  | [] => 0
  | n :: rest =>
      if String.eqb n refName then 0 else 1 + find_distance rest refName
  end.

Definition GetReferenceID (r : t C) (refName : string) : Z :=
  let refNames := RefName <$> m_references r in
  let index := to_int (find_distance refNames refName) in
  if bool_decide (index = to_int (Z.of_nat (length (m_references r))))
  then -1
  else index.

(** [StopPrefetch].  [join_result] is what [pthread_join] would return;
    the call itself is recorded in [pthread_calls] when it is made. *)
Definition StopPrefetch (join_result : Z) (r : t C) : t C :=
  if negb (do_prefetch r) then r
  else
    let r1 := set_do_prefetch false r in
    if do_prefetch r1
    then
      let r2 := log_pthread pthread_join r1 in
      if bool_decide (0 ≠ join_result)
      then print_cerr "Error joining prefetch thread" r2
      else r2
    else r1.

(** The line feed and the tab that the messages of the reader have behind
    their colon. *)
Definition line_feed_tab : string :=
  String "010"%char (String "009"%char EmptyString).

(** [Close].  [closing] is what [m_stream.Close()] does if it is called. *)
Definition Close (join_result : Z) (closing : close_outcome) (r : t C)
    : bool * t C :=
  let r := StopPrefetch join_result r in
  let r := set_references [] r in
  let r := set_filename "" r in
  let r := set_controller (ControllerClose (m_randomAccessController r)) r in
  if IsOpen (m_stream r)
  then
    match closing with
    | Closes => (true, set_stream (StreamClose (m_stream r)) r)
    | CloseThrows what remains =>
        (false,
         SetErrorString "BamReader::Close"
           ("encountered error closing BAM file: " +:+ line_feed_tab +:+ what)
           (set_stream remains r))
    end
  else (true, r).

(** [Seek].  [streamError] is the text of the exception that the device
    throws when it cannot seek. *)
Definition Seek (join_result : Z) (streamError : string) (position : Z)
    (r : t C) : bool * t C :=
  if negb (IsOpen (m_stream r))
  then (false, SetErrorString "BamReader::Seek"
                 "cannot seek on unopened BAM file" r)
  else
    let r := StopPrefetch join_result r in
    match StreamSeek position (m_stream r) with
    | Some s => (true, set_stream s r)
    | None =>
        (false, SetErrorString "BamReader::Seek"
                  ("could not seek in BAM file: " +:+ line_feed_tab
                   +:+ streamError) r)
    end.

(** [Rewind] *)
Definition Rewind (join_result : Z) (streamError : string) (r : t C)
    : bool * t C :=
  let r := StopPrefetch join_result r in
  let r := set_controller (ClearRegion (m_randomAccessController r)) r in
  let '(ok, r) := Seek join_result streamError (m_alignmentsBeginOffset r) r in
  if ok then (true, r)
  else
    (false, SetErrorString "BamReader::Rewind"
              ("could not rewind: " +:+ line_feed_tab +:+ m_errorString r) r).

(** What [Open] gets from its surroundings: the content of the file
    ([None] when the device cannot be opened), the length of the header
    and reference section and the references parsed from it (the header
    parser is a separate component), the global multithreading switch, the
    result of [pthread_create], what closing the stream of the reader does
    in the [Close] that [Open] starts with, and the text of the exception
    when the device cannot be opened. *)
Record open_env : Type := mkOpenEnv {
  file_content : option (list Byte.byte);
  header_bytes : Z;
  file_references : RefVector;
  isMultithreadingEnabled : bool;
  create_result : Z;
  closing_old : close_outcome;
  open_error : string
}.

(** [Open] *)
Definition Open (env : open_env) (join_result : Z) (filename : string)
    (r : t C) : bool * t C :=
  let r := snd (Close join_result (closing_old env) r) in
  match file_content env with
  | None =>
      (false, SetErrorString "BamReader::Open"
                ("could not open file: " +:+ filename +:+ line_feed_tab
                 +:+ open_error env) r)
  | Some bytes =>
      let s := snd (Read (header_bytes env) (openStream bytes)) in
      let r := set_stream s r in
      let r := set_references (file_references env) r in
      let r := set_filename filename r in
      let r := set_alignmentsBeginOffset (Tell (m_stream r)) r in
      let r := set_do_prefetch (isMultithreadingEnabled env) r in
      if do_prefetch r
      then
        let r := log_pthread pthread_create r in
        if bool_decide (0 ≠ create_result env)
        then
          (true, set_do_prefetch false
                   (print_cerr "Failed to create BamReader prefetch thread" r))
        else (true, r)
      else (true, r)
  end.

(** *** Decoding one record *)

(** The four bytes at offset [off] of a buffer.  Bytes that lie outside
    the buffer (the C++ code would read past the payload there) read as
    zero. *)
Definition word_at (off : Z) (buf : list Byte.byte) : list Byte.byte :=
  let o := Z.to_nat off in
  [nth_byte o buf; nth_byte (o + 1) buf; nth_byte (o + 2) buf;
   nth_byte (o + 3) buf].

(** A 32-bit little-endian field as the code obtains it: unpacked in host
    order, the bytes swapped first on a big-endian host. *)
Definition core_unsigned (big : bool) (x : list Byte.byte) (off : Z) : Z :=
  UnpackUnsignedInt big
    (if big then SwapEndian_32p (word_at off x) else word_at off x).
Definition core_signed (big : bool) (x : list Byte.byte) (off : Z) : Z :=
  UnpackSignedInt big
    (if big then SwapEndian_32p (word_at off x) else word_at off x).

(** One CIGAR word: unpacked in host order, the value swapped on a
    big-endian host. *)
Definition cigar_word (big : bool) (buf : list Byte.byte) (off : Z) : Z :=
  let v := UnpackUnsignedInt big (word_at off buf) in
  if big then SwapEndian_32 v else v.

Definition parse_cigar (big : bool) (buf : list Byte.byte)
    (cigarDataOffset : Z) (NumCigarOperations : Z) : list CigarOp :=
  map (fun i : nat =>
         let w := cigar_word big buf (cigarDataOffset + 4 * Z.of_nat i) in
         mkCigarOp (BAM_CIGAR_LOOKUP (Z.land w BAM_CIGAR_MASK))
                   (Z.shiftr w BAM_CIGAR_SHIFT))
      (seq 0 (Z.to_nat NumCigarOperations)).

(** [LoadNextAlignmentInternal].  [junk i] is the content of byte [i] of
    the local [buffer] before the read: the array is not initialised, and
    a read of one to three bytes leaves the others as they were.  The
    result is the returned flag, the alignment (an out-parameter, which
    the code may have written to before it fails) and the reader. *)
Definition LoadNextAlignmentInternal (junk : nat -> Byte.byte) (r : t C)
    (alignment : BamAlignment) : bool * BamAlignment * t C :=
  let big := m_isBigEndian r in
  let '(got, s1) := Read 4 (m_stream r) in
  if bool_decide (length got = 0%nat) then (false, alignment, r)
  else
    let r := set_stream s1 r in
    let buffer := got ++ map junk (seq (length got) (4 - length got)) in
    let unpacked := UnpackUnsignedInt big buffer in
    let BlockLength_ := if big then SwapEndian_32 unpacked else unpacked in
    if bool_decide (BlockLength_ = 0) then (false, alignment, r)
    else
      let '(x, s2) := Read BAM_CORE_SIZE (m_stream r) in
      let r := set_stream s2 r in
      if bool_decide (Z.of_nat (length x) ≠ BAM_CORE_SIZE)
      then
        (false, alignment,
         print_cerr "Expected more bytes reading BAM core. Is this file truncated or corrupted?" r)
      else
        let alignment := setRefID (core_signed big x 0) alignment in
        let alignment := setPosition (core_signed big x 4) alignment in
        let tempValue := core_unsigned big x 8 in
        let alignment := setBin (Z.shiftr tempValue 16) alignment in
        let alignment :=
          setMapQuality (Z.land (Z.shiftr tempValue 8) 255) alignment in
        let QueryNameLength_ := Z.land tempValue 255 in
        let tempValue := core_unsigned big x 12 in
        let alignment := setAlignmentFlag (Z.shiftr tempValue 16) alignment in
        let NumCigarOperations_ := Z.land tempValue 65535 in
        let QuerySequenceLength_ := core_unsigned big x 16 in
        let alignment := setMateRefID (core_signed big x 20) alignment in
        let alignment := setMatePosition (core_signed big x 24) alignment in
        let alignment := setInsertSize (core_signed big x 28) alignment in
        let dataLength := wrap32 (BlockLength_ - BAM_CORE_SIZE) in
        let '(allCharData, s3) := Read dataLength (m_stream r) in
        let r := set_stream s3 r in
        if bool_decide (Z.of_nat (length allCharData) = dataLength)
        then
          let CigarData_ :=
            parse_cigar big allCharData QueryNameLength_ NumCigarOperations_ in
          let alignment := setCigarData CigarData_ alignment in
          let sd :=
            mkSupportData allCharData BlockLength_ NumCigarOperations_
              QueryNameLength_ QuerySequenceLength_ true in
          (true, setSupportData sd alignment, r)
        else
          (false, alignment,
           print_cerr "Expected more bytes reading BAM char data. Is this file truncated or corrupted?" r).

(** The stream stands at the end of the file. *)
Definition at_end_of_file (r : BamReaderPrivate.t C) : Prop :=
  unread (m_stream r) = [].

(** The next four bytes are there and decode (least significant byte first)
    to a block length of zero. *)
Definition at_zero_block_length (r : BamReaderPrivate.t C) : Prop :=
  exists b0 b1 b2 b3 rest,
    unread (m_stream r) = b0 :: b1 :: b2 :: b3 :: rest
    /\ le32 b0 b1 b2 b3 = 0.

(** Result of an operation of the caller that may have to wait for the
    prefetch worker: with prefetching on and the queue empty the caller
    polls ([usleep(5000)]) and cannot go on by itself. *)
Inductive load_result : Type :=
  | Loaded (ok : bool) (alignment : BamAlignment) (r : t C)
  | Polling.

(** [LoadNextAlignment(BamAlignment&)] *)
Definition LoadNextAlignment (junk : nat -> Byte.byte) (r : t C)
    (alignment : BamAlignment) : load_result :=
  if do_prefetch r
  then
    match prefetch_alignments r with
    | [] => Polling
    | al :: rest =>
        let r := set_prefetch_alignments rest r in
        match al with
        | None => Loaded false alignment r
        | Some a => Loaded true a r
        end
    end
  else
    let '(ok, alignment, r) := LoadNextAlignmentInternal junk r alignment in
    Loaded ok alignment r.

(** [state == OverlapsRegion] and [state == AfterRegion] *)
Definition is_overlap (s : RegionState) : bool :=
  match s with OverlapsRegion => true | _ => false end.
Definition is_after (s : RegionState) : bool :=
  match s with AfterRegion => true | _ => false end.

(** [GetNextAlignment(BamAlignment&)].  [read_until_overlap] is the
    [while] loop; it is given a bound on the number of iterations, and
    [None] means that the bound was too small.  The [catch] branch is left
    out: the device of the model does not throw on reads. *)

Fixpoint read_until_overlap (junk : nat -> Byte.byte) (fuel : nat)
    (state : RegionState) (r : t C) (alignment : BamAlignment)
    : option load_result :=
  if is_overlap state then Some (Loaded true alignment r)
  else
    match fuel with
    | O => None
    | S fuel =>
        match LoadNextAlignment junk r alignment with
        | Polling => Some Polling
        | Loaded false alignment r => Some (Loaded false alignment r)
        | Loaded true alignment r =>
            let state :=
              AlignmentState (m_randomAccessController r) alignment in
            if is_after state then Some (Loaded false alignment r)
            else read_until_overlap junk fuel state r alignment
        end
    end.

Definition GetNextAlignment_bounded (junk : nat -> Byte.byte) (fuel : nat)
    (r : t C) (alignment : BamAlignment) : option load_result :=
  if negb (IsOpen (m_stream r)) then Some (Loaded false alignment r)
  else if HasRegion (m_randomAccessController r)
          && negb (RegionHasAlignments (m_randomAccessController r))
  then Some (Loaded false alignment r)
  else
    match LoadNextAlignment junk r alignment with
    | Polling => Some Polling
    | Loaded false alignment r => Some (Loaded false alignment r)
    | Loaded true alignment r =>
        let state := AlignmentState (m_randomAccessController r) alignment in
        if is_after state then Some (Loaded false alignment r)
        else read_until_overlap junk fuel state r alignment
    end.

(** Every successful load takes a record from the stream or from the
    queue, so this many iterations are enough. *)
Definition records_left (r : t C) : nat :=
  (length (unread (m_stream r)) + length (prefetch_alignments r))%nat.

Definition GetNextAlignment (junk : nat -> Byte.byte) (r : t C)
    (alignment : BamAlignment) : option load_result :=
  GetNextAlignment_bounded junk (records_left r) r alignment.

End Reader.
Arguments load_result C : clear implicits.
End BamReaderPrivate.

(** ** The prefetch worker and its caller

    [prefetch_start] runs on a thread of its own and shares the reader with
    the thread that calls [LoadNextAlignment].  The two are modelled as an
    interleaving of atomic steps on one shared reader: a schedule says whose
    turn it is.  The queue is the only object both sides touch while
    prefetching is on (the worker owns the stream), and each of its
    operations is atomic.

    The interleaving covers one worker and a caller that only takes records
    ([LoadNextAlignment]).  That caller never writes [do_prefetch] or the
    stream, which is what makes the body of the loop up to the push one
    step.  A caller that stops prefetching ([StopPrefetch], [Seek],
    [Rewind], [Close]) is not a turn of this system: the worker is never
    joined, so it may stand between its test of [do_prefetch] and its push
    when the caller goes on to use the stream, and a second [Open] starts a
    second worker on the same reader. *)

Module Prefetch.
Import BamTools BamReaderPrivate.

(** Where the worker stands in [prefetch_start]: at the head of the loop,
    after the push (before the throttle), inside one of the two
    [while (size > threshold) usleep(20000)] loops, or past the loop. *)
Inductive worker_pc : Type :=
  | AtLoopHead
  | AtThrottle
  | Sleeping (threshold : Z)
  | Finished.

Record system (C : Type) : Type := mkSystem {
  reader : BamReaderPrivate.t C;
  pc : worker_pc;
  count : Z;
  returned : list (option BamAlignment)
}.
Arguments mkSystem {C}.
Arguments reader {C}.
Arguments pc {C}.
Arguments count {C}.
Arguments returned {C}.

(** One turn.  A turn of the worker carries what the comparison
    [load > availableCores() / 2] yields if the worker evaluates it in this
    turn (the load average is a floating-point number read from the
    system). *)
Inductive turn : Type :=
  | Worker (load_is_high : bool)
  | Caller.

Section Steps.
Context {C : Type} `{RandomAccessController C}.
Variable junk : nat -> Byte.byte.

(** [BamAlignment * LoadNextAlignment()], the variant that returns a
    pointer; [None] stands for the caller polling an empty queue. *)
Definition LoadNextAlignment_ptr (r : BamReaderPrivate.t C)
    : option (option BamAlignment * BamReaderPrivate.t C) :=
  if do_prefetch r
  then
    match prefetch_alignments r with
    | [] => None
    | al :: rest => Some (al, set_prefetch_alignments rest r)
    end
  else
    let '(ok, al, r) := LoadNextAlignmentInternal junk r newBamAlignment in
    Some (if ok then Some al else None, r).

Definition queue_size (r : BamReaderPrivate.t C) : Z :=
  Z.of_nat (length (prefetch_alignments r)).

(** The body of the loop up to the push: one step, as long as nobody else
    writes the stream or [do_prefetch] meanwhile (see above). *)
Definition prefetch_one (s : system C) : system C :=
  let r := reader s in
  if negb (do_prefetch r)
  then mkSystem r Finished (count s) (returned s)
  else
    let r :=
      set_prefetch_tell_fail (prefetch_tell_fail r ++ [Tell (m_stream r)]) r in
    let '(ok, al, r) := LoadNextAlignmentInternal junk r newBamAlignment in
    let al := if ok then Some al else None in
    let r := set_prefetch_alignments (prefetch_alignments r ++ [al]) r in
    match al with
    | None => mkSystem r Finished (count s) (returned s)
    | Some _ => mkSystem r AtThrottle (count s) (returned s)
    end.

(** The throttle: [if (count % 300 == 0) { ... }  count++].  [count] is an
    [int]; where [count++] overflows the model wraps round (the standard
    leaves the overflow undefined). *)
Definition throttle (load_is_high : bool) (s : system C) : system C :=
  let r := reader s in
  if bool_decide (count s `rem` 300 = 0)
  then
    if load_is_high && bool_decide (queue_size r > 400)
    then mkSystem r (Sleeping 100) (count s) (returned s)
    else if bool_decide (queue_size r > 20000)
    then mkSystem r (Sleeping 5000) (count s) (returned s)
    else mkSystem r AtLoopHead (to_int (count s + 1)) (returned s)
  else mkSystem r AtLoopHead (to_int (count s + 1)) (returned s).

(** One evaluation of [while (size > threshold) usleep(20000)], followed by
    [count++] when the loop is left. *)
Definition sleep_or_resume (threshold : Z) (s : system C) : system C :=
  if bool_decide (queue_size (reader s) > threshold)
  then s
  else mkSystem (reader s) AtLoopHead (to_int (count s + 1)) (returned s).

Definition worker_step (load_is_high : bool) (s : system C) : system C :=
  match pc s with
  | AtLoopHead => prefetch_one s
  | AtThrottle => throttle load_is_high s
  | Sleeping threshold => sleep_or_resume threshold s
  | Finished => s
  end.

(** The caller asks for the next record; while it polls nothing
    changes. *)
Definition caller_step (s : system C) : system C :=
  match LoadNextAlignment_ptr (reader s) with
  | None => s
  | Some (al, r) => mkSystem r (pc s) (count s) (returned s ++ [al])
  end.

Definition step (t : turn) (s : system C) : system C :=
  match t with
  | Worker load_is_high => worker_step load_is_high s
  | Caller => caller_step s
  end.

Definition run (schedule : list turn) (s : system C) : system C :=
  fold_left (fun s t => step t s) schedule s.

(** The system right after a successful [Open]: the worker, if one was
    created, stands before its first iteration. *)
Definition start (r : BamReaderPrivate.t C) : system C :=
  mkSystem r AtLoopHead 0 [].

(** What an undisturbed worker pushes: the records of the stream in file
    order, then one null pointer at the first load that fails.  Every
    successful load consumes bytes, so the length of the unread part
    bounds the number of records. *)
Fixpoint pushes_bounded (fuel : nat) (r : BamReaderPrivate.t C)
    : list (option BamAlignment) :=
  match fuel with
  | O => []
  | S fuel =>
      let '(ok, al, r) := LoadNextAlignmentInternal junk r newBamAlignment in
      if ok then Some al :: pushes_bounded fuel r else [None]
  end.

Definition pushes (r : BamReaderPrivate.t C) : list (option BamAlignment) :=
  pushes_bounded (S (length (unread (m_stream r)))) r.

(** *** Invariants of the interleaving *)

(** How deep the queue can be at each point of the worker that was started
    with [d0] entries in the queue.  In its first iteration the worker adds
    one entry to what it found and looks at the depth.  After that the
    throttle looks at the depth in one iteration out of 300 only, so the
    depth climbs above 20 000 until the next look. *)
Definition within_bound (d0 : Z) (s : system C) : Prop :=
  0 <= count s
  /\ match pc s with
     | AtLoopHead =>
         if bool_decide (count s = 0) then queue_size (reader s) <= d0
         else queue_size (reader s) <= 20000 + (count s - 1) `mod` 300
     | AtThrottle =>
         if bool_decide (count s = 0) then queue_size (reader s) <= d0 + 1
         else queue_size (reader s) <= 20001 + (count s - 1) `mod` 300
     | Sleeping threshold =>
         queue_size (reader s) <= Z.max 20300 (d0 + 1) /\ threshold <= 5000
     | Finished => queue_size (reader s) <= Z.max 20300 (d0 + 1)
     end.

(** What the worker is still going to push. *)
Definition to_come (s : system C) : list (option BamAlignment) :=
  match pc s with
  | Finished => []
  | _ => pushes (reader s)
  end.

(** With prefetching on, what the caller has got, what waits in the queue
    and what is still to come are, in this order, what the queue of the
    reader [r0] held when the system was started on it, and the pushes of
    [r0]. *)
Definition in_file_order (r0 : BamReaderPrivate.t C) (s : system C) : Prop :=
  do_prefetch (reader s) = true
  /\ m_isBigEndian (reader s) = m_isBigEndian r0
  /\ returned s ++ prefetch_alignments (reader s) ++ to_come s
     = prefetch_alignments r0 ++ pushes r0.

End Steps.
End Prefetch.

(** ** The reader: the variant of [GetNextAlignment] that returns a pointer *)

Module BamReaderPointer.
Import BamTools BamReaderPrivate.

Section Pointer.
Context {C : Type} `{RandomAccessController C}.
Variable junk : nat -> Byte.byte.

(** What a call that returns a pointer gives: the pointer ([None] is the
    null pointer) and the reader, or the caller polling an empty queue. *)
Inductive pointer_result : Type :=
  | Returns (p : option BamAlignment) (r : BamReaderPrivate.t C)
  | Waits.

(** The [while] loop of [GetNextAlignment()], with a bound on the number of
    iterations. *)
Fixpoint read_until_overlap_ptr (fuel : nat) (state : RegionState)
    (r : BamReaderPrivate.t C) (alignment : BamAlignment)
    : option pointer_result :=
  if is_overlap state then Some (Returns (Some alignment) r)
  else
    match fuel with
    | O => None
    | S fuel =>
        match Prefetch.LoadNextAlignment_ptr junk r with
        | None => Some Waits
        | Some (None, r) => Some (Returns None r)
        | Some (Some alignment, r) =>
            let state :=
              AlignmentState (m_randomAccessController r) alignment in
            if is_after state then Some (Returns None r)
            else read_until_overlap_ptr fuel state r alignment
        end
    end.

(** [BamAlignment * GetNextAlignment()] *)
Definition GetNextAlignment_ptr_bounded (fuel : nat)
    (r : BamReaderPrivate.t C) : option pointer_result :=
  if negb (IsOpen (m_stream r)) then Some (Returns None r)
  else if HasRegion (m_randomAccessController r)
          && negb (RegionHasAlignments (m_randomAccessController r))
  then Some (Returns None r)
  else
    match Prefetch.LoadNextAlignment_ptr junk r with
    | None => Some Waits
    | Some (None, r) => Some (Returns None r)
    | Some (Some alignment, r) =>
        let state := AlignmentState (m_randomAccessController r) alignment in
        if is_after state then Some (Returns None r)
        else read_until_overlap_ptr fuel state r alignment
    end.

Definition GetNextAlignment_ptr (r : BamReaderPrivate.t C)
    : option pointer_result :=
  GetNextAlignment_ptr_bounded (records_left r) r.

(** The result of the variant with a reference, seen as a pointer: the
    alignment on success, the null pointer on failure. *)
Definition as_pointer (res : load_result C) : pointer_result :=
  match res with
  | Loaded true alignment r => Returns (Some alignment) r
  | Loaded false _ r => Returns None r
  | Polling => Waits
  end.

(** The reader after one call of [LoadNextAlignment(BamAlignment&)]; a call
    that polls an empty queue has not changed it. *)
Definition after_load (r : BamReaderPrivate.t C) (alignment : BamAlignment)
    : BamReaderPrivate.t C :=
  match LoadNextAlignment junk r alignment with
  | Loaded _ _ r' => r'
  | Polling => r
  end.

(** The reader after one such call for each of the given alignments, all
    made by the thread that owns the reader. *)
Definition after_loads (alignments : list BamAlignment)
    (r : BamReaderPrivate.t C) : BamReaderPrivate.t C :=
  fold_left after_load alignments r.

(** The file under the reader: decoding moves the file pointer and nothing
    else of the stream, and keeps what [Open] has recorded. *)
Definition same_file (r r' : BamReaderPrivate.t C) : Prop :=
  device (m_stream r') = device (m_stream r)
  /\ IsOpen (m_stream r') = IsOpen (m_stream r)
  /\ m_alignmentsBeginOffset r' = m_alignmentsBeginOffset r
  /\ m_isBigEndian r' = m_isBigEndian r.

(** The fields that a load does not write. *)
Definition same_text (a b : BamAlignment) : Prop :=
  Name a = Name b /\ QueryBases a = QueryBases b /\ Qualities a = Qualities b.

End Pointer.
Arguments pointer_result C : clear implicits.
End BamReaderPointer.

(** ** The sorter: [read_sorter.cpp] *)

Module ReadSorter.
Import BamTools.

Inductive sort_order_t : Type := SORT_NAME | SORT_POSITION.

Inductive SortOrder_t : Type :=
  | SAM_HD_SORTORDER_QUERYNAME
  | SAM_HD_SORTORDER_COORDINATE
  | SAM_HD_SORTORDER_UNKNOWN.

(** A [TempFileWriteJob] waiting in the thread pool. *)
Record TempFileWriteJob : Type := mkJob {
  job_buffer : list BamAlignment;
  job_filename : string
}.

(** The sorter object together with what it reads and writes: [source] is
    the upstream module behind [getInputAlignment], [sink] what
    [putOutputAlignment] has been handed so far, [disk] the temp directory
    (a temp file holds the records saved to it, which a [BamReader] opened
    on it returns in that order), [thread_pool] the jobs added and not yet
    run, [cerr] the error messages printed.  Progress messages of the
    verbose mode are left out. *)
Record t : Type := mkSorter {
  sort_order : sort_order_t;
  nothreads : bool;
  alignments_per_tempfile : Z;
  tmp_file_dir : string;
  m_tempFilenameStub : string;
  m_numberOfRuns : Z;
  m_tempFilenames : list string;
  m_header_SortOrder : SortOrder_t;
  sort_retval : bool;
  merge_retval : bool;
  source : list BamAlignment;
  sink : list BamAlignment;
  disk : gmap string (list BamAlignment);
  thread_pool : list TempFileWriteJob;
  cerr : list string
}.

Definition set_header_SortOrder (v : SortOrder_t) (s : t) : t :=
  mkSorter (sort_order s) (nothreads s) (alignments_per_tempfile s)
    (tmp_file_dir s) (m_tempFilenameStub s) (m_numberOfRuns s)
    (m_tempFilenames s) v (sort_retval s) (merge_retval s)
    (source s) (sink s) (disk s) (thread_pool s) (cerr s).
Definition register_run (filename : string) (s : t) : t :=
  mkSorter (sort_order s) (nothreads s) (alignments_per_tempfile s)
    (tmp_file_dir s) (m_tempFilenameStub s) (m_numberOfRuns s + 1)
    (m_tempFilenames s ++ [filename]) (m_header_SortOrder s)
    (sort_retval s) (merge_retval s)
    (source s) (sink s) (disk s) (thread_pool s) (cerr s).
Definition set_source (v : list BamAlignment) (s : t) : t :=
  mkSorter (sort_order s) (nothreads s) (alignments_per_tempfile s)
    (tmp_file_dir s) (m_tempFilenameStub s) (m_numberOfRuns s)
    (m_tempFilenames s) (m_header_SortOrder s) (sort_retval s)
    (merge_retval s) v (sink s) (disk s) (thread_pool s) (cerr s).
Definition set_sink (v : list BamAlignment) (s : t) : t :=
  mkSorter (sort_order s) (nothreads s) (alignments_per_tempfile s)
    (tmp_file_dir s) (m_tempFilenameStub s) (m_numberOfRuns s)
    (m_tempFilenames s) (m_header_SortOrder s) (sort_retval s)
    (merge_retval s) (source s) v (disk s) (thread_pool s) (cerr s).
Definition set_disk (v : gmap string (list BamAlignment)) (s : t) : t :=
  mkSorter (sort_order s) (nothreads s) (alignments_per_tempfile s)
    (tmp_file_dir s) (m_tempFilenameStub s) (m_numberOfRuns s)
    (m_tempFilenames s) (m_header_SortOrder s) (sort_retval s)
    (merge_retval s) (source s) (sink s) v (thread_pool s) (cerr s).
Definition set_thread_pool (v : list TempFileWriteJob) (s : t) : t :=
  mkSorter (sort_order s) (nothreads s) (alignments_per_tempfile s)
    (tmp_file_dir s) (m_tempFilenameStub s) (m_numberOfRuns s)
    (m_tempFilenames s) (m_header_SortOrder s) (sort_retval s)
    (merge_retval s) (source s) (sink s) (disk s) v (cerr s).
Definition print_cerr (msg : string) (s : t) : t :=
  mkSorter (sort_order s) (nothreads s) (alignments_per_tempfile s)
    (tmp_file_dir s) (m_tempFilenameStub s) (m_numberOfRuns s)
    (m_tempFilenames s) (m_header_SortOrder s) (sort_retval s)
    (merge_retval s) (source s) (sink s) (disk s) (thread_pool s)
    (cerr s ++ [msg]).

(** *** Sorting a buffer *)

(** [std::stable_sort]: the sorted arrangement in which elements that the
    comparator does not separate keep their order.  An element is put in
    front of the first element of the sorted rest that is not smaller. *)
Fixpoint stable_insert {A : Type} (lt : A -> A -> bool) (x : A)
    (sorted : list A) : list A :=
  match sorted with
  | [] => [x]
  | y :: rest =>
      if lt y x then y :: stable_insert lt x rest else x :: sorted
  end.

Definition stable_sort {A : Type} (lt : A -> A -> bool) (l : list A)
    : list A :=
  foldr (stable_insert lt) [] l.

(** Modelled from the spec: [ogeSortMt] of [thread_pool.h], "a parallel
    stable merge-sort"; its result is that of [std::stable_sort]. *)
Definition ogeSortMt {A : Type} (lt : A -> A -> bool) (l : list A)
    : list A :=
  stable_sort lt l.

(** [SortBuffer] *)
Definition SortBuffer (s : t) (buffer : list BamAlignment)
    : list BamAlignment :=
  if nothreads s
  then
    match sort_order s with
    | SORT_NAME => stable_sort Sort.ByName buffer
    | SORT_POSITION => stable_sort Sort.ByPosition buffer
    end
  else
    match sort_order s with
    | SORT_NAME => ogeSortMt Sort.ByName buffer
    | SORT_POSITION => ogeSortMt Sort.ByPosition buffer
    end.

(** *** Spilling a run *)

(** [can_create filename] tells whether [BamWriter::Open] succeeds on the
    path.  (The writer reports nothing about the records it saves.) *)
Definition WriteTempFile (can_create : string -> bool)
    (buffer : list BamAlignment) (tempFilename : string) (s : t)
    : bool * t :=
  if negb (can_create tempFilename)
  then
    (false,
     print_cerr ("bamtools sort ERROR: could not open " +:+ tempFilename
                 +:+ " for writing.") s)
  else (true, set_disk (<[tempFilename := buffer]> (disk s)) s).

(** [TempFileWriteJob::runJob] *)
Definition runJob (can_create : string -> bool) (job : TempFileWriteJob)
    (s : t) : t :=
  let buffer := SortBuffer s (job_buffer job) in
  let '(success, s) := WriteTempFile can_create buffer (job_filename job) s in
  if negb success
  then print_cerr ("Problem writing out temporary file " +:+ job_filename job) s
  else s.

(** [ThreadPool::waitForJobCompletion]: when it returns every job has been
    run.  A job touches the file of its own run only, so the jobs are run
    here in the order in which they were added. *)
Definition waitForJobCompletion (can_create : string -> bool) (s : t) : t :=
  fold_left (fun s job => runJob can_create job s) (thread_pool s)
    (set_thread_pool [] s).

(** [CreateSortedTempFile] *)
Definition CreateSortedTempFile (can_create : string -> bool)
    (buffer : list BamAlignment) (s : t) : bool * t :=
  let filename :=
    tmp_file_dir s +:+ m_tempFilenameStub s +:+ pretty (m_numberOfRuns s) in
  let s := register_run filename s in
  if nothreads s
  then
    let sort_buffer := SortBuffer s buffer in
    WriteTempFile can_create sort_buffer filename s
  else
    (true, set_thread_pool (thread_pool s ++ [mkJob buffer filename]) s).

(** *** [GenerateSortedRuns] *)

(** The reading loop.  The code has it twice, once per sort order; the two
    copies differ in a [reserve] and in a progress message. *)
Fixpoint fill_buffers (can_create : string -> bool)
    (input : list BamAlignment) (buffer : list BamAlignment) (s : t)
    : list BamAlignment * t :=
  match input with
  | [] => (buffer, set_source [] s)
  | al :: input =>
      let bufferFull :=
        bool_decide (Z.of_nat (length buffer) >= alignments_per_tempfile s) in
      if negb bufferFull
      then fill_buffers can_create input (buffer ++ [al]) s
      else
        let s := snd (CreateSortedTempFile can_create buffer s) in
        fill_buffers can_create input [al] s
  end.

Definition header_order (o : sort_order_t) : SortOrder_t :=
  match o with
  | SORT_NAME => SAM_HD_SORTORDER_QUERYNAME
  | SORT_POSITION => SAM_HD_SORTORDER_COORDINATE
  end.

Definition GenerateSortedRuns (can_create : string -> bool) (s : t)
    : bool * t :=
  let s := set_header_SortOrder (header_order (sort_order s)) s in
  let '(buffer, s) :=
    match sort_order s with
    | SORT_NAME => fill_buffers can_create (source s) [] s
    | SORT_POSITION => fill_buffers can_create (source s) [] s
    end in
  let s :=
    match buffer with
    | [] => s
    | _ :: _ => snd (CreateSortedTempFile can_create buffer s)
    end in
  let s := if negb (nothreads s) then waitForJobCompletion can_create s else s in
  (true, s).

(** *** [MergeSortedRuns] *)

(** An element of the merge queue: a record and the reader it came from
    (the position of the reader in [readers]). *)
Record SortedMergeElement : Type := mkElement {
  read : BamAlignment;
  source_reader : nat
}.

(** [SortedMergeElement::operator<] *)
Definition SortedMergeElement_lt (this t_ : SortedMergeElement) : bool :=
  Sort.ByPosition (read this) (read t_).

(** [std::multiset::insert]: the new element goes to the upper bound of
    its key, that is, in front of the first element that is greater. *)
Fixpoint multiset_insert (el : SortedMergeElement)
    (reads : list SortedMergeElement) : list SortedMergeElement :=
  match reads with
  | [] => [el]
  | y :: rest =>
      if SortedMergeElement_lt el y then el :: reads
      else y :: multiset_insert el rest
  end.

(** [readers[i]->GetNextAlignment()] on the reader of a temp file: the
    next record of the file, or a null pointer at its end. *)
Definition reader_GetNextAlignment (i : nat)
    (readers : list (list BamAlignment))
    : option BamAlignment * list (list BamAlignment) :=
  match readers !! i with
  | Some (al :: rest) => (Some al, <[i := rest]> readers)
  | _ => (None, readers)
  end.

(** Opening one reader per temp file; [None] when a file cannot be opened
    (the code then calls [exit(-1)]). *)
Fixpoint open_readers (disk_ : gmap string (list BamAlignment))
    (filenames : list string) : option (list (list BamAlignment)) :=
  match filenames with
  | [] => Some []
  | f :: filenames =>
      match disk_ !! f with
      | None => None
      | Some records =>
          match open_readers disk_ filenames with
          | None => None
          | Some readers => Some (records :: readers)
          end
      end
  end.

(** The first loop: one record from each reader. *)
Fixpoint seed_reads (n : nat) (ctr : nat)
    (readers : list (list BamAlignment)) (reads : list SortedMergeElement)
    : list SortedMergeElement * list (list BamAlignment) :=
  match n with
  | O => (reads, readers)
  | S n =>
      match reader_GetNextAlignment ctr readers with
      | (None, readers) => seed_reads n (S ctr) readers reads
      | (Some al, readers) =>
          seed_reads n (S ctr) readers (multiset_insert (mkElement al ctr) reads)
      end
  end.

(** The second loop, [while (!reads.empty())], with a bound on the number
    of iterations; [None] means that the bound was too small. *)
Fixpoint merge_loop (fuel : nat) (reads : list SortedMergeElement)
    (readers : list (list BamAlignment)) (output : list BamAlignment)
    : option (list BamAlignment) :=
  match reads with
  | [] => Some output
  | el :: reads =>
      match fuel with
      | O => None
      | S fuel =>
          let output := output ++ [read el] in
          match reader_GetNextAlignment (source_reader el) readers with
          | (None, readers) => merge_loop fuel reads readers output
          | (Some al, readers) =>
              merge_loop fuel
                (multiset_insert (mkElement al (source_reader el)) reads)
                readers output
          end
      end
  end.

(** Each iteration emits one record, so the number of records bounds the
    number of iterations. *)
Definition merge_fuel (reads : list SortedMergeElement)
    (readers : list (list BamAlignment)) : nat :=
  (length reads + length (concat readers))%nat.

(** The k-way merge of the opened readers. *)
Definition merge_readers (readers : list (list BamAlignment))
    : option (list BamAlignment) :=
  let '(reads, readers) := seed_reads (length readers) 0 readers [] in
  merge_loop (merge_fuel reads readers) reads readers [].

(** [MergeSortedRuns] *)
Definition MergeSortedRuns (s : t) : outcome (bool * t) :=
  match open_readers (disk s) (m_tempFilenames s) with
  | None => Exited (-1)
  | Some readers =>
      let output := default [] (merge_readers readers) in
      let s := set_sink (sink s ++ output) s in
      let s :=
        set_disk (fold_left (fun d f => delete f d) (m_tempFilenames s) (disk s)) s in
      Returned (true, s)
  end.

(** [RunSort] *)
Definition RunSort (can_create : string -> bool) (s : t)
    : outcome (bool * t) :=
  let '(generated, s) := GenerateSortedRuns can_create s in
  if generated then MergeSortedRuns s else Returned (false, s).

(** [Run] *)
Definition Run (can_create : string -> bool) (s : t) : outcome (bool * t) :=
  let s := set_header_SortOrder (header_order (sort_order s)) s in
  match RunSort can_create s with
  | Exited code => Exited code
  | Returned (_, s) => Returned (sort_retval s && merge_retval s, s)
  end.

(** *** Notions used in the properties *)

(** Nothing between the start of [Run] and its [return] assigns
    [sort_retval] or [merge_retval]. *)
Definition same_flags (s s' : ReadSorter.t) : Prop :=
  sort_retval s' = sort_retval s /\ merge_retval s' = merge_retval s.

(** What [Run] hands to its sink, by name; [None] when the process
    exits. *)
Definition names_written (result : outcome (bool * ReadSorter.t))
    : option (bool * list string) :=
  match result with
  | Exited _ => None
  | Returned (ok, s) => Some (ok, Name <$> sink s)
  end.

End ReadSorter.

(** ** The FASTQ writer: [fastq_writer.cpp] *)

Module FastqWriter.
Import BamTools.

Record fastq_record_t : Type := mkRecord {
  seq : string;
  qual : string
}.

(** An output stream: [std::cout] or one of the three [ofstream] members.
    [fail_] is the error state of the stream.  Writing to a stream in error
    state does nothing; writing to a file that is not open puts the stream
    into error state. *)
Record ostream : Type := mkOstream {
  is_open : bool;
  fail_ : bool;
  text : string
}.

(** What the pointers [fwd_stream], [rev_stream] and [orphan_stream] can
    point to. *)
Inductive ostream_ptr : Type := to_cout | to_fwd_file | to_rev_file | to_orphan_file.

Global Instance ostream_ptr_eq_dec : EqDecision ostream_ptr.
Proof. solve_decision. Defined.

Record t : Type := mkWriter {
  fwd_stream : ostream_ptr;
  rev_stream : ostream_ptr;
  orphan_stream : ostream_ptr;
  cout : ostream;
  fwd_file : ostream;
  rev_file : ostream;
  orphan_file : ostream;
  open : bool;
  filename : string;
  potential_pairs : gmap string fastq_record_t;
  cerr : list string
}.

(** [FastqWriter::FastqWriter()] *)
Definition new : t :=
  mkWriter to_cout to_cout to_cout (mkOstream true false "")
    (mkOstream false false "") (mkOstream false false "")
    (mkOstream false false "") false "" ∅ [].

Definition deref (p : ostream_ptr) (w : t) : ostream :=
  match p with
  | to_cout => cout w
  | to_fwd_file => fwd_file w
  | to_rev_file => rev_file w
  | to_orphan_file => orphan_file w
  end.

Definition assign (p : ostream_ptr) (o : ostream) (w : t) : t :=
  match p with
  | to_cout =>
      mkWriter (fwd_stream w) (rev_stream w) (orphan_stream w) o (fwd_file w)
        (rev_file w) (orphan_file w) (open w) (filename w)
        (potential_pairs w) (cerr w)
  | to_fwd_file =>
      mkWriter (fwd_stream w) (rev_stream w) (orphan_stream w) (cout w) o
        (rev_file w) (orphan_file w) (open w) (filename w)
        (potential_pairs w) (cerr w)
  | to_rev_file =>
      mkWriter (fwd_stream w) (rev_stream w) (orphan_stream w) (cout w)
        (fwd_file w) o (orphan_file w) (open w) (filename w)
        (potential_pairs w) (cerr w)
  | to_orphan_file =>
      mkWriter (fwd_stream w) (rev_stream w) (orphan_stream w) (cout w)
        (fwd_file w) (rev_file w) o (open w) (filename w)
        (potential_pairs w) (cerr w)
  end.

Definition set_pointers (f r o : ostream_ptr) (w : t) : t :=
  mkWriter f r o (cout w) (fwd_file w) (rev_file w) (orphan_file w) (open w)
    (filename w) (potential_pairs w) (cerr w).
Definition set_open (v : bool) (w : t) : t :=
  mkWriter (fwd_stream w) (rev_stream w) (orphan_stream w) (cout w)
    (fwd_file w) (rev_file w) (orphan_file w) v (filename w)
    (potential_pairs w) (cerr w).
Definition set_filename (v : string) (w : t) : t :=
  mkWriter (fwd_stream w) (rev_stream w) (orphan_stream w) (cout w)
    (fwd_file w) (rev_file w) (orphan_file w) (open w) v
    (potential_pairs w) (cerr w).
Definition set_potential_pairs (v : gmap string fastq_record_t) (w : t) : t :=
  mkWriter (fwd_stream w) (rev_stream w) (orphan_stream w) (cout w)
    (fwd_file w) (rev_file w) (orphan_file w) (open w) (filename w) v (cerr w).
Definition print_cerr (msg : string) (w : t) : t :=
  mkWriter (fwd_stream w) (rev_stream w) (orphan_stream w) (cout w)
    (fwd_file w) (rev_file w) (orphan_file w) (open w) (filename w)
    (potential_pairs w) (cerr w ++ [msg]).

(** [ofstream::open]: [can_create path] tells whether the file can be
    created; a new file is empty, and a successful [open] clears the error
    state (C++11).  [open] on a stream that is open fails. *)
Definition file_open (can_create : string -> bool) (path : string)
    (o : ostream) : ostream :=
  if is_open o then mkOstream true true (text o)
  else if can_create path then mkOstream true false ""
  else mkOstream false true (text o).

(** [ofstream::close] *)
Definition file_close (o : ostream) : ostream :=
  if is_open o then mkOstream false (fail_ o) (text o)
  else mkOstream false true (text o).

(** [stream << chunk] *)
Definition put (chunk : string) (o : ostream) : ostream :=
  if fail_ o then o
  else if is_open o then mkOstream true false (text o +:+ chunk)
  else mkOstream false true (text o).

Definition write (p : ostream_ptr) (chunk : string) (w : t) : t :=
  assign p (put chunk (deref p w)) w.

Definition endl : string := String "010"%char EmptyString.

(** The four lines of one FASTQ entry:
    ["@" << header << endl << bases << endl << "+" << header << endl << qualities << endl]. *)
Definition fastq_entry (header bases qualities : string) : string :=
  "@" +:+ header +:+ endl +:+ bases +:+ endl +:+ "+" +:+ header +:+ endl
  +:+ qualities +:+ endl.

(** [Open] *)
Definition Open (can_create : string -> bool) (filename_ : string) (w : t)
    : bool * t :=
  let w := set_filename filename_ w in
  if negb (String.eqb filename_ "stdout")
  then
    let w := assign to_fwd_file
               (file_open can_create (filename_ +:+ "_1.fastq") (fwd_file w)) w in
    if fail_ (fwd_file w)
    then (false, print_cerr ("Failed to open FASTQ forward output file "
                             +:+ filename_) w)
    else
      let w := set_pointers to_fwd_file (rev_stream w) (orphan_stream w) w in
      let w := assign to_rev_file
                 (file_open can_create (filename_ +:+ "_2.fastq") (rev_file w)) w in
      if fail_ (rev_file w)
      then (false, print_cerr ("Failed to open FASTQ reverse output file "
                               +:+ filename_) w)
      else
        let w := set_pointers (fwd_stream w) to_rev_file (orphan_stream w) w in
        let w := assign to_orphan_file
                   (file_open can_create (filename_ +:+ ".fastq") (orphan_file w)) w in
        if fail_ (orphan_file w)
        then (false, print_cerr ("Failed to open FASTQ orphan output file "
                                 +:+ filename_) w)
        else
          let w := set_pointers (fwd_stream w) (rev_stream w) to_orphan_file w in
          (true, set_open true w)
  else (true, set_open true w).

(** Iteration over a [std::map<string, _>]: the entries in the order of
    their keys. *)
Definition key_le (x y : string * fastq_record_t) : Prop :=
  String.leb x.1 y.1 = true.

Local Instance key_le_dec x y : Decision (key_le x y).
Proof. unfold key_le. apply _. Defined.

Definition in_key_order (m : gmap string fastq_record_t)
    : list (string * fastq_record_t) :=
  merge_sort key_le (map_to_list m).

(** [Close] *)
Definition Close (w : t) : bool * t :=
  let w :=
    fold_left
      (fun w (i : string * fastq_record_t) =>
         write (orphan_stream w) (fastq_entry i.1 (seq i.2) (qual i.2)) w)
      (in_key_order (potential_pairs w)) w in
  let w :=
    if open w
    then
      let w := assign to_fwd_file (file_close (fwd_file w)) w in
      let w := assign to_rev_file (file_close (rev_file w)) w in
      assign to_orphan_file (file_close (orphan_file w)) w
    else w in
  (true, set_open false w).

(** [compliment] *)
Definition compliment_char (c : ascii) : ascii :=
  if Ascii.eqb c "A" then "T"
  else if Ascii.eqb c "C" then "G"
  else if Ascii.eqb c "G" then "C"
  else if Ascii.eqb c "T" then "A"
  else if Ascii.eqb c "a" then "t"
  else if Ascii.eqb c "c" then "g"
  else if Ascii.eqb c "g" then "c"
  else if Ascii.eqb c "t" then "a"
  else c.

Fixpoint compliment (str : string) : string :=
  match str with
  | EmptyString => EmptyString
  | String c rest => String (compliment_char c) (compliment rest)
  end.

(** [std::reverse] on a string *)
Definition reverse (str : string) : string := String.rev str.

Section SaveAlignment.
(** [BamAlignment::BuildCharData] and [BamAlignment::IsReverseStrand]
    belong to the BAM API and are taken as given. *)
Variable BuildCharData : BamAlignment -> BamAlignment.
Variable IsReverseStrand : BamAlignment -> bool.

(** [SaveAlignment].  The alignment is passed by reference and
    [BuildCharData] changes it in place; the changed alignment is not
    part of the result here. *)
Definition SaveAlignment (a : BamAlignment) (w : t) : outcome (bool * t) :=
  let a := BuildCharData a in
  if bool_decide (fwd_stream w = rev_stream w)
  then
    Returned (true,
      write (fwd_stream w) (fastq_entry (Name a) (QueryBases a) (Qualities a)) w)
  else
    match potential_pairs w !! Name a with
    | None =>
        let rec := mkRecord (QueryBases a) (Qualities a) in
        Returned (true,
          set_potential_pairs (<[Name a := rec]> (potential_pairs w)) w)
    | Some rec =>
        let seq_ := QueryBases a in
        let qual_ := Qualities a in
        let fwd_seq := if IsReverseStrand a then seq rec else seq_ in
        let fwd_qual := if IsReverseStrand a then qual rec else qual_ in
        let rev_seq := if IsReverseStrand a then seq_ else seq rec in
        let rev_qual := if IsReverseStrand a then qual_ else qual rec in
        let rev_seq := reverse rev_seq in
        let rev_qual := reverse rev_qual in
        let rev_seq := compliment rev_seq in
        let w := write (fwd_stream w)
                   (fastq_entry (Name a +:+ "/1") fwd_seq fwd_qual) w in
        let w := write (rev_stream w)
                   (fastq_entry (Name a +:+ "/2") rev_seq rev_qual) w in
        if fail_ (deref (fwd_stream w) w) || fail_ (deref (rev_stream w) w)
        then
          Exited (-1)
        else
          Returned (true,
            set_potential_pairs (delete (Name a) (potential_pairs w)) w)
    end.

(** A sequence of calls of [SaveAlignment]. *)
Fixpoint SaveAlignments (l : list BamAlignment) (w : t) : outcome t :=
  match l with
  | [] => Returned w
  | a :: l =>
      match SaveAlignment a w with
      | Exited code => Exited code
      | Returned (_, w) => SaveAlignments l w
      end
  end.

(** *** What the writer is expected to put out *)

(** The three pointers point to the three files, which are open and in good
    state: the writer after a successful [Open] on a name other than
    "stdout". *)
Definition separate_files (w : t) : Prop :=
  fwd_stream w = to_fwd_file /\ rev_stream w = to_rev_file
  /\ orphan_stream w = to_orphan_file
  /\ is_open (fwd_file w) = true /\ fail_ (fwd_file w) = false
  /\ is_open (rev_file w) = true /\ fail_ (rev_file w) = false
  /\ is_open (orphan_file w) = true /\ fail_ (orphan_file w) = false.

(** The record that [SaveAlignment] buffers for an alignment, with its
    key. *)
Definition mate_of (a : BamAlignment) : string * fastq_record_t :=
  (Name (BuildCharData a),
   mkRecord (QueryBases (BuildCharData a)) (Qualities (BuildCharData a))).

(** A pair is made of the buffered record of the first mate and the
    alignment that arrives second.  The second mate is taken for the reverse
    one when it is on the reverse strand, the first one otherwise. *)
Definition forward_of (p : fastq_record_t * BamAlignment) : fastq_record_t :=
  if IsReverseStrand (BuildCharData p.2) then p.1 else (mate_of p.2).2.

Definition reverse_of (p : fastq_record_t * BamAlignment) : fastq_record_t :=
  if IsReverseStrand (BuildCharData p.2) then (mate_of p.2).2 else p.1.

Definition fwd_entry (p : fastq_record_t * BamAlignment) : string :=
  fastq_entry ((mate_of p.2).1 +:+ "/1") (seq (forward_of p)) (qual (forward_of p)).

Definition rev_entry (p : fastq_record_t * BamAlignment) : string :=
  fastq_entry ((mate_of p.2).1 +:+ "/2")
    (compliment (reverse (seq (reverse_of p)))) (reverse (qual (reverse_of p))).

Definition orphan_entry (i : string * fastq_record_t) : string :=
  fastq_entry i.1 (seq i.2) (qual i.2).

(** The two mates of a pair, as they were buffered or would have been. *)
Definition mates_of_pair (p : fastq_record_t * BamAlignment)
    : list (string * fastq_record_t) :=
  [((mate_of p.2).1, p.1); mate_of p.2].

(** Concatenation of chunks of text. *)
Definition joined (chunks : list string) : string :=
  foldr String.append EmptyString chunks.

(** The bases of a mate as its own strand asks for: reverse-complemented
    when the mate is on the reverse strand, as they are otherwise. *)
Definition bases_by_own_strand (a : BamAlignment) : string :=
  if IsReverseStrand (BuildCharData a)
  then compliment (reverse (QueryBases (BuildCharData a)))
  else QueryBases (BuildCharData a).

End SaveAlignment.
End FastqWriter.


(** ** A region controller

    [BamRandomAccessController] is not part of the sources at hand; the
    reader is stated over its interface.  This instance is used where a
    concrete controller is needed. *)

Module RegionController.
Import BamTools BamReaderPrivate.

Record BamRegion : Type := mkRegion {
  region_ref : Z;
  region_begin : Z;
  region_end : Z
}.

Record t : Type := mkController {
  m_region : option BamRegion;
  m_hasAlignmentsInRegion : bool
}.

(** Number of reference bases an alignment covers. *)
Definition consumes_reference (op : CigarOp) : bool :=
  bool_decide (Type_ op ∈ ["M"; "D"; "N"; "="; "X"]%char).

Definition reference_span (a : BamAlignment) : Z :=
  foldr (fun op n => if consumes_reference op then Length op + n else n) 0
    (CigarData a).

(** Modelled from the spec: [AlignmentState], "for any region
    (ref, begin, end), the set of emitted records equals
    {r : r.ref = ref, r.position < end, r.position + r.reference_span > begin}";
    records left of the region are before it, and a record that starts at or
    after [end], or lies on a later reference, is after it. *)
Definition state_of (c : t) (a : BamAlignment) : RegionState :=
  match m_region c with
  | None => OverlapsRegion
  | Some g =>
      if bool_decide (RefID a < region_ref g) then BeforeRegion
      else if bool_decide (RefID a > region_ref g) then AfterRegion
      else if bool_decide (Position a >= region_end g) then AfterRegion
      else if bool_decide (Position a + reference_span a > region_begin g)
      then OverlapsRegion
      else BeforeRegion
  end.

Global Instance controller : RandomAccessController t := {
  HasRegion c := bool_decide (is_Some (m_region c));
  RegionHasAlignments c := m_hasAlignmentsInRegion c;
  AlignmentState := state_of;
  ClearRegion c := mkController None false;
  ControllerClose c := mkController None false
}.

(** A reader as its constructor leaves it, on a little-endian host. *)
Definition new_reader : BamReaderPrivate.t t :=
  mkReader closedStream false [] 0 "" "" (mkController None false) false [] []
    [] [].

End RegionController.

(** ** Building test streams *)

Module TestData.
Import BamTools BamReaderPrivate.

Definition byte_of (z : Z) : Byte.byte :=
  default Byte.x00 (Byte.of_N (Z.to_N (z `mod` 256))).

(** The four bytes of a 32-bit value, least significant first. *)
Definition le_bytes (z : Z) : list Byte.byte :=
  [byte_of z; byte_of (Z.shiftr z 8); byte_of (Z.shiftr z 16);
   byte_of (Z.shiftr z 24)].

(** A record without name, CIGAR, bases or tags: the block length (32) and
    the 32 bytes of the core. *)
Definition core_record (refID pos : Z) : list Byte.byte :=
  le_bytes 32 ++ le_bytes refID ++ le_bytes pos ++ repeat Byte.x00 24.

(** The uninitialised part of a local buffer, filled with one value. *)
Definition junk (_ : nat) : Byte.byte := Byte.xaa.

(** A reader in the state in which a successful [Open] with multithreading
    enabled leaves it, on a file of [n] records (the header is left out). *)
Definition prefetching_reader (n : nat)
    : BamReaderPrivate.t RegionController.t :=
  mkReader (openStream (concat (repeat (core_record 0 0) n))) false [] 0
    "in.bam" "" (RegionController.mkController None false) true [] []
    [pthread_create] [].

(** The caller does not run: the worker alone goes [n] times round its
    loop (one turn for the load and the push, one for the throttle). *)
Definition worker_alone (n : nat) : list Prefetch.turn :=
  concat (repeat [Prefetch.Worker false; Prefetch.Worker false] n).

(** An alignment with a name and a position, everything else empty. *)
Definition named (name : string) (refID pos : Z) : BamAlignment :=
  mkBamAlignment name "" "" refID pos 0 0 0 [] (-1) (-1) 0 emptySupportData.

(** A sorter before [Run]: no runs yet, an empty temp directory unless
    [disk] says otherwise, both result flags set. *)
Definition sorter (order : ReadSorter.sort_order_t) (nothreads : bool)
    (alignments_per_tempfile : Z) (input : list BamAlignment)
    (disk : gmap string (list BamAlignment)) : ReadSorter.t :=
  ReadSorter.mkSorter order nothreads alignments_per_tempfile "/tmp/"
    "oge_sort_" 0 [] ReadSorter.SAM_HD_SORTORDER_UNKNOWN true true input []
    disk [] [].

(** A reader on an open file of the given bytes, without prefetching. *)
Definition reader_on (bytes : list Byte.byte)
    (controller : RegionController.t)
    : BamReaderPrivate.t RegionController.t :=
  mkReader (openStream bytes) false [] 0 "in.bam" "" controller false [] []
    [] [].

(** Scenario S3 of the specification: the region (ref 0, 100, 200) over
    records at (0,50), (0,150), (0,250) and (1,50). *)
Definition region_reader : BamReaderPrivate.t RegionController.t :=
  reader_on
    (core_record 0 50 ++ core_record 0 150 ++ core_record 0 250
     ++ core_record 1 50)
    (RegionController.mkController
       (Some (RegionController.mkRegion 0 100 200)) true).

(** A reader whose reference list has a name twice. *)
Definition reader_with_references : BamReaderPrivate.t RegionController.t :=
  mkReader closedStream false
    [mkRefData "chr1" 1000; mkRefData "chr2" 2000; mkRefData "chr2" 3000]
    0 "in.bam" "" (RegionController.mkController None false) false [] [] [] [].

(** For the FASTQ writer: alignments that carry their character data
    already, and the strand bit (0x10) of the flag. *)
Definition already_built (a : BamAlignment) : BamAlignment := a.

Definition strand_bit (a : BamAlignment) : bool :=
  Z.testbit (AlignmentFlag a) 4.

Definition read_of (name bases quals : string) (flag : Z) : BamAlignment :=
  mkBamAlignment name bases quals 0 0 0 0 flag [] (-1) (-1) 0 emptySupportData.

End TestData.


(** ** The layout of a record on disk

    The bytes of one record as [LoadNextAlignmentInternal] expects them: the
    block length, the eight 32-bit words of the core, and the payload, which
    starts with the name and the CIGAR words.  All values are stored least
    significant byte first. *)

Module BamLayout.
Import BamTools.

Record record_image : Type := mkImage {
  i_refID : Z;
  i_pos : Z;
  i_bin : Z;
  i_mapq : Z;
  i_flag : Z;
  i_query_len : Z;
  i_mate_ref : Z;
  i_mate_pos : Z;
  i_isize : Z;
  (** the name with its terminating NUL *)
  i_name : list Byte.byte;
  (** the CIGAR operations: code of the operation and length *)
  i_cigar : list (Z * Z);
  (** bases, qualities and tags *)
  i_rest : list Byte.byte
}.

Definition cigar_bytes (ops : list (Z * Z)) : list Byte.byte :=
  concat ((fun op => TestData.le_bytes (op.2 * 16 + op.1)) <$> ops).

Definition payload (d : record_image) : list Byte.byte :=
  i_name d ++ cigar_bytes (i_cigar d) ++ i_rest d.

Definition block_length (d : record_image) : Z :=
  32 + Z.of_nat (length (payload d)).

Definition encode (d : record_image) : list Byte.byte :=
  TestData.le_bytes (block_length d)
  ++ TestData.le_bytes (i_refID d)
  ++ TestData.le_bytes (i_pos d)
  ++ TestData.le_bytes
       (i_bin d * 65536 + i_mapq d * 256 + Z.of_nat (length (i_name d)))
  ++ TestData.le_bytes (i_flag d * 65536 + Z.of_nat (length (i_cigar d)))
  ++ TestData.le_bytes (i_query_len d)
  ++ TestData.le_bytes (i_mate_ref d)
  ++ TestData.le_bytes (i_mate_pos d)
  ++ TestData.le_bytes (i_isize d)
  ++ payload d.

Definition int32 (z : Z) : Prop := - 2 ^ 31 <= z < 2 ^ 31.

(** The values fit their fields. *)
Definition well_formed (d : record_image) : Prop :=
  int32 (i_refID d) /\ int32 (i_pos d)
  /\ 0 <= i_bin d < 65536 /\ 0 <= i_mapq d < 256 /\ 0 <= i_flag d < 65536
  /\ 0 <= i_query_len d < 2 ^ 32
  /\ int32 (i_mate_ref d) /\ int32 (i_mate_pos d) /\ int32 (i_isize d)
  /\ Z.of_nat (length (i_name d)) < 256
  /\ Z.of_nat (length (i_cigar d)) < 65536
  /\ Forall (fun op => 0 <= op.1 < 9 /\ 0 <= op.2 < 2 ^ 28) (i_cigar d)
  /\ block_length d < 2 ^ 32.

(** The alignment that the image describes, in core-only form; name, bases
    and qualities are those of the alignment that is loaded into. *)
Definition decoded (d : record_image) (al : BamAlignment) : BamAlignment :=
  mkBamAlignment (Name al) (QueryBases al) (Qualities al)
    (i_refID d) (i_pos d) (i_bin d) (i_mapq d) (i_flag d)
    ((fun op => mkCigarOp (BAM_CIGAR_LOOKUP op.1) op.2) <$> i_cigar d)
    (i_mate_ref d) (i_mate_pos d) (i_isize d)
    (mkSupportData (payload d) (block_length d)
       (Z.of_nat (length (i_cigar d))) (Z.of_nat (length (i_name d)))
       (i_query_len d) true).

End BamLayout.


(** ** The sorter: notions used in the further properties *)

Module SorterNotions.
Import BamTools ReadSorter.

(** [a] does not come after [b] in the order of [Sort::ByPosition]. *)
Definition not_after (a b : BamAlignment) : Prop :=
  Sort.ByPosition b a = false.

(** The same for the elements of the merge queue. *)
Definition element_not_after (x y : SortedMergeElement) : Prop :=
  not_after (read x) (read y).

(** The name of the temp file of run [k]. *)
Definition temp_name (s : ReadSorter.t) (k : Z) : string :=
  tmp_file_dir s +:+ m_tempFilenameStub s +:+ pretty k.

(** Every reader that still has records has a record in the queue. *)
Definition all_queued (reads : list SortedMergeElement)
    (readers : list (list BamAlignment)) : Prop :=
  forall (i : nat) (rest : list BamAlignment),
    readers !! i = Some rest -> rest <> [] ->
    exists el, el ∈ reads /\ source_reader el = i.

(** The same for the readers in front of reader [k]: the state of the first
    loop when it comes to reader [k]. *)
Definition queued_below (k : nat) (reads : list SortedMergeElement)
    (readers : list (list BamAlignment)) : Prop :=
  forall (i : nat) (rest : list BamAlignment),
    (i < k)%nat -> readers !! i = Some rest -> rest <> [] ->
    exists el, el ∈ reads /\ source_reader el = i.

(** No record in the queue comes after a record that its reader still
    holds. *)
Definition heads_first (reads : list SortedMergeElement)
    (readers : list (list BamAlignment)) : Prop :=
  forall (el : SortedMergeElement) (rest : list BamAlignment),
    el ∈ reads -> readers !! source_reader el = Some rest ->
    Forall (not_after (read el)) rest.

(** The queue is in order, every run is in order, and the queue holds the
    heads. *)
Definition merge_ready (reads : list SortedMergeElement)
    (readers : list (list BamAlignment)) : Prop :=
  StronglySorted element_not_after reads
  /\ Forall (StronglySorted not_after) readers
  /\ heads_first reads readers.

(** The comparator that [SortBuffer] uses. *)
Definition comparator (o : sort_order_t) : BamAlignment -> BamAlignment -> bool :=
  match o with
  | SORT_NAME => Sort.ByName
  | SORT_POSITION => Sort.ByPosition
  end.

(** The temp directory once every job of the thread pool has run. *)
Definition settled_disk (s : ReadSorter.t) : gmap string (list BamAlignment) :=
  fold_left
    (fun d job => <[job_filename job := SortBuffer s (job_buffer job)]> d)
    (thread_pool s) (disk s).

(** The temp files of consecutive runs, the first of which has number
    [n0]: the name and the content of each. *)
Definition run_files (s : ReadSorter.t) (n0 : Z)
    (runs : list (list BamAlignment)) : list (string * list BamAlignment) :=
  imap (fun i run => (temp_name s (n0 + Z.of_nat i), SortBuffer s run)) runs.

Definition write_files (files : list (string * list BamAlignment))
    (d : gmap string (list BamAlignment)) : gmap string (list BamAlignment) :=
  fold_left (fun d p => <[p.1 := p.2]> d) files d.

(** [s'] is [s] after the runs [runs] have been spilled (their jobs may be
    waiting in the thread pool). *)
Definition spilled (s s' : ReadSorter.t) (runs : list (list BamAlignment))
    : Prop :=
  sort_order s' = sort_order s /\ nothreads s' = nothreads s
  /\ alignments_per_tempfile s' = alignments_per_tempfile s
  /\ tmp_file_dir s' = tmp_file_dir s
  /\ m_tempFilenameStub s' = m_tempFilenameStub s
  /\ m_header_SortOrder s' = m_header_SortOrder s
  /\ sort_retval s' = sort_retval s /\ merge_retval s' = merge_retval s
  /\ sink s' = sink s /\ cerr s' = cerr s
  /\ m_numberOfRuns s' = m_numberOfRuns s + Z.of_nat (length runs)
  /\ m_tempFilenames s'
     = m_tempFilenames s ++ (run_files s (m_numberOfRuns s) runs).*1
  /\ settled_disk s'
     = write_files (run_files s (m_numberOfRuns s) runs) (settled_disk s)
  /\ (nothreads s' = true -> thread_pool s' = []).

End SorterNotions.

(** ** The FASTQ writer: notions used in the further properties *)

Module FastqNotions.
Import BamTools FastqWriter.

(** The entry of an alignment that is written as it is. *)
Definition plain_entry (BuildCharData : BamAlignment -> BamAlignment)
    (a : BamAlignment) : string :=
  fastq_entry (Name (BuildCharData a)) (QueryBases (BuildCharData a))
    (Qualities (BuildCharData a)).

(** The three files are closed and in good state, and the pointers are
    where [Open] on a name other than "stdout" puts them: the writer after
    [Open] and [Close]. *)
Definition closed_files (w : FastqWriter.t) : Prop :=
  fwd_stream w = to_fwd_file /\ rev_stream w = to_rev_file
  /\ orphan_stream w = to_orphan_file
  /\ is_open (fwd_file w) = false /\ is_open (rev_file w) = false
  /\ is_open (orphan_file w) = false.

End FastqNotions.

(** ** Further test data *)

Module Scenarios.
Import BamTools.

(** A worker that sleeps in its throttle because the load is high, with
    401 records queued. *)
Definition sleeping_worker : Prefetch.system RegionController.t :=
  Prefetch.mkSystem
    (BamReaderPrivate.set_prefetch_alignments
       (repeat (Some newBamAlignment) 401)
       (TestData.prefetching_reader 0))
    (Prefetch.Sleeping 100) 600 [].

(** A mapped read with a name, two CIGAR operations (4M 2D) and four more
    bytes. *)
Definition mapped_read : BamLayout.record_image :=
  BamLayout.mkImage 1 100 4681 60 99 4 1 300 250
    [Byte.x72; Byte.x31; Byte.x00] [(0, 4); (2, 2)]
    [Byte.x12; Byte.x48; Byte.xff; Byte.xff].

(** A file with a header of four bytes and two records, and what [Open]
    is given for it. *)
Definition two_records : BamReaderPrivate.open_env :=
  BamReaderPrivate.mkOpenEnv
    (Some (TestData.le_bytes 1 ++ TestData.core_record 0 10
           ++ TestData.core_record 0 20))
    4 [mkRefData "chr1" 1000] true 0 BamReaderPrivate.Closes "".

(** The same file where multithreading is disabled. *)
Definition two_records_unthreaded : BamReaderPrivate.open_env :=
  BamReaderPrivate.mkOpenEnv
    (Some (TestData.le_bytes 1 ++ TestData.core_record 0 10
           ++ TestData.core_record 0 20))
    4 [mkRefData "chr1" 1000] false 0 BamReaderPrivate.Closes "".

(** A reader that is closed while a record waits in its queue. *)
Definition reader_with_queue : BamReaderPrivate.t RegionController.t :=
  BamReaderPrivate.set_prefetch_alignments
    [Some (TestData.named "stale" 0 5)] (TestData.prefetching_reader 0).

(** A sorter before the merge, with two temp files. *)
Definition two_runs : ReadSorter.t :=
  ReadSorter.mkSorter ReadSorter.SORT_POSITION true 2 "/tmp/" "oge_sort_" 2
    ["/tmp/oge_sort_0"; "/tmp/oge_sort_1"]
    ReadSorter.SAM_HD_SORTORDER_COORDINATE true true [] []
    {[ "/tmp/oge_sort_0" := [TestData.named "a" 0 10; TestData.named "b" 0 30];
       "/tmp/oge_sort_1" := [TestData.named "c" 0 20] ]}
    [] [].

(** Three records to sort, two to a temp file. *)
Definition three_records : list BamAlignment :=
  [TestData.named "a" 0 30; TestData.named "b" 0 10; TestData.named "c" 0 20].

End Scenarios.


(** * Properties *)

(** ** The reader *)

Section ReaderFacts.
Import BamTools BamReaderPrivate.
Context {C : Type} `{RandomAccessController C}.

Lemma to_int_id (z : Z) : - 2 ^ 31 <= z <= INT_MAX -> to_int z = z.
Proof.
  unfold to_int, INT_MAX. intros Hz.
  rewrite Z.mod_small by lia. lia.
Qed.

Lemma find_distance_range (names : list string) (n : string) :
  0 <= find_distance names n <= Z.of_nat (length names).
Proof.
  induction names as [|m names IH]; simpl; [lia|].
  destruct (String.eqb m n); lia.
Qed.

(** [find_distance] stops at the first name that is equal. *)
Lemma find_distance_first (names : list string) (n : string) (i : nat) :
  names !! i = Some n ->
  (forall j m, (j < i)%nat -> names !! j = Some m -> m <> n) ->
  find_distance names n = Z.of_nat i.
Proof.
  revert i. induction names as [|m names IH]; intros i Hi Hfirst; [done|].
  simpl. destruct (String.eqb m n) eqn:E.
  - apply String.eqb_eq in E. destruct i as [|i]; [done|].
    exfalso. apply (Hfirst 0%nat m); [lia|done|done].
  - destruct i as [|i].
    + simpl in Hi. injection Hi as ->. rewrite String.eqb_refl in E. done.
    + rewrite (IH i); [lia|done|].
      intros j m' Hj Hm'. apply (Hfirst (S j) m'); [lia|done].
Qed.

(** Without an equal name [find_distance] is the length of the list. *)
Lemma find_distance_absent (names : list string) (n : string) :
  (forall m, m ∈ names -> m <> n) ->
  find_distance names n = Z.of_nat (length names).
Proof.
  induction names as [|m names IH]; intros Habs; [done|].
  simpl. destruct (String.eqb m n) eqn:E.
  - apply String.eqb_eq in E. exfalso. apply (Habs m); [left|done].
  - rewrite IH; [lia|]. intros m' Hm'. apply Habs. by right.
Qed.

(** C9.  [GetReferenceID] returns the zero-based index of the first
    reference with the given name, and -1, not the size of the list, when no
    reference has that name.  The index is held in an [int]; a reference list
    that [Open] has loaded has at most [INT_MAX] entries (its announced size
    goes through [(int)] into [reserve]). *)
Theorem C9_GetReferenceID_index_or_minus_one
    (r : BamReaderPrivate.t C) (refName : string) :
  Z.of_nat (length (m_references r)) <= INT_MAX ->
  (forall (i : nat) (ref : RefData),
      m_references r !! i = Some ref ->
      RefName ref = refName ->
      (forall (j : nat) (other : RefData),
          (j < i)%nat -> m_references r !! j = Some other ->
          RefName other <> refName) ->
      GetReferenceID r refName = Z.of_nat i)
  /\ ((forall ref : RefData, ref ∈ m_references r -> RefName ref <> refName) ->
      GetReferenceID r refName = -1).
Proof.
  intros Hsize. unfold GetReferenceID. split.
  - intros i ref Hi Hname Hfirst.
    assert (Hlt : (i < length (m_references r))%nat)
      by (eapply lookup_lt_Some; eauto).
    rewrite (find_distance_first _ _ i).
    + rewrite !to_int_id by (unfold INT_MAX in *; lia).
      rewrite bool_decide_eq_false_2 by lia. done.
    + rewrite list_lookup_fmap, Hi. simpl. by rewrite Hname.
    + intros j m Hj Hm. rewrite list_lookup_fmap in Hm.
      destruct (m_references r !! j) as [other|] eqn:Ej; [|done].
      simpl in Hm. injection Hm as <-. by eapply Hfirst.
  - intros Habs. rewrite find_distance_absent.
    + rewrite length_fmap. by rewrite bool_decide_eq_true_2.
    + intros m Hm. apply list_elem_of_fmap in Hm as (ref & -> & Hin).
      by apply Habs.
Qed.

(** *** Stopping the worker *)

Lemma StopPrefetch_pthread_calls (join_result : Z) (r : BamReaderPrivate.t C) :
  pthread_calls (StopPrefetch join_result r) = pthread_calls r.
Proof. unfold StopPrefetch. by destruct (do_prefetch r). Qed.

Lemma StopPrefetch_do_prefetch (join_result : Z) (r : BamReaderPrivate.t C) :
  do_prefetch (StopPrefetch join_result r) = false.
Proof. unfold StopPrefetch. by destruct (do_prefetch r) eqn:E. Qed.

Lemma Seek_pthread_calls (join_result : Z) (streamError : string)
    (position : Z) (r : BamReaderPrivate.t C) :
  pthread_calls (Seek join_result streamError position r).2 = pthread_calls r.
Proof.
  unfold Seek. destruct (IsOpen (m_stream r)); simpl; [|done].
  destruct (StreamSeek _ _); simpl; apply StopPrefetch_pthread_calls.
Qed.

(** C2.  [StopPrefetch] clears [do_prefetch], but it never calls
    [pthread_join]: the flag is cleared before it is tested in
    [do_prefetch && 0 != pthread_join(...)], so the call is skipped.  Neither
    [StopPrefetch] nor [Close], [Seek] and [Rewind], which rely on it, add a
    call to the thread library, whatever the state of the reader; a worker
    that was started is not joined. *)
Theorem C2_StopPrefetch_never_joins
    (join_result position : Z) (closing : close_outcome)
    (streamError : string) (r : BamReaderPrivate.t C) :
  do_prefetch (StopPrefetch join_result r) = false
  /\ pthread_calls (StopPrefetch join_result r) = pthread_calls r
  /\ pthread_calls (Close join_result closing r).2 = pthread_calls r
  /\ pthread_calls (Seek join_result streamError position r).2
     = pthread_calls r
  /\ pthread_calls (Rewind join_result streamError r).2 = pthread_calls r.
Proof.
  split; [apply StopPrefetch_do_prefetch|].
  split; [apply StopPrefetch_pthread_calls|].
  split; [|split].
  - unfold Close. simpl.
    destruct (IsOpen _); [destruct closing|]; simpl;
      apply StopPrefetch_pthread_calls.
  - apply Seek_pthread_calls.
  - unfold Rewind.
    destruct (Seek _ _ _ _) as [ok r'] eqn:E.
    assert (Hr' : pthread_calls r' = pthread_calls r).
    { change r' with (ok, r').2. rewrite <- E, Seek_pthread_calls. simpl.
      apply StopPrefetch_pthread_calls. }
    by destruct ok.
Qed.

(** *** Decoding *)

Lemma byte_val_zero (b : Byte.byte) : byte_val b = 0 -> b = Byte.x00.
Proof. destruct b; (reflexivity || discriminate). Qed.

Lemma le32_zero (b0 b1 b2 b3 : Byte.byte) :
  le32 b0 b1 b2 b3 = 0 ->
  b0 = Byte.x00 /\ b1 = Byte.x00 /\ b2 = Byte.x00 /\ b3 = Byte.x00.
Proof.
  unfold le32. rewrite !Z.lor_eq_0_iff, !Z.shiftl_eq_0_iff by lia.
  intros (H0 & H1 & H2 & H3). repeat split; by apply byte_val_zero.
Qed.


(** C6.  At a block length of zero, and at the end of the file,
    [LoadNextAlignmentInternal] returns false in the same way: the alignment
    is not touched, nothing is printed and no error is recorded, and the
    stream has moved past the block-length field only (by nothing at the end
    of the file). *)
Theorem C6_zero_block_length_ends_stream
    (junk : nat -> Byte.byte) (r : BamReaderPrivate.t C)
    (alignment : BamAlignment) :
  at_end_of_file r \/ at_zero_block_length r ->
  exists r',
    LoadNextAlignmentInternal junk r alignment = (false, alignment, r')
    /\ r' = set_stream (Read 4 (m_stream r)).2 r
    /\ unread (m_stream r') = drop 4 (unread (m_stream r))
    /\ cerr r' = cerr r
    /\ m_errorString r' = m_errorString r
    /\ (at_end_of_file r -> r' = r).
Proof.
  intros Hcase.
  assert (Heof : at_end_of_file r -> set_stream (Read 4 (m_stream r)).2 r = r).
  { unfold at_end_of_file. intros Hnil.
    destruct r as [s ? ? ? ? ? ? ? ? ? ? ?]. destruct s as [o d u p].
    simpl in *. subst u. unfold set_stream, Read. simpl.
    by rewrite Z.add_0_r. }
  exists (set_stream (Read 4 (m_stream r)).2 r).
  split; [|by repeat split].
  destruct Hcase as [Hnil | (b0 & b1 & b2 & b3 & rest & Hbytes & Hzero)].
  - rewrite Heof by done. unfold at_end_of_file in Hnil.
    unfold LoadNextAlignmentInternal, Read. by rewrite Hnil.
  - apply le32_zero in Hzero as (-> & -> & -> & ->).
    unfold LoadNextAlignmentInternal, Read. rewrite Hbytes. simpl.
    by destruct (m_isBigEndian r).
Qed.

(** *** Reading under a region *)

Lemma Read_unread_length (n : Z) (s : BgzfStream) :
  (length (unread (Read n s).2) <= length (unread s))%nat.
Proof. unfold Read. simpl. rewrite length_drop. lia. Qed.

(** What [LoadNextAlignmentInternal] leaves alone, and that a successful
    load consumes bytes. *)
Lemma LoadNextAlignmentInternal_frame (junk : nat -> Byte.byte)
    (r r' : BamReaderPrivate.t C) (al al' : BamAlignment) (ok : bool) :
  LoadNextAlignmentInternal junk r al = (ok, al', r') ->
  m_randomAccessController r' = m_randomAccessController r
  /\ IsOpen (m_stream r') = IsOpen (m_stream r)
  /\ do_prefetch r' = do_prefetch r
  /\ prefetch_alignments r' = prefetch_alignments r
  /\ (length (unread (m_stream r')) <= length (unread (m_stream r)))%nat
  /\ (ok = true ->
      (length (unread (m_stream r')) < length (unread (m_stream r)))%nat).
Proof.
  unfold LoadNextAlignmentInternal.
  destruct (Read 4 (m_stream r)) as [got s1] eqn:E1.
  assert (Hs1 : s1 = (Read 4 (m_stream r)).2) by (by rewrite E1).
  assert (Hgot : got = take 4 (unread (m_stream r)))
    by (unfold Read in E1; by injection E1 as <- _).
  case_bool_decide as Hlen.
  { intros [= <- <- <-]. repeat split; (done || lia). }
  assert (Hlt : (length (unread s1) < length (unread (m_stream r)))%nat).
  { subst s1 got. unfold Read. simpl. rewrite length_drop.
    rewrite length_take in Hlen. lia. }
  assert (Hopen1 : IsOpen s1 = IsOpen (m_stream r)) by (by subst s1).
  case_bool_decide as Hzero.
  { intros [= <- <- <-]. simpl. repeat split; (done || lia). }
  simpl.
  destruct (Read BAM_CORE_SIZE s1) as [x s2] eqn:E2.
  assert (Hs2 : s2 = (Read BAM_CORE_SIZE s1).2) by (by rewrite E2).
  assert (Hle2 : (length (unread s2) <= length (unread s1))%nat)
    by (subst s2; apply Read_unread_length).
  assert (Hopen2 : IsOpen s2 = IsOpen s1) by (by subst s2).
  simpl. case_bool_decide as Hcore.
  { intros [= <- <- <-]. simpl. repeat split; rewrite ?length_drop; (done || congruence || lia). }
  simpl. case_bool_decide as Hdata.
  - intros [= <- <- <-]. simpl. repeat split; rewrite ?length_drop; (done || congruence || lia).
  - intros [= <- <- <-]. simpl. repeat split; rewrite ?length_drop; (done || congruence || lia).
Qed.

Lemma LoadNextAlignment_frame (junk : nat -> Byte.byte)
    (r r' : BamReaderPrivate.t C) (al al' : BamAlignment) (ok : bool) :
  LoadNextAlignment junk r al = Loaded ok al' r' ->
  m_randomAccessController r' = m_randomAccessController r
  /\ IsOpen (m_stream r') = IsOpen (m_stream r)
  /\ (records_left r' <= records_left r)%nat
  /\ (ok = true -> (records_left r' < records_left r)%nat).
Proof.
  unfold LoadNextAlignment, records_left.
  destruct (do_prefetch r) eqn:Epre.
  - destruct (prefetch_alignments r) as [|[a|] rest] eqn:Eq; [done| |];
      intros [= <- <- <-]; simpl; repeat split; (done || lia).
  - destruct (LoadNextAlignmentInternal junk r al) as [[ok1 al1] r1] eqn:E.
    intros [= <- <- <-].
    apply LoadNextAlignmentInternal_frame in E
      as (Hc & Ho & _ & Hq & Hle & Hlt).
    rewrite Hq. repeat split; [done|done|lia|].
    intros Hok. specialize (Hlt Hok). lia.
Qed.

(** More iterations than needed do not change the result of the loop. *)
Lemma read_until_overlap_mono (junk : nat -> Byte.byte) (fuel : nat) :
  forall (state : RegionState) (r : BamReaderPrivate.t C) (al : BamAlignment)
         (res : load_result C),
    read_until_overlap junk fuel state r al = Some res ->
    read_until_overlap junk (S fuel) state r al = Some res.
Proof.
  induction fuel as [|fuel IH]; intros state r al res.
  - simpl. by destruct (is_overlap state).
  - intros Hrun. simpl in Hrun. cbn [read_until_overlap].
    destruct (is_overlap state); [done|].
    destruct (LoadNextAlignment junk r al) as [[|] a1 r1|]; [|done|done].
    destruct (is_after (AlignmentState (m_randomAccessController r1) a1));
      [done|].
    by apply IH.
Qed.

Lemma read_until_overlap_mono_le (junk : nat -> Byte.byte) (f1 f2 : nat)
    (state : RegionState) (r : BamReaderPrivate.t C) (al : BamAlignment)
    (res : load_result C) :
  (f1 <= f2)%nat ->
  read_until_overlap junk f1 state r al = Some res ->
  read_until_overlap junk f2 state r al = Some res.
Proof.
  induction 1 as [|f2 _ IH]; [done|].
  intros Hrun. by apply read_until_overlap_mono, IH.
Qed.

(** The loop ends within as many iterations as records are left, plus one
    for the load that fails. *)
Lemma read_until_overlap_total (junk : nat -> Byte.byte) (fuel : nat) :
  forall (state : RegionState) (r : BamReaderPrivate.t C) (al : BamAlignment),
    (records_left r < fuel)%nat ->
    is_Some (read_until_overlap junk fuel state r al).
Proof.
  induction fuel as [|fuel IH]; intros state r al Hfuel; [lia|].
  simpl. destruct (is_overlap state); [by eexists|].
  destruct (LoadNextAlignment junk r al) as [[|] a1 r1|] eqn:E;
    [|by eexists|by eexists].
  destruct (is_after _); [by eexists|].
  apply IH. apply LoadNextAlignment_frame in E as (_ & _ & _ & Hlt).
  specialize (Hlt eq_refl). lia.
Qed.

Lemma read_until_overlap_fuel (junk : nat -> Byte.byte) (f1 f2 : nat)
    (state : RegionState) (r : BamReaderPrivate.t C) (al : BamAlignment) :
  (records_left r < f1)%nat -> (records_left r < f2)%nat ->
  read_until_overlap junk f1 state r al = read_until_overlap junk f2 state r al.
Proof.
  intros H1 H2.
  destruct (read_until_overlap_total junk f1 state r al H1) as [res1 E1].
  destruct (read_until_overlap_total junk f2 state r al H2) as [res2 E2].
  destruct (Nat.le_ge_cases f1 f2) as [Hle|Hle].
  - rewrite (read_until_overlap_mono_le junk f1 f2 _ _ _ res1 Hle E1). done.
  - pose proof (read_until_overlap_mono_le junk f2 f1 _ _ _ res2 Hle E2) as E.
    congruence.
Qed.

Lemma read_until_overlap_found (junk : nat -> Byte.byte) (fuel : nat)
    (r : BamReaderPrivate.t C) (al : BamAlignment) :
  read_until_overlap junk fuel OverlapsRegion r al = Some (Loaded true al r).
Proof. by destruct fuel. Qed.

(** C7.  With a region set, [GetNextAlignment] always produces a result,
    and it handles each record it decodes by its state: a record before the
    region is skipped (the call goes on as a call on the reader after that
    record), a record that overlaps is returned, and at a record after the
    region the call fails with the reader as it is right after that record,
    no further record being read.  It also fails when no record can be
    loaded, and, without decoding anything, when the stream is not open or
    the region is known to have no alignments. *)
Theorem C7_GetNextAlignment_region_filter
    (junk : nat -> Byte.byte) (r : BamReaderPrivate.t C)
    (alignment : BamAlignment) :
  HasRegion (m_randomAccessController r) = true ->
  is_Some (GetNextAlignment junk r alignment)
  /\ GetNextAlignment junk r alignment =
     if negb (IsOpen (m_stream r))
        || negb (RegionHasAlignments (m_randomAccessController r))
     then Some (Loaded false alignment r)
     else
       match LoadNextAlignment junk r alignment with
       | Polling => Some Polling
       | Loaded false a1 r1 => Some (Loaded false a1 r1)
       | Loaded true a1 r1 =>
           match AlignmentState (m_randomAccessController r1) a1 with
           | BeforeRegion => GetNextAlignment junk r1 a1
           | OverlapsRegion => Some (Loaded true a1 r1)
           | AfterRegion => Some (Loaded false a1 r1)
           end
       end.
Proof.
  intros Hregion.
  unfold GetNextAlignment at 1 2, GetNextAlignment_bounded.
  rewrite Hregion.
  destruct (IsOpen (m_stream r)) eqn:Hopen; simpl;
    [|split; [by eexists|done]].
  destruct (RegionHasAlignments (m_randomAccessController r)) eqn:Hhas; simpl;
    [|split; [by eexists|done]].
  destruct (LoadNextAlignment junk r alignment) as [[|] a1 r1|] eqn:E;
    [|split; [by eexists|done]|split; [by eexists|done]].
  apply LoadNextAlignment_frame in E as (Hc & Ho & _ & Hlt).
  specialize (Hlt eq_refl).
  destruct (AlignmentState (m_randomAccessController r1) a1) eqn:Est; simpl;
    [|rewrite read_until_overlap_found; split; [by eexists|done]
     |split; [by eexists|done]].
  (* the record is before the region: the loop loads the next one *)
  assert (Hloop :
    read_until_overlap junk (records_left r) BeforeRegion r1 a1
    = GetNextAlignment junk r1 a1).
  { unfold GetNextAlignment, GetNextAlignment_bounded.
    rewrite Ho, Hopen, Hc, Hregion, Hhas. simpl.
    destruct (records_left r) as [|fuel] eqn:Efuel; [lia|].
    cbn [read_until_overlap is_overlap].
    destruct (LoadNextAlignment junk r1 a1) as [[|] a2 r2|] eqn:E2;
      [|done|done].
    destruct (is_after _); [done|].
    apply LoadNextAlignment_frame in E2 as (_ & _ & _ & Hlt2).
    specialize (Hlt2 eq_refl).
    apply read_until_overlap_fuel; lia. }
  split; [|done].
  apply read_until_overlap_total. done.
Qed.

End ReaderFacts.

(** ** The prefetch worker *)

Section PrefetchFacts.
Import BamTools BamReaderPrivate Prefetch.
Context {C : Type} `{RandomAccessController C}.
Variable junk : nat -> Byte.byte.

(** Decoding looks at the stream and at the byte order of the host only. *)
Lemma LoadNextAlignmentInternal_local (r1 r2 : BamReaderPrivate.t C)
    (al : BamAlignment) :
  m_stream r1 = m_stream r2 ->
  m_isBigEndian r1 = m_isBigEndian r2 ->
  (LoadNextAlignmentInternal junk r1 al).1 = (LoadNextAlignmentInternal junk r2 al).1
  /\ m_stream (LoadNextAlignmentInternal junk r1 al).2
     = m_stream (LoadNextAlignmentInternal junk r2 al).2
  /\ m_isBigEndian (LoadNextAlignmentInternal junk r1 al).2 = m_isBigEndian r1
  /\ m_isBigEndian (LoadNextAlignmentInternal junk r2 al).2 = m_isBigEndian r2.
Proof.
  intros Hs Hb. unfold LoadNextAlignmentInternal.
  rewrite <- Hs, <- Hb.
  destruct (Read 4 (m_stream r1)) as [got s1].
  case_bool_decide; [done|]. simpl.
  case_bool_decide; [done|].
  destruct (Read BAM_CORE_SIZE s1) as [x s2]. simpl.
  case_bool_decide; [done|].
  by case_bool_decide.
Qed.

Lemma pushes_bounded_local (fuel : nat) :
  forall r1 r2 : BamReaderPrivate.t C,
    m_stream r1 = m_stream r2 ->
    m_isBigEndian r1 = m_isBigEndian r2 ->
    pushes_bounded junk fuel r1 = pushes_bounded junk fuel r2.
Proof.
  induction fuel as [|fuel IH]; intros r1 r2 Hs Hb; [done|].
  simpl.
  destruct (LoadNextAlignmentInternal_local r1 r2 newBamAlignment Hs Hb)
    as (Hres & Hs' & Hb1 & Hb2).
  destruct (LoadNextAlignmentInternal junk r1 newBamAlignment) as [[ok1 a1] r1'].
  destruct (LoadNextAlignmentInternal junk r2 newBamAlignment) as [[ok2 a2] r2'].
  simpl in *. injection Hres as <- <-.
  destruct ok1; [|done]. f_equal. apply IH; congruence.
Qed.

Lemma pushes_local (r1 r2 : BamReaderPrivate.t C) :
  m_stream r1 = m_stream r2 ->
  m_isBigEndian r1 = m_isBigEndian r2 ->
  pushes junk r1 = pushes junk r2.
Proof.
  intros Hs Hb. unfold pushes. rewrite Hs.
  by apply pushes_bounded_local.
Qed.

(** The bound in [pushes] is high enough: a higher one gives the same
    list. *)
Lemma pushes_bounded_fuel (f1 : nat) :
  forall (f2 : nat) (r : BamReaderPrivate.t C),
    (length (unread (m_stream r)) < f1)%nat ->
    (length (unread (m_stream r)) < f2)%nat ->
    pushes_bounded junk f1 r = pushes_bounded junk f2 r.
Proof.
  induction f1 as [|f1 IH]; intros f2 r H1 H2; [lia|].
  destruct f2 as [|f2]; [lia|]. simpl.
  destruct (LoadNextAlignmentInternal junk r newBamAlignment)
    as [[ok a] r'] eqn:E.
  destruct ok; [|done]. f_equal.
  apply LoadNextAlignmentInternal_frame in E as (_ & _ & _ & _ & _ & Hlt).
  specialize (Hlt eq_refl). apply IH; lia.
Qed.

(** Unfolding [pushes] by one load. *)
Lemma pushes_unfold (r : BamReaderPrivate.t C) :
  pushes junk r =
  let '(ok, al, r') := LoadNextAlignmentInternal junk r newBamAlignment in
  if ok then Some al :: pushes junk r' else [None].
Proof.
  unfold pushes at 1. simpl.
  destruct (LoadNextAlignmentInternal junk r newBamAlignment)
    as [[ok a] r'] eqn:E.
  destruct ok; [|done]. f_equal.
  apply LoadNextAlignmentInternal_frame in E as (_ & _ & _ & _ & _ & Hlt).
  specialize (Hlt eq_refl). unfold pushes. apply pushes_bounded_fuel; lia.
Qed.

(** [pushes] is a list of records closed by exactly one null pointer. *)
Lemma pushes_bounded_shape (fuel : nat) :
  forall r : BamReaderPrivate.t C,
    (length (unread (m_stream r)) < fuel)%nat ->
    exists records : list BamAlignment,
      pushes_bounded junk fuel r = (Some <$> records) ++ [None].
Proof.
  induction fuel as [|fuel IH]; intros r Hfuel; [lia|].
  simpl.
  destruct (LoadNextAlignmentInternal junk r newBamAlignment)
    as [[ok a] r'] eqn:E.
  destruct ok; [|by exists []].
  apply LoadNextAlignmentInternal_frame in E as (_ & _ & _ & _ & _ & Hlt).
  specialize (Hlt eq_refl).
  destruct (IH r') as [records Hrec]; [lia|].
  exists (a :: records). by rewrite Hrec.
Qed.

Lemma pushes_shape (r : BamReaderPrivate.t C) :
  exists records : list BamAlignment,
    pushes junk r = (Some <$> records) ++ [None].
Proof. apply pushes_bounded_shape. lia. Qed.

(** *** The depth of the queue *)

Lemma caller_step_queue (s : system C) :
  queue_size (reader (caller_step junk s)) <= queue_size (reader s)
  /\ pc (caller_step junk s) = pc s
  /\ count (caller_step junk s) = count s.
Proof.
  unfold caller_step, LoadNextAlignment_ptr, queue_size.
  destruct (do_prefetch (reader s)).
  - destruct (prefetch_alignments (reader s)) as [|al rest] eqn:E; simpl;
      [by rewrite E|].
    repeat split; lia.
  - destruct (LoadNextAlignmentInternal junk (reader s) newBamAlignment)
      as [[ok al] r'] eqn:E. simpl.
    apply LoadNextAlignmentInternal_frame in E as (_ & _ & _ & -> & _).
    repeat split; lia.
Qed.

Lemma prefetch_one_queue (s : system C) :
  queue_size (reader (prefetch_one junk s)) <= queue_size (reader s) + 1
  /\ count (prefetch_one junk s) = count s
  /\ (pc (prefetch_one junk s) = AtThrottle \/ pc (prefetch_one junk s) = Finished).
Proof.
  unfold prefetch_one, queue_size.
  destruct (do_prefetch (reader s)); simpl; [|split; [lia|split; [done|by right]]].
  match goal with
  | |- context [LoadNextAlignmentInternal junk ?r0 ?a] =>
      destruct (LoadNextAlignmentInternal junk r0 a) as [[ok al] r'] eqn:E
  end.
  apply LoadNextAlignmentInternal_frame in E as (_ & _ & _ & Hq & _).
  simpl in Hq.
  destruct ok; simpl; rewrite length_app, Hq; simpl;
    (split; [lia|split; [done|]]); [by left|by right].
Qed.

(** One turn keeps the bound, as long as [count++] does not overflow, and
    adds one to [count] at most. *)
Lemma step_within_bound (d0 : Z) (t : turn) (s : system C) :
  within_bound d0 s -> count s < INT_MAX ->
  within_bound d0 (step junk t s) /\ count (step junk t s) <= count s + 1.
Proof.
  unfold within_bound. intros [Hcount Hpc] Hmax.
  assert (Hnext : to_int (count s + 1) = count s + 1)
    by (apply to_int_id; unfold INT_MAX in *; lia).
  assert (Hone : bool_decide (count s + 1 = 0) = false)
    by (apply bool_decide_eq_false_2; lia).
  destruct t as [load_is_high|]; simpl.
  - unfold worker_step. destruct (pc s) as [| |threshold|] eqn:Epc.
    + destruct (prefetch_one_queue s) as (Hq & Hc & [Hp|Hp]);
        rewrite Hc, Hp; (split; [split; [done|]|lia]);
        destruct (bool_decide (count s = 0));
        Z.to_euclidean_division_equations; lia.
    + unfold throttle.
      destruct (decide (count s `rem` 300 = 0)) as [Hrem|Hrem].
      * rewrite (bool_decide_eq_true_2 _ Hrem).
        destruct (load_is_high && bool_decide (queue_size (reader s) > 400));
          simpl.
        { split; [split; [done|]|lia].
          destruct (bool_decide (count s = 0));
            Z.to_euclidean_division_equations; lia. }
        destruct (decide (queue_size (reader s) > 20000)) as [Hdeep|Hdeep].
        { rewrite (bool_decide_eq_true_2 _ Hdeep). simpl.
          split; [split; [done|]|lia].
          destruct (bool_decide (count s = 0));
            Z.to_euclidean_division_equations; lia. }
        rewrite (bool_decide_eq_false_2 _ Hdeep). simpl.
        rewrite Hnext, Hone. split; [split; [lia|]|lia].
        Z.to_euclidean_division_equations. lia.
      * rewrite (bool_decide_eq_false_2 _ Hrem). simpl.
        rewrite Hnext, Hone. split; [split; [lia|]|lia].
        rewrite bool_decide_eq_false_2 in Hpc
          by (intros Hz; by rewrite Hz in Hrem).
        Z.to_euclidean_division_equations. lia.
    + unfold sleep_or_resume.
      destruct (decide (queue_size (reader s) > threshold)) as [Hdeep|Hdeep].
      * rewrite (bool_decide_eq_true_2 _ Hdeep). rewrite Epc.
        split; [done|lia].
      * rewrite (bool_decide_eq_false_2 _ Hdeep). simpl.
        rewrite Hnext, Hone. split; [split; [lia|]|lia].
        Z.to_euclidean_division_equations. lia.
    + rewrite Epc. split; [done|lia].
  - destruct (caller_step_queue s) as (Hq & -> & ->).
    split; [split; [done|]|lia].
    destruct (pc s); try destruct (bool_decide (count s = 0)); lia.
Qed.

Lemma run_within_bound (d0 : Z) (schedule : list turn) :
  forall s : system C,
    within_bound d0 s ->
    count s + Z.of_nat (length schedule) <= INT_MAX ->
    within_bound d0 (run junk schedule s).
Proof.
  induction schedule as [|t schedule IH]; intros s Hs Hlen; [done|].
  simpl in *.
  destruct (step_within_bound d0 t s Hs) as [Hs' Hcount]; [lia|].
  apply IH; [done|lia].
Qed.

Lemma within_bound_depth (d0 : Z) (s : system C) :
  within_bound d0 s -> queue_size (reader s) <= Z.max 20300 (d0 + 1).
Proof.
  unfold within_bound. intros [Hcount Hpc].
  destruct (pc s); try case_bool_decide;
    Z.to_euclidean_division_equations; lia.
Qed.

(** *** The order of the records *)

Lemma step_in_file_order (r0 : BamReaderPrivate.t C) (t : turn)
    (s : system C) :
  in_file_order junk r0 s -> in_file_order junk r0 (step junk t s).
Proof.
  unfold in_file_order, to_come. intros (Hpre & Hbig & Horder).
  destruct t as [load_is_high|]; simpl.
  - unfold worker_step. destruct (pc s) as [| |threshold|] eqn:Epc.
    + (* the worker loads and pushes *)
      unfold prefetch_one. rewrite Hpre. simpl.
      set (r1 := set_prefetch_tell_fail _ (reader s)).
      assert (Hpush : pushes junk (reader s) = pushes junk r1)
        by (by apply pushes_local).
      rewrite Hpush, (pushes_unfold r1) in Horder.
      pose proof (LoadNextAlignmentInternal_local r1 (reader s) newBamAlignment
                    eq_refl eq_refl) as (_ & _ & Hb1 & _).
      destruct (LoadNextAlignmentInternal junk r1 newBamAlignment)
        as [[ok al] r'] eqn:E.
      apply LoadNextAlignmentInternal_frame in E as (_ & _ & Hp & Hq & _).
      simpl in Hp, Hq, Hb1.
      destruct ok; simpl; (split; [congruence|split; [congruence|]]);
        rewrite Hq, <- Horder.
      * rewrite <- !(assoc_L (++)). simpl. do 3 f_equal.
        by apply pushes_local.
      * by rewrite app_nil_r.
    + unfold throttle.
      repeat (case_bool_decide || destruct (_ && _)); simpl; by rewrite ?Epc.
    + unfold sleep_or_resume. case_bool_decide; simpl; by rewrite ?Epc.
    + by rewrite Epc.
  - (* the caller takes the record at the head of the queue *)
    unfold caller_step, LoadNextAlignment_ptr. rewrite Hpre.
    destruct (prefetch_alignments (reader s)) as [|al rest] eqn:Eq; simpl.
    + by rewrite Eq.
    + repeat split; [done|done|].
      rewrite <- Horder, <- !(assoc_L (++)). simpl. do 3 f_equal.
      destruct (pc s); try done; by apply pushes_local.
Qed.

Lemma run_in_file_order (r0 : BamReaderPrivate.t C) (schedule : list turn) :
  forall s : system C,
    in_file_order junk r0 s -> in_file_order junk r0 (run junk schedule s).
Proof.
  induction schedule as [|t schedule IH]; intros s Hs; [done|].
  simpl. apply IH. by apply step_in_file_order.
Qed.

Lemma start_in_file_order (r0 : BamReaderPrivate.t C) :
  do_prefetch r0 = true -> in_file_order junk r0 (start r0).
Proof. intros Hpre. by unfold in_file_order, start, to_come. Qed.

Lemma start_within_bound (r0 : BamReaderPrivate.t C) :
  within_bound (queue_size r0) (start r0).
Proof. unfold within_bound, start. simpl. split; [lia|]. done. Qed.

(** C5 (as amended).  One worker, started with prefetching on, and a caller
    that takes records, in a run of at most [INT_MAX] turns (so that the
    [int] counter of the worker does not overflow).  Whatever the schedule,
    the queue never holds more than 20 300 entries, or one more than it held
    when the worker was started if that is more: [Open] does not empty the
    queue, and the worker adds one entry before it looks at the depth for the
    first time.  The caller receives, in this order, what the queue held at
    the start and the records in file order.  On a queue that is empty at the
    start the bound is 20 300 and the caller receives the records in file
    order.  The throttle runs in one iteration out of 300: when it then finds
    more than 20 000 entries (and the load is not high), the worker pushes
    nothing until the depth is at most 5 000. *)
Theorem C5_queue_depth_bound
    (r0 : BamReaderPrivate.t C) (schedule : list turn) :
  do_prefetch r0 = true ->
  Z.of_nat (length schedule) <= INT_MAX ->
  queue_size (reader (run junk schedule (start r0)))
  <= Z.max 20300 (queue_size r0 + 1)
  /\ returned (run junk schedule (start r0))
     `prefix_of` prefetch_alignments r0 ++ pushes junk r0
  /\ (prefetch_alignments r0 = [] ->
      queue_size (reader (run junk schedule (start r0))) <= 20300
      /\ returned (run junk schedule (start r0)) `prefix_of` pushes junk r0)
  /\ (forall s : system C,
        pc s = AtThrottle -> count s `rem` 300 = 0 ->
        queue_size (reader s) > 20000 ->
        worker_step junk false s
        = mkSystem (reader s) (Sleeping 5000) (count s) (returned s))
  /\ (forall (s : system C) (load_is_high : bool),
        pc s = Sleeping 5000 ->
        if bool_decide (queue_size (reader s) > 5000)
        then worker_step junk load_is_high s = s
        else worker_step junk load_is_high s
             = mkSystem (reader s) AtLoopHead (to_int (count s + 1))
                 (returned s)).
Proof.
  intros Hpre Hlen.
  assert (Hdepth : queue_size (reader (run junk schedule (start r0)))
                   <= Z.max 20300 (queue_size r0 + 1)).
  { apply within_bound_depth, run_within_bound; [apply start_within_bound|].
    simpl. lia. }
  assert (Horder : returned (run junk schedule (start r0))
                   `prefix_of` prefetch_alignments r0 ++ pushes junk r0).
  { destruct (run_in_file_order r0 schedule (start r0)) as (_ & _ & Horder).
    { by apply start_in_file_order. }
    rewrite <- Horder. by eexists. }
  split_and!; [done|done| | |].
  - intros Hq. unfold queue_size in Hdepth at 2.
    rewrite Hq in Hdepth, Horder. simpl in Hdepth, Horder.
    split; [lia|done].
  - intros s Hpc Hrem Hdeep. unfold worker_step, throttle. rewrite Hpc.
    rewrite (bool_decide_eq_true_2 _ Hrem). simpl.
    by rewrite (bool_decide_eq_true_2 _ Hdeep).
  - intros s load_is_high Hpc. unfold worker_step, sleep_or_resume.
    rewrite Hpc. by case_bool_decide.
Qed.

(** *** Calls after the end of the stream *)

(** Without prefetching every call returns, and up to the end of the stream
    the results are the pushes of the worker. *)
Lemma direct_calls (n : nat) :
  forall (r : BamReaderPrivate.t C) (p : worker_pc) (c : Z)
         (got : list (option BamAlignment)),
    do_prefetch r = false ->
    length (returned (run junk (repeat Caller n) (mkSystem r p c got)))
    = (length got + n)%nat
    /\ ((n <= length (pushes junk r))%nat ->
        returned (run junk (repeat Caller n) (mkSystem r p c got))
        = got ++ take n (pushes junk r)).
Proof.
  induction n as [|n IH]; intros r p c got Hpre.
  - simpl. split; [lia|]. by rewrite take_0, app_nil_r.
  - simpl. unfold caller_step, LoadNextAlignment_ptr. simpl. rewrite Hpre.
    rewrite (pushes_unfold r).
    destruct (LoadNextAlignmentInternal junk r newBamAlignment)
      as [[ok al] r'] eqn:E.
    apply LoadNextAlignmentInternal_frame in E as (_ & _ & Hp & _).
    destruct (IH r' p c (got ++ [if ok then Some al else None]))
      as [Hlen Hres]; [congruence|].
    split.
    + rewrite Hlen, length_app. simpl. lia.
    + intros Hn. destruct ok; simpl in *.
      * rewrite Hres by lia. by rewrite <- (assoc_L (++)).
      * by assert (n = 0%nat) as -> by lia.
Qed.

(** C8.  The two modes agree up to and including the end-of-stream result
    and differ after it.  With prefetching on, the caller never gets more
    results than the worker pushes (the records and one null pointer), in
    whatever way the two threads are scheduled: a call after the end of the
    stream polls the empty queue of a worker that has returned.  With
    prefetching off every call returns; the first ones return what the
    worker would have pushed. *)
Theorem C8_no_result_after_end_of_stream_when_prefetching
    (r0 : BamReaderPrivate.t C) (schedule : list turn) (n : nat) :
  do_prefetch r0 = true ->
  prefetch_alignments r0 = [] ->
  returned (run junk schedule (start r0)) `prefix_of` pushes junk r0
  /\ (length (returned (run junk schedule (start r0)))
      <= length (pushes junk r0))%nat
  /\ length (returned (run junk (repeat Caller n)
                         (start (set_do_prefetch false r0)))) = n
  /\ ((n <= length (pushes junk r0))%nat ->
      returned (run junk (repeat Caller n) (start (set_do_prefetch false r0)))
      = take n (pushes junk r0)).
Proof.
  intros Hpre Hq.
  assert (Hprefix :
    returned (run junk schedule (start r0)) `prefix_of` pushes junk r0).
  { destruct (run_in_file_order r0 schedule (start r0)) as (_ & _ & Horder).
    { by apply start_in_file_order. }
    rewrite Hq in Horder. simpl in Horder.
    rewrite <- Horder. by eexists. }
  split; [done|]. split; [by apply prefix_length|].
  destruct (direct_calls n (set_do_prefetch false r0) AtLoopHead 0 [] eq_refl)
    as [Hlen Hres].
  split; [done|].
  intros Hn. rewrite (pushes_local (set_do_prefetch false r0) r0) in Hres
    by done.
  by apply Hres.
Qed.

End PrefetchFacts.

(** *** The worker on its own *)

Section WorkerAlone.
Import BamTools BamReaderPrivate Prefetch TestData.
Context {C : Type} `{RandomAccessController C}.
Variable junk : nat -> Byte.byte.

(** Loading a record of 36 bytes from a little-endian host. *)
Lemma load_core_record (r : BamReaderPrivate.t C) (al : BamAlignment)
    (rest : list Byte.byte) :
  m_isBigEndian r = false ->
  unread (m_stream r) = core_record 0 0 ++ rest ->
  exists (a' : BamAlignment) (r' : BamReaderPrivate.t C),
    LoadNextAlignmentInternal junk r al = (true, a', r')
    /\ unread (m_stream r') = rest
    /\ m_isBigEndian r' = false
    /\ do_prefetch r' = do_prefetch r
    /\ prefetch_alignments r' = prefetch_alignments r.
Proof.
  intros Hbig Hunread.
  destruct (LoadNextAlignmentInternal junk r al) as [[ok a'] r'] eqn:E.
  pose proof (LoadNextAlignmentInternal_frame junk r r' al a' ok E)
    as (_ & _ & Hpre & Hq & _).
  pose proof (LoadNextAlignmentInternal_local junk r r al eq_refl eq_refl)
    as (_ & _ & Hb & _).
  rewrite E in Hb. simpl in Hb.
  pose proof (f_equal (fun x => (x.1.1, unread (m_stream x.2))) E) as E'.
  unfold LoadNextAlignmentInternal, Read in E'.
  rewrite Hbig, Hunread in E'. simpl in E'.
  injection E' as Hok Hrest. subst ok.
  exists a', r'. split_and!; (done || congruence).
Qed.

(** One round of the worker while the throttle lets it pass. *)
Lemma worker_round (s : system C) (rest : list Byte.byte) :
  pc s = AtLoopHead ->
  do_prefetch (reader s) = true ->
  m_isBigEndian (reader s) = false ->
  unread (m_stream (reader s)) = core_record 0 0 ++ rest ->
  (count s `rem` 300 = 0 -> queue_size (reader s) + 1 <= 20000) ->
  0 <= count s < INT_MAX ->
  exists r' : BamReaderPrivate.t C,
    run junk [Worker false; Worker false] s
    = mkSystem r' AtLoopHead (count s + 1) (returned s)
    /\ do_prefetch r' = true
    /\ m_isBigEndian r' = false
    /\ unread (m_stream r') = rest
    /\ queue_size r' = queue_size (reader s) + 1.
Proof.
  intros Hpc Hpre Hbig Hunread Hthrottle Hcount.
  assert (Hnext : to_int (count s + 1) = count s + 1)
    by (apply to_int_id; unfold INT_MAX in *; lia).
  assert (Hfirst : exists r' : BamReaderPrivate.t C,
    worker_step junk false s = mkSystem r' AtThrottle (count s) (returned s)
    /\ do_prefetch r' = true /\ m_isBigEndian r' = false
    /\ unread (m_stream r') = rest
    /\ queue_size r' = queue_size (reader s) + 1).
  { unfold worker_step. rewrite Hpc. unfold prefetch_one. rewrite Hpre.
    simpl.
    set (r1 := set_prefetch_tell_fail _ (reader s)).
    destruct (load_core_record r1 newBamAlignment rest Hbig Hunread)
      as (a' & r' & -> & Hrest & Hbig' & Hpre' & Hq').
    eexists. split; [done|]. simpl. split_and!; try done.
    - by rewrite Hpre'.
    - unfold queue_size. simpl. rewrite length_app, Hq'. simpl. lia. }
  destruct Hfirst as (r' & Hstep & Hpre' & Hbig' & Hrest & Hq).
  exists r'. split; [|done].
  simpl. rewrite Hstep. unfold worker_step, throttle. simpl.
  rewrite Hnext.
  case_bool_decide as Hrem; simpl; [|done].
  rewrite bool_decide_eq_false_2 by (specialize (Hthrottle Hrem); lia).
  done.
Qed.

Lemma run_app (l1 l2 : list turn) (s : system C) :
  run junk (l1 ++ l2) s = run junk l2 (run junk l1 s).
Proof. unfold run. by rewrite fold_left_app. Qed.

(** While fewer than 20 001 records are queued and the caller takes
    nothing, every round adds one. *)
Lemma worker_alone_rounds (k : nat) :
  forall (s : system C) (rest : list Byte.byte),
    pc s = AtLoopHead ->
    do_prefetch (reader s) = true ->
    m_isBigEndian (reader s) = false ->
    unread (m_stream (reader s)) = concat (repeat (core_record 0 0) k) ++ rest ->
    count s = queue_size (reader s) ->
    0 <= count s ->
    count s + Z.of_nat k <= 20001 ->
    queue_size (reader (run junk (worker_alone k) s))
    = queue_size (reader s) + Z.of_nat k.
Proof.
  induction k as [|k IH]; intros s rest Hpc Hpre Hbig Hunread Hcount H0 Hk.
  - simpl. lia.
  - change (worker_alone (S k))
      with ([Worker false; Worker false] ++ worker_alone k).
    rewrite (run_app [Worker false; Worker false]).
    change (concat (repeat (core_record 0 0) (S k)))
      with (core_record 0 0 ++ concat (repeat (core_record 0 0) k))
      in Hunread.
    rewrite <- (assoc_L (++)) in Hunread.
    destruct (worker_round s _ Hpc Hpre Hbig Hunread)
      as (r' & -> & Hpre' & Hbig' & Hrest' & Hq').
    { intros Hrem. rewrite <- Hcount.
      Z.to_euclidean_division_equations. lia. }
    { unfold INT_MAX. lia. }
    rewrite (IH _ rest); simpl; (done || lia).
Qed.

End WorkerAlone.

(** ** The sorter *)

Section SorterFacts.
Import BamTools ReadSorter.

(** *** The merge always ends *)

Lemma multiset_insert_length (el : SortedMergeElement)
    (reads : list SortedMergeElement) :
  length (multiset_insert el reads) = S (length reads).
Proof.
  induction reads as [|y reads IH]; simpl; [done|].
  destruct (SortedMergeElement_lt el y); simpl; by rewrite ?IH.
Qed.

Lemma concat_insert_tail (readers : list (list BamAlignment)) :
  forall (i : nat) (al : BamAlignment) (rest : list BamAlignment),
    readers !! i = Some (al :: rest) ->
    S (length (concat (<[i := rest]> readers))) = length (concat readers).
Proof.
  induction readers as [|x readers IH]; intros i al rest Hi; [done|].
  destruct i as [|i]; simpl in *.
  - injection Hi as ->. simpl. by rewrite !length_app.
  - rewrite !length_app. rewrite <- (IH i al rest Hi). lia.
Qed.

Lemma reader_GetNextAlignment_length (i : nat)
    (readers : list (list BamAlignment)) :
  length (concat (reader_GetNextAlignment i readers).2)
  = (length (concat readers)
     - match (reader_GetNextAlignment i readers).1 with
       | Some _ => 1
       | None => 0
       end)%nat.
Proof.
  unfold reader_GetNextAlignment.
  destruct (readers !! i) as [[|al rest]|] eqn:E; simpl; try lia.
  rewrite <- (concat_insert_tail readers i al rest E). lia.
Qed.

Lemma merge_loop_total (fuel : nat) :
  forall (reads : list SortedMergeElement)
         (readers : list (list BamAlignment)) (output : list BamAlignment),
    (merge_fuel reads readers <= fuel)%nat ->
    is_Some (merge_loop fuel reads readers output).
Proof.
  unfold merge_fuel.
  induction fuel as [|fuel IH]; intros reads readers output Hfuel.
  - destruct reads; [by eexists|simpl in Hfuel; lia].
  - destruct reads as [|el reads]; [by eexists|]. simpl.
    pose proof (reader_GetNextAlignment_length (source_reader el) readers) as Hlen.
    destruct (reader_GetNextAlignment (source_reader el) readers)
      as [[al|] readers'] eqn:E; simpl in *; apply IH.
    + destruct (readers !! source_reader el) as [[|al' rest]|] eqn:Er;
        unfold reader_GetNextAlignment in E; rewrite Er in E; try done.
      pose proof (concat_insert_tail readers _ al' rest Er).
      rewrite multiset_insert_length. lia.
    + lia.
Qed.

Lemma merge_readers_total (readers : list (list BamAlignment)) :
  is_Some (merge_readers readers).
Proof.
  unfold merge_readers.
  destruct (seed_reads (length readers) 0 readers []) as [reads readers'].
  by apply merge_loop_total.
Qed.

(** *** The result flags *)


Lemma same_flags_refl (s : ReadSorter.t) : same_flags s s.
Proof. done. Qed.

Lemma same_flags_trans (s1 s2 s3 : ReadSorter.t) :
  same_flags s1 s2 -> same_flags s2 s3 -> same_flags s1 s3.
Proof. unfold same_flags. intros [] []. split; congruence. Qed.

Lemma WriteTempFile_flags (can_create : string -> bool)
    (buffer : list BamAlignment) (f : string) (s : ReadSorter.t) :
  same_flags s (WriteTempFile can_create buffer f s).2.
Proof. unfold WriteTempFile. by destruct (negb (can_create f)). Qed.

Lemma runJob_flags (can_create : string -> bool) (job : TempFileWriteJob)
    (s : ReadSorter.t) :
  same_flags s (runJob can_create job s).
Proof.
  unfold runJob.
  pose proof (WriteTempFile_flags can_create (SortBuffer s (job_buffer job))
                (job_filename job) s) as Hw.
  destruct (WriteTempFile _ _ _ s) as [[|] s']; simpl in *; [done|].
  eapply same_flags_trans; [exact Hw|done].
Qed.

Lemma run_jobs_flags (can_create : string -> bool)
    (jobs : list TempFileWriteJob) :
  forall s : ReadSorter.t,
    same_flags s (fold_left (fun s job => runJob can_create job s) jobs s).
Proof.
  induction jobs as [|job jobs IH]; intros s; [done|]. simpl.
  eapply same_flags_trans; [apply runJob_flags|apply IH].
Qed.

Lemma CreateSortedTempFile_flags (can_create : string -> bool)
    (buffer : list BamAlignment) (s : ReadSorter.t) :
  same_flags s (CreateSortedTempFile can_create buffer s).2.
Proof.
  unfold CreateSortedTempFile. simpl.
  destruct (nothreads s); [|done].
  match goal with
  | |- same_flags _ (WriteTempFile ?c ?b ?f ?s').2 =>
      eapply same_flags_trans; [|apply (WriteTempFile_flags c b f s')]
  end.
  done.
Qed.

Lemma fill_buffers_flags (can_create : string -> bool)
    (input : list BamAlignment) :
  forall (buffer : list BamAlignment) (s : ReadSorter.t),
    same_flags s (fill_buffers can_create input buffer s).2.
Proof.
  induction input as [|al input IH]; intros buffer s; [done|]. simpl.
  destruct (negb _); [apply IH|].
  eapply same_flags_trans; [apply CreateSortedTempFile_flags|apply IH].
Qed.

Lemma GenerateSortedRuns_flags (can_create : string -> bool)
    (s : ReadSorter.t) :
  (GenerateSortedRuns can_create s).1 = true
  /\ same_flags s (GenerateSortedRuns can_create s).2.
Proof.
  unfold GenerateSortedRuns.
  set (s0 := set_header_SortOrder _ s).
  assert (Hfill : same_flags s (fill_buffers can_create (source s0) [] s0).2).
  { eapply same_flags_trans; [|apply fill_buffers_flags]. done. }
  destruct (sort_order s0);
    destruct (fill_buffers can_create (source s0) [] s0) as [buffer s1];
    simpl in *.
  all: split; [done|].
  all: set (s2 := match buffer with
                  | [] => s1
                  | _ :: _ => (CreateSortedTempFile can_create buffer s1).2
                  end).
  all: assert (H2 : same_flags s s2)
    by (subst s2; destruct buffer; [done|];
        eapply same_flags_trans; [exact Hfill|];
        apply CreateSortedTempFile_flags).
  all: destruct (negb (nothreads s2)); [|done].
  all: eapply same_flags_trans; [exact H2|].
  all: unfold waitForJobCompletion.
  all: eapply same_flags_trans; [|apply run_jobs_flags]; done.
Qed.

Lemma MergeSortedRuns_flags (s : ReadSorter.t) :
  match MergeSortedRuns s with
  | Exited code => code = -1
  | Returned (_, s') => same_flags s s'
  end.
Proof. unfold MergeSortedRuns. by destruct (open_readers _ _). Qed.

(** The value [Run] returns is fixed before any run is spilled. *)
Lemma Run_result (can_create : string -> bool) (s : ReadSorter.t) :
  match Run can_create s with
  | Exited code => code = -1
  | Returned (ok, _) => ok = sort_retval s && merge_retval s
  end.
Proof.
  unfold Run, RunSort.
  set (s0 := set_header_SortOrder _ s).
  destruct (GenerateSortedRuns_flags can_create s0) as [Hgen Hflags].
  destruct (GenerateSortedRuns can_create s0) as [generated s1].
  simpl in *. subst generated.
  pose proof (MergeSortedRuns_flags s1) as Hmerge.
  destruct (MergeSortedRuns s1) as [[ok s2]|code]; [|done].
  destruct Hflags as [Hs1 Hm1], Hmerge as [Hs2 Hm2]. simpl in *.
  congruence.
Qed.


(** C1.  The merge orders its queue by position whatever the sort order:
    [SortedMergeElement::operator<] is [Sort::ByPosition], while
    [SortBuffer] chooses the comparator by [sort_order].  Sorting
    ["a" at 200; "b" at 100] by name with one record per temp file gives two
    runs, each sorted by name; the merge emits "b" before "a", although "a"
    precedes "b" in [ByName] order.  This is so with and without threads. *)
Theorem C1_merge_orders_by_position_when_sorting_by_name :
  let input := [TestData.named "a" 0 200; TestData.named "b" 0 100] in
  names_written
    (Run (fun _ => true) (TestData.sorter SORT_NAME true 1 input ∅))
  = Some (true, ["b"; "a"])
  /\ names_written
       (Run (fun _ => true) (TestData.sorter SORT_NAME false 1 input ∅))
     = Some (true, ["b"; "a"])
  /\ Sort.ByName (TestData.named "a" 0 200) (TestData.named "b" 0 100) = true
  /\ Sort.ByName (TestData.named "b" 0 100) (TestData.named "a" 0 200) = false.
Proof. vm_compute. done. Qed.

(** C3.  [Run] returns [sort_retval && merge_retval], and nothing assigns
    the two flags: the result of [RunSort] is dropped, [GenerateSortedRuns]
    drops that of [CreateSortedTempFile] and returns true, and a job of the
    thread pool only prints a message.  A spill failure therefore never makes
    [Run] return false.  When no temp file can be created the merge cannot
    open its reader and the process exits; when an older file lies at the
    path of the run, [Run] returns true and the output is the content of that
    file. *)
Theorem C3_Run_does_not_report_spill_failure :
  (forall (can_create : string -> bool) (s : ReadSorter.t),
      match Run can_create s with
      | Exited code => code = -1
      | Returned (ok, _) => ok = sort_retval s && merge_retval s
      end)
  /\ (forall nothreads : bool,
        let input := [TestData.named "a" 0 200] in
        let stale := {["/tmp/oge_sort_0" := [TestData.named "old" 0 7]]} in
        (WriteTempFile (fun _ => false) input "/tmp/oge_sort_0"
           (TestData.sorter SORT_POSITION nothreads 1 input ∅)).1 = false
        /\ Run (fun _ => false)
             (TestData.sorter SORT_POSITION nothreads 1 input ∅)
           = Exited (-1)
        /\ names_written
             (Run (fun _ => false)
                (TestData.sorter SORT_POSITION nothreads 1 input stale))
           = Some (true, ["old"])).
Proof.
  split; [apply Run_result|].
  intros [|]; vm_compute; done.
Qed.

(** *** Ties in the merge *)

(** Three records at one position, two per temp file, sorted by position:
    the runs are ["x1"; "x2"] and ["y"].  After "x1" has left the queue "x2"
    enters it behind "y", which is of a later run, and the output order
    differs from the input order although all keys are equal. *)
Lemma C4_equal_keys_leave_in_another_order :
  let input := [TestData.named "x1" 0 100; TestData.named "x2" 0 100;
                TestData.named "y" 0 100] in
  names_written
    (Run (fun _ => true) (TestData.sorter SORT_POSITION true 2 input ∅))
  = Some (true, ["x1"; "y"; "x2"])
  /\ Name <$> stable_sort Sort.ByPosition input = ["x1"; "x2"; "y"]
  /\ Name <$> input = ["x1"; "x2"; "y"].
Proof. vm_compute. done. Qed.

(** C4 (as amended).  The merge does not look at the source of a record.
    It emits the front of the queue, and a record that enters the queue is
    placed behind every queued record that is not greater than it by
    position, and in front of the first that is: among equal keys the one
    that entered the queue first leaves first. *)
Theorem C4_ties_leave_in_queue_order
    (el : SortedMergeElement) (reads : list SortedMergeElement) :
  (exists front back : list SortedMergeElement,
      reads = front ++ back
      /\ multiset_insert el reads = front ++ el :: back
      /\ (forall y, y ∈ front -> SortedMergeElement_lt el y = false)
      /\ match back with
         | [] => True
         | y :: _ => SortedMergeElement_lt el y = true
         end)
  /\ (forall (fuel : nat) (readers : list (list BamAlignment))
             (output : list BamAlignment),
        merge_loop (S fuel) (el :: reads) readers output
        = match reader_GetNextAlignment (source_reader el) readers with
          | (None, readers) =>
              merge_loop fuel reads readers (output ++ [read el])
          | (Some al, readers) =>
              merge_loop fuel
                (multiset_insert (mkElement al (source_reader el)) reads)
                readers (output ++ [read el])
          end)
  /\ (forall x y : SortedMergeElement,
        read x = read y ->
        SortedMergeElement_lt x el = SortedMergeElement_lt y el
        /\ SortedMergeElement_lt el x = SortedMergeElement_lt el y).
Proof.
  split; [|split].
  - induction reads as [|y reads IH]; simpl.
    + exists [], []. repeat split.
      intros y Hy. by apply elem_of_nil in Hy.
    + destruct (SortedMergeElement_lt el y) eqn:E.
      * exists [], (y :: reads). repeat split; [|done].
        intros z Hz. by apply elem_of_nil in Hz.
      * destruct IH as (front & back & -> & -> & Hfront & Hback).
        exists (y :: front), back. repeat split; [|done].
        intros z [->|Hz]%elem_of_cons; [done|by apply Hfront].
  - done.
  - intros x y Hxy. unfold SortedMergeElement_lt. by rewrite Hxy.
Qed.

End SorterFacts.

(** ** The FASTQ writer *)

Section FastqFacts.
Import BamTools FastqWriter.
Variable BuildCharData : BamAlignment -> BamAlignment.
Variable IsReverseStrand : BamAlignment -> bool.

Local Abbreviation SaveAlignment := (SaveAlignment BuildCharData IsReverseStrand).
Local Abbreviation SaveAlignments := (SaveAlignments BuildCharData IsReverseStrand).
Local Abbreviation mate_of := (mate_of BuildCharData).
Local Abbreviation fwd_entry := (fwd_entry BuildCharData IsReverseStrand).
Local Abbreviation rev_entry := (rev_entry BuildCharData IsReverseStrand).
Local Abbreviation mates_of_pair := (mates_of_pair BuildCharData).

Lemma append_assoc (a b c : string) : (a +:+ b) +:+ c = a +:+ b +:+ c.
Proof.
  induction a as [|x a IH]; [done|].
  change (String x ((a +:+ b) +:+ c) = String x (a +:+ b +:+ c)).
  by f_equal.
Qed.

Lemma append_empty_r (a : string) : a +:+ "" = a.
Proof.
  induction a as [|x a IH]; [done|].
  change (String x (a +:+ "") = String x a). by f_equal.
Qed.

Lemma joined_app (l1 l2 : list string) :
  joined (l1 ++ l2) = joined l1 +:+ joined l2.
Proof.
  induction l1 as [|x l1 IH]; simpl; [done|].
  by rewrite IH, append_assoc.
Qed.

(** Taking a writer with separate files apart. *)
Ltac open_writer w Hsep :=
  destruct w as [pf pr po c [fo ff ft] [ro rf rt] [oo of_ ot] op fn pp ce];
  unfold separate_files in Hsep; simpl in Hsep;
  destruct Hsep as (-> & -> & -> & -> & -> & -> & -> & -> & ->).

(** The first record of a name is buffered and nothing is written. *)
Lemma SaveAlignment_first (a : BamAlignment) (w : FastqWriter.t) :
  separate_files w ->
  potential_pairs w !! (mate_of a).1 = None ->
  SaveAlignment a w
  = Returned (true,
      set_potential_pairs (<[(mate_of a).1 := (mate_of a).2]> (potential_pairs w)) w).
Proof.
  intros Hsep Hnone. open_writer w Hsep. simpl in *.
  unfold FastqWriter.SaveAlignment. simpl. by rewrite Hnone.
Qed.

(** The second record of a name completes a pair, which is written at
    once; the buffered record is taken out of the buffer. *)
Lemma SaveAlignment_second (a : BamAlignment) (rec : fastq_record_t)
    (w : FastqWriter.t) :
  separate_files w ->
  potential_pairs w !! (mate_of a).1 = Some rec ->
  exists w' : FastqWriter.t,
    SaveAlignment a w = Returned (true, w')
    /\ separate_files w'
    /\ text (fwd_file w') = text (fwd_file w) +:+ fwd_entry (rec, a)
    /\ text (rev_file w') = text (rev_file w) +:+ rev_entry (rec, a)
    /\ orphan_file w' = orphan_file w
    /\ cout w' = cout w
    /\ open w' = open w
    /\ potential_pairs w' = delete (mate_of a).1 (potential_pairs w).
Proof.
  intros Hsep Hsome. open_writer w Hsep. simpl in *.
  unfold FastqWriter.SaveAlignment. simpl. rewrite Hsome. simpl.
  eexists. split; [done|]. simpl.
  unfold separate_files, FastqWriter.fwd_entry, FastqWriter.rev_entry,
    forward_of, reverse_of, FastqWriter.mate_of. simpl.
  by destruct (IsReverseStrand (BuildCharData a)).
Qed.

(** Any sequence of calls: the pairs completed so far are in the two files,
    and every record handed in is a mate of one of them or still in the
    buffer. *)
Lemma SaveAlignments_spec (l : list BamAlignment) :
  forall w : FastqWriter.t,
    separate_files w ->
    exists (pairs : list (fastq_record_t * BamAlignment)) (w' : FastqWriter.t),
      SaveAlignments l w = Returned w'
      /\ separate_files w'
      /\ text (fwd_file w') = text (fwd_file w) +:+ joined (fwd_entry <$> pairs)
      /\ text (rev_file w') = text (rev_file w) +:+ joined (rev_entry <$> pairs)
      /\ orphan_file w' = orphan_file w
      /\ open w' = open w
      /\ (mate_of <$> l) ++ map_to_list (potential_pairs w)
         ≡ₚ (pairs ≫= mates_of_pair) ++ map_to_list (potential_pairs w').
Proof.
  induction l as [|a l IH]; intros w Hsep.
  - exists [], w. simpl. by rewrite !append_empty_r.
  - cbn [FastqWriter.SaveAlignments].
    destruct (potential_pairs w !! (mate_of a).1) as [rec|] eqn:Ebuf.
    + destruct (SaveAlignment_second a rec w Hsep Ebuf)
        as (w1 & -> & Hsep1 & Hf1 & Hr1 & Ho1 & Hc1 & Hop1 & Hpp1).
      destruct (IH w1 Hsep1)
        as (pairs & w' & -> & Hsep' & Hf & Hr & Ho & Hop & Hperm).
      exists ((rec, a) :: pairs), w'.
      split_and!; [done|done| | |congruence|congruence|].
      * by rewrite Hf, Hf1, fmap_cons, append_assoc.
      * by rewrite Hr, Hr1, fmap_cons, append_assoc.
      * rewrite fmap_cons, bind_cons, <- (assoc_L (++)), <- Hperm, Hpp1.
        rewrite <- (map_to_list_delete (potential_pairs w) _ _ Ebuf).
        unfold FastqWriter.mates_of_pair. simpl.
        rewrite <- Permutation_middle. apply perm_swap.
    + rewrite (SaveAlignment_first a w Hsep Ebuf).
      destruct (IH (set_potential_pairs
                      (<[(mate_of a).1 := (mate_of a).2]> (potential_pairs w)) w))
        as (pairs & w' & -> & Hsep' & Hf & Hr & Ho & Hop & Hperm).
      { by destruct w. }
      exists pairs, w'. split_and!; try done.
      rewrite <- Hperm, fmap_cons. simpl.
      rewrite (map_to_list_insert (potential_pairs w) _ _ Ebuf).
      by rewrite <- Permutation_middle.
Qed.

(** Writing the buffered records to the orphan file. *)
Lemma write_orphans (l : list (string * fastq_record_t)) :
  forall w : FastqWriter.t,
    separate_files w ->
    let w' :=
      fold_left (fun w i => write (orphan_stream w) (orphan_entry i) w) l w in
    separate_files w'
    /\ text (orphan_file w')
       = text (orphan_file w) +:+ joined (orphan_entry <$> l)
    /\ fwd_file w' = fwd_file w /\ rev_file w' = rev_file w
    /\ open w' = open w.
Proof.
  induction l as [|i l IH]; intros w Hsep; simpl.
  - rewrite append_empty_r. by split_and!.
  - set (w1 := write (orphan_stream w) (orphan_entry i) w).
    assert (H1 : separate_files w1
                 /\ text (orphan_file w1)
                    = text (orphan_file w) +:+ orphan_entry i
                 /\ fwd_file w1 = fwd_file w /\ rev_file w1 = rev_file w
                 /\ open w1 = open w).
    { subst w1. open_writer w Hsep. by unfold separate_files. }
    destruct H1 as (Hsep1 & Ht1 & Hf1 & Hr1 & Hop1).
    destruct (IH w1 Hsep1) as (Hsep' & Ht & Hf & Hr & Hop).
    split_and!; [done| |congruence..].
    by rewrite Ht, Ht1, append_assoc.
Qed.

(** [Close] writes every buffered record to the orphan file, in the order
    of the names, and nothing to the other files. *)
Lemma Close_spec (w : FastqWriter.t) :
  separate_files w ->
  exists w' : FastqWriter.t,
    Close w = (true, w')
    /\ text (orphan_file w')
       = text (orphan_file w)
         +:+ joined (orphan_entry <$> in_key_order (potential_pairs w))
    /\ text (fwd_file w') = text (fwd_file w)
    /\ text (rev_file w') = text (rev_file w).
Proof.
  intros Hsep. unfold Close.
  destruct (write_orphans (in_key_order (potential_pairs w)) w Hsep)
    as (Hsep' & Ht & Hf & Hr & Hop).
  unfold orphan_entry in *.
  set (w1 := fold_left _ _ w) in *.
  eexists. split; [done|].
  rewrite <- Ht, <- Hf, <- Hr.
  destruct (open w1); simpl;
    unfold file_close; repeat (destruct (is_open _)); done.
Qed.

(** C10 (as amended).  With separate files every alignment handed to
    [SaveAlignment] is written exactly once.  The calls followed by [Close]
    leave in the forward and the reverse file one entry per completed pair,
    and in the orphan file one entry per record still buffered; the mates of
    the pairs together with the orphans are the records handed in, each
    once.  A pair is written by the very call that brings its second record.
    The record written as /2 is the second record when that one is on the
    reverse strand and the buffered one otherwise, and it is this record,
    whatever its own strand, whose bases are reversed and complemented and
    whose qualities are reversed. *)
Theorem C10_every_alignment_written_once
    (l : list BamAlignment) (w0 : FastqWriter.t) :
  separate_files w0 ->
  potential_pairs w0 = ∅ ->
  (exists (pairs : list (fastq_record_t * BamAlignment))
          (w w' : FastqWriter.t),
      SaveAlignments l w0 = Returned w
      /\ Close w = (true, w')
      /\ text (fwd_file w') = text (fwd_file w0) +:+ joined (fwd_entry <$> pairs)
      /\ text (rev_file w') = text (rev_file w0) +:+ joined (rev_entry <$> pairs)
      /\ text (orphan_file w')
         = text (orphan_file w0)
           +:+ joined (orphan_entry <$> in_key_order (potential_pairs w))
      /\ mate_of <$> l
         ≡ₚ (pairs ≫= mates_of_pair) ++ in_key_order (potential_pairs w))
  /\ (forall (a : BamAlignment) (rec : fastq_record_t) (w : FastqWriter.t),
        separate_files w ->
        potential_pairs w !! (mate_of a).1 = Some rec ->
        exists w1 : FastqWriter.t,
          SaveAlignment a w = Returned (true, w1)
          /\ text (fwd_file w1) = text (fwd_file w) +:+ fwd_entry (rec, a)
          /\ text (rev_file w1) = text (rev_file w) +:+ rev_entry (rec, a)
          /\ orphan_file w1 = orphan_file w
          /\ potential_pairs w1 = delete (mate_of a).1 (potential_pairs w))
  /\ (forall (a : BamAlignment) (w : FastqWriter.t),
        separate_files w ->
        potential_pairs w !! (mate_of a).1 = None ->
        exists w1 : FastqWriter.t,
          SaveAlignment a w = Returned (true, w1)
          /\ fwd_file w1 = fwd_file w /\ rev_file w1 = rev_file w
          /\ orphan_file w1 = orphan_file w
          /\ potential_pairs w1
             = <[(mate_of a).1 := (mate_of a).2]> (potential_pairs w)).
Proof.
  intros Hsep Hempty. split_and!.
  - destruct (SaveAlignments_spec l w0 Hsep)
      as (pairs & w & Hrun & Hsep' & Hf & Hr & Ho & Hop & Hperm).
    destruct (Close_spec w Hsep') as (w' & Hclose & Hto & Htf & Htr).
    exists pairs, w, w'. split_and!; [done|done|congruence..|].
    rewrite Hempty, map_to_list_empty, app_nil_r in Hperm.
    rewrite Hperm. unfold in_key_order.
    by rewrite merge_sort_Permutation.
  - intros a rec w Hw Hbuf.
    destruct (SaveAlignment_second a rec w Hw Hbuf)
      as (w1 & ? & ? & ? & ? & ? & ? & ? & ?).
    by exists w1.
  - intros a w Hw Hbuf. rewrite (SaveAlignment_first a w Hw Hbuf).
    eexists. split; [done|]. by destruct w.
Qed.

End FastqFacts.

(** Two records of one name, both on the reverse strand.  The first one is
    written as /1 with its bases as they are ("AAC"), not reversed and
    complemented ("GTT"), although it is on the reverse strand. *)
Lemma C10_reverse_strand_mate_written_unchanged :
  let first := TestData.read_of "r" "AAC" "!#%" 16 in
  let second := TestData.read_of "r" "GGT" "&(*" 16 in
  let w0 := (FastqWriter.Open (fun _ => true) "out" FastqWriter.new).2 in
  TestData.strand_bit first = true
  /\ FastqWriter.bases_by_own_strand TestData.already_built TestData.strand_bit
       first = "GTT"
  /\ match FastqWriter.SaveAlignments TestData.already_built TestData.strand_bit
             [first; second] w0 with
     | Exited _ => False
     | Returned w =>
         FastqWriter.text (FastqWriter.fwd_file w)
         = FastqWriter.fastq_entry "r/1" "AAC" "!#%"
         /\ FastqWriter.text (FastqWriter.rev_file w)
            = FastqWriter.fastq_entry "r/2" "ACC" "*(&"
     end.
Proof. vm_compute. done. Qed.

(** ** The properties at concrete inputs *)

Section Instances.
Import BamTools BamReaderPrivate Prefetch TestData.

(** C9 on a list in which a name occurs twice. *)
Lemma C9_GetReferenceID_witness :
  Z.of_nat (length (m_references reader_with_references)) <= INT_MAX
  /\ GetReferenceID reader_with_references "chr2" = 1
  /\ GetReferenceID reader_with_references "chrX" = -1.
Proof.
  assert (Hsize :
    Z.of_nat (length (m_references reader_with_references)) <= INT_MAX)
    by (vm_compute; discriminate).
  split; [exact Hsize|]. split.
  - apply (proj1 (C9_GetReferenceID_index_or_minus_one
                    reader_with_references "chr2" Hsize)
             1%nat (mkRefData "chr2" 2000)); [reflexivity|reflexivity|].
    intros [|j] other Hj Hother; [|lia].
    injection Hother as <-. discriminate.
  - apply (proj2 (C9_GetReferenceID_index_or_minus_one
                    reader_with_references "chrX" Hsize)).
    intros ref Href. simpl in Href.
    repeat (apply elem_of_cons in Href as [->|Href]; [discriminate|]).
    by apply elem_of_nil in Href.
Defined.

(** C6 on an empty file and on a file that starts with four zero bytes. *)
Lemma C6_zero_block_length_witness :
  let at_zero := reader_on (le_bytes 0 ++ core_record 0 50)
                   (RegionController.mkController None false) in
  let at_end := reader_on [] (RegionController.mkController None false) in
  (at_end_of_file at_end \/ at_zero_block_length at_end)
  /\ (at_end_of_file at_zero \/ at_zero_block_length at_zero)
  /\ LoadNextAlignmentInternal junk at_end newBamAlignment
     = (false, newBamAlignment, at_end)
  /\ (LoadNextAlignmentInternal junk at_zero newBamAlignment).1
     = (false, newBamAlignment)
  /\ unread (m_stream (LoadNextAlignmentInternal junk at_zero newBamAlignment).2)
     = core_record 0 50.
Proof.
  intros at_zero at_end.
  assert (Hend : at_end_of_file at_end \/ at_zero_block_length at_end)
    by (left; reflexivity).
  assert (Hzero : at_end_of_file at_zero \/ at_zero_block_length at_zero).
  { right. exists Byte.x00, Byte.x00, Byte.x00, Byte.x00, (core_record 0 50).
    split; reflexivity. }
  split; [exact Hend|]. split; [exact Hzero|].
  destruct (C6_zero_block_length_ends_stream junk at_end newBamAlignment Hend)
    as (r1 & E1 & _ & _ & _ & _ & Hsame).
  destruct (C6_zero_block_length_ends_stream junk at_zero newBamAlignment Hzero)
    as (r2 & E2 & _ & Hrest & _).
  rewrite E1, E2. simpl. rewrite Hrest.
  split; [|split; reflexivity].
  rewrite (Hsame eq_refl). reflexivity.
Defined.

(** C7 on the reader of scenario S3. *)
Lemma C7_GetNextAlignment_witness :
  HasRegion (m_randomAccessController region_reader) = true
  /\ is_Some (GetNextAlignment junk region_reader newBamAlignment).
Proof.
  assert (Hregion : HasRegion (m_randomAccessController region_reader) = true)
    by reflexivity.
  split; [exact Hregion|].
  apply (proj1 (C7_GetNextAlignment_region_filter junk region_reader
                  newBamAlignment Hregion)).
Defined.

(** Scenario S3: the first call skips (0,50) and returns (0,150); the second
    call meets (0,250), fails, and leaves (1,50) unread. *)
Example region_scenario :
  match GetNextAlignment junk region_reader newBamAlignment with
  | Some (Loaded true a1 r1) =>
      (RefID a1, Position a1) = (0, 150)
      /\ match GetNextAlignment junk r1 a1 with
         | Some (Loaded false a2 r2) =>
             (RefID a2, Position a2) = (0, 250)
             /\ unread (m_stream r2) = core_record 1 50
         | _ => False
         end
  | _ => False
  end.
Proof. vm_compute. done. Qed.

(** C5 on a file of three records and a short schedule. *)
Lemma C5_queue_depth_witness :
  let schedule := [Worker false; Worker true; Caller; Worker false; Caller] in
  do_prefetch (prefetching_reader 3) = true
  /\ Z.of_nat (length schedule) <= INT_MAX
  /\ queue_size (reader (run junk schedule (start (prefetching_reader 3))))
     <= 20300.
Proof.
  intros schedule.
  assert (Hpre : do_prefetch (prefetching_reader 3) = true) by reflexivity.
  assert (Hlen : Z.of_nat (length schedule) <= INT_MAX)
    by (vm_compute; discriminate).
  split; [exact Hpre|]. split; [exact Hlen|].
  destruct (C5_queue_depth_bound junk (prefetching_reader 3) schedule Hpre
              Hlen) as (_ & _ & Hfresh & _).
  apply (proj1 (Hfresh eq_refl)).
Defined.

(** With a caller that does not take anything, the worker has pushed 20 001
    records when it has gone round its loop 20 001 times: its throttle is not
    due before the iteration with [count = 20100]. *)
Lemma C5_queue_depth_exceeds_20000 :
  do_prefetch (prefetching_reader (Z.to_nat 20001)) = true
  /\ prefetch_alignments (prefetching_reader (Z.to_nat 20001)) = []
  /\ ~ queue_size
        (reader (run junk (worker_alone (Z.to_nat 20001))
                   (start (prefetching_reader (Z.to_nat 20001)))))
      <= 20000.
Proof.
  split; [reflexivity|]. split; [reflexivity|].
  rewrite (worker_alone_rounds junk (Z.to_nat 20001) _ []).
  - rewrite Z2Nat.id by lia.
    change (queue_size (reader (start (prefetching_reader (Z.to_nat 20001)))))
      with 0.
    lia.
  - reflexivity.
  - reflexivity.
  - reflexivity.
  - rewrite app_nil_r. reflexivity.
  - reflexivity.
  - change (count (start (prefetching_reader (Z.to_nat 20001)))) with 0. lia.
  - change (count (start (prefetching_reader (Z.to_nat 20001)))) with 0.
    rewrite Z2Nat.id by lia. lia.
Qed.

(** C8 on an empty file: the worker pushes the null pointer only, so the
    caller gets one result at most, while two direct calls return twice. *)
Lemma C8_calls_after_end_of_stream_witness :
  let schedule := [Worker false; Caller; Caller; Worker false; Caller] in
  do_prefetch (prefetching_reader 0) = true
  /\ prefetch_alignments (prefetching_reader 0) = []
  /\ pushes junk (prefetching_reader 0) = [None]
  /\ (length (returned (run junk schedule (start (prefetching_reader 0))))
      <= length (pushes junk (prefetching_reader 0)))%nat
  /\ length (returned (run junk (repeat Caller 2)
                         (start (set_do_prefetch false (prefetching_reader 0)))))
     = 2%nat.
Proof.
  intros schedule. split; [reflexivity|]. split; [reflexivity|].
  split; [reflexivity|].
  destruct (C8_no_result_after_end_of_stream_when_prefetching junk
              (prefetching_reader 0) schedule 2 eq_refl eq_refl)
    as (_ & Hat_most & Hdirect & _).
  split; [exact Hat_most|exact Hdirect].
Defined.

(** On an empty file: with prefetching the first call returns the end of the
    stream and the second never returns, however long the two threads run;
    without prefetching both calls return. *)
Example calls_on_an_empty_file :
  returned (run junk [Worker false; Caller; Caller; Worker false; Caller]
              (start (prefetching_reader 0)))
  = [None]
  /\ returned (run junk [Caller; Caller]
                 (start (set_do_prefetch false (prefetching_reader 0))))
     = [None; None].
Proof. vm_compute. done. Qed.

(** C10 on three records, two of them with one name. *)
Lemma C10_every_alignment_written_once_witness :
  let reads := [read_of "r" "AAC" "!#%" 0; read_of "s" "TT" "!!" 0;
                read_of "r" "GGT" "&(*" 16] in
  let w0 := (FastqWriter.Open (fun _ => true) "out" FastqWriter.new).2 in
  FastqWriter.separate_files w0
  /\ FastqWriter.potential_pairs w0 = ∅
  /\ exists (pairs : list (FastqWriter.fastq_record_t * BamAlignment))
            (w w' : FastqWriter.t),
       FastqWriter.SaveAlignments already_built strand_bit reads w0 = Returned w
       /\ FastqWriter.Close w = (true, w')
       /\ FastqWriter.mate_of already_built <$> reads
          ≡ₚ (pairs ≫= FastqWriter.mates_of_pair already_built)
             ++ FastqWriter.in_key_order (FastqWriter.potential_pairs w).
Proof.
  intros reads w0.
  assert (Hsep : FastqWriter.separate_files w0)
    by (unfold FastqWriter.separate_files; repeat split; reflexivity).
  assert (Hempty : FastqWriter.potential_pairs w0 = ∅) by reflexivity.
  split; [exact Hsep|]. split; [exact Hempty|].
  destruct (proj1 (C10_every_alignment_written_once already_built strand_bit
                     reads w0 Hsep Hempty))
    as (pairs & w & w' & Hrun & Hclose & _ & _ & _ & Hperm).
  exists pairs, w, w'. split; [exact Hrun|]. split; [exact Hclose|exact Hperm].
Defined.

(** The same run, evaluated: "r" is completed by the third call, "s" is an
    orphan. *)
Example fastq_scenario :
  let reads := [read_of "r" "AAC" "!#%" 0; read_of "s" "TT" "!!" 0;
                read_of "r" "GGT" "&(*" 16] in
  let w0 := (FastqWriter.Open (fun _ => true) "out" FastqWriter.new).2 in
  match FastqWriter.SaveAlignments already_built strand_bit reads w0 with
  | Exited _ => False
  | Returned w =>
      let w' := (FastqWriter.Close w).2 in
      FastqWriter.text (FastqWriter.fwd_file w')
      = FastqWriter.fastq_entry "r/1" "AAC" "!#%"
      /\ FastqWriter.text (FastqWriter.rev_file w')
         = FastqWriter.fastq_entry "r/2" "ACC" "*(&"
      /\ FastqWriter.text (FastqWriter.orphan_file w')
         = FastqWriter.fastq_entry "s" "TT" "!!"
  end.
Proof. vm_compute. done. Qed.

(** Scenario S1: three records sorted by position without threads. *)
Example sort_by_position_scenario :
  match ReadSorter.Run (fun _ => true)
          (sorter ReadSorter.SORT_POSITION true 500000
             [named "p" 0 100; named "q" 0 50; named "r" 1 10] ∅) with
  | Returned (ok, s) =>
      ok = true /\ Name <$> ReadSorter.sink s = ["q"; "p"; "r"]
  | Exited _ => False
  end.
Proof. vm_compute. done. Qed.

End Instances.

(** * Further properties of the code *)

(** ** The prefetch worker, continued *)

Section PrefetchMore.
Import BamTools BamReaderPrivate Prefetch.
Context {C : Type} `{RandomAccessController C}.
Variable junk : nat -> Byte.byte.

(** X1.  Once the worker has returned and the queue is empty, the caller has
    received exactly what the worker read: the records of the file in file
    order, each once, and one end marker behind them. *)
Theorem X1_prefetch_delivers_every_record_once
    (r0 : BamReaderPrivate.t C) (schedule : list turn) :
  do_prefetch r0 = true ->
  prefetch_alignments r0 = [] ->
  pc (run junk schedule (start r0)) = Finished ->
  prefetch_alignments (reader (run junk schedule (start r0))) = [] ->
  returned (run junk schedule (start r0)) = pushes junk r0
  /\ exists records : list BamAlignment,
       returned (run junk schedule (start r0)) = (Some <$> records) ++ [None].
Proof.
  intros Hpre Hq Hpc Hempty.
  destruct (run_in_file_order junk r0 schedule (start r0)) as (_ & _ & Horder).
  { by apply start_in_file_order. }
  unfold to_come in Horder. rewrite Hpc, Hempty, Hq in Horder.
  simpl in Horder.
  rewrite app_nil_r in Horder. split; [done|].
  rewrite Horder. apply pushes_shape.
Qed.

Lemma StopPrefetch_queue (join_result : Z) (r : BamReaderPrivate.t C) :
  prefetch_alignments (StopPrefetch join_result r) = prefetch_alignments r.
Proof. unfold StopPrefetch. by destruct (do_prefetch r). Qed.

(** A worker that waits in its throttle while prefetching is off stays
    there: nobody takes records from the queue any more. *)
Lemma step_stuck_in_throttle (threshold : Z) (t : turn) (s : system C) :
  do_prefetch (reader s) = false ->
  pc s = Sleeping threshold ->
  queue_size (reader s) > threshold ->
  do_prefetch (reader (step junk t s)) = false
  /\ pc (step junk t s) = Sleeping threshold
  /\ prefetch_alignments (reader (step junk t s)) = prefetch_alignments (reader s).
Proof.
  intros Hpre Hpc Hdeep. destruct t as [load_is_high|]; simpl.
  - unfold worker_step, sleep_or_resume. rewrite Hpc.
    by rewrite bool_decide_eq_true_2.
  - unfold caller_step, LoadNextAlignment_ptr. rewrite Hpre.
    destruct (LoadNextAlignmentInternal junk (reader s) newBamAlignment)
      as [[ok al] r'] eqn:E. simpl.
    apply LoadNextAlignmentInternal_frame in E as (_ & _ & Hp & Hq & _).
    split_and!; congruence.
Qed.

(** X2.  [StopPrefetch] does not wake a worker that waits in its throttle.
    If the worker is inside one of the two
    [while (size > threshold) usleep(20000)] loops with the queue above the
    threshold when [StopPrefetch] clears [do_prefetch], then, however the two
    threads are scheduled afterwards, the worker is still in that loop and
    the queue still holds the same records: the caller now reads the stream
    itself and the loop does not test [do_prefetch]. *)
Theorem X2_throttled_worker_never_returns_after_StopPrefetch
    (join_result threshold : Z) (s : system C) (schedule : list turn) :
  pc s = Sleeping threshold ->
  queue_size (reader s) > threshold ->
  let stopped :=
    mkSystem (StopPrefetch join_result (reader s)) (pc s) (count s)
      (returned s) in
  pc (run junk schedule stopped) = Sleeping threshold
  /\ prefetch_alignments (reader (run junk schedule stopped))
     = prefetch_alignments (reader s).
Proof.
  intros Hpc Hdeep stopped.
  assert (Hinv : forall s' : system C,
    do_prefetch (reader s') = false ->
    pc s' = Sleeping threshold ->
    prefetch_alignments (reader s') = prefetch_alignments (reader s) ->
    pc (run junk schedule s') = Sleeping threshold
    /\ prefetch_alignments (reader (run junk schedule s'))
       = prefetch_alignments (reader s)).
  { induction schedule as [|t schedule IH]; intros s' Hpre' Hpc' Hq'; [done|].
    simpl.
    destruct (step_stuck_in_throttle threshold t s' Hpre' Hpc')
      as (Hpre'' & Hpc'' & Hq'').
    { unfold queue_size in *. by rewrite Hq'. }
    apply IH; congruence. }
  apply Hinv; subst stopped; simpl.
  - apply StopPrefetch_do_prefetch.
  - done.
  - apply StopPrefetch_queue.
Qed.

End PrefetchMore.

(** ** Decoding, continued *)

Section DecodingMore.
Import BamTools BamReaderPrivate TestData.
Context {C : Type} `{RandomAccessController C}.

(** *** Bytes and 32-bit values *)

Lemma byte_val_range (b : Byte.byte) : 0 <= byte_val b < 256.
Proof.
  unfold byte_val. pose proof (Byte.to_N_bounded b). lia.
Qed.

(** A value below [2 ^ n] and a multiple of [2 ^ n] share no bit. *)
Lemma lor_low_high (x y n : Z) :
  0 <= n -> 0 <= x < 2 ^ n -> Z.lor x (y * 2 ^ n) = x + y * 2 ^ n.
Proof.
  intros Hn Hx. symmetry. apply Z.add_nocarry_lor.
  apply Z.bits_inj'. intros m Hm.
  rewrite Z.land_spec, Z.bits_0.
  destruct (Z.lt_ge_cases m n) as [Hlt|Hge].
  - by rewrite (Z.mul_pow2_bits_low y n m Hlt), andb_false_r.
  - rewrite <- (Z.mod_small x (2 ^ n)) by done.
    by rewrite Z.mod_pow2_bits_high by lia.
Qed.

(** Four values below 256 packed with shifts and ors. *)
Lemma pack_bytes (v0 v1 v2 v3 : Z) :
  0 <= v0 < 256 -> 0 <= v1 < 256 -> 0 <= v2 < 256 -> 0 <= v3 < 256 ->
  Z.lor v0 (Z.lor (Z.shiftl v1 8) (Z.lor (Z.shiftl v2 16) (Z.shiftl v3 24)))
  = v0 + v1 * 2 ^ 8 + v2 * 2 ^ 16 + v3 * 2 ^ 24.
Proof.
  intros H0 H1 H2 H3.
  rewrite !Z.shiftl_mul_pow2 by lia. rewrite !Z.lor_assoc.
  rewrite (lor_low_high v0 v1 8) by lia.
  rewrite (lor_low_high (v0 + v1 * 2 ^ 8) v2 16) by lia.
  rewrite (lor_low_high _ v3 24) by lia.
  done.
Qed.

Lemma le32_sum (b0 b1 b2 b3 : Byte.byte) :
  le32 b0 b1 b2 b3
  = byte_val b0 + byte_val b1 * 2 ^ 8 + byte_val b2 * 2 ^ 16
    + byte_val b3 * 2 ^ 24.
Proof. apply pack_bytes; apply byte_val_range. Qed.

Lemma le32_range (b0 b1 b2 b3 : Byte.byte) : 0 <= le32 b0 b1 b2 b3 < 2 ^ 32.
Proof.
  rewrite le32_sum.
  pose proof (byte_val_range b0). pose proof (byte_val_range b1).
  pose proof (byte_val_range b2). pose proof (byte_val_range b3). lia.
Qed.

(** [SwapEndian_32] turns the big-endian reading of four bytes into the
    little-endian one. *)
Lemma SwapEndian_32_le32 (b0 b1 b2 b3 : Byte.byte) :
  SwapEndian_32 (le32 b3 b2 b1 b0) = le32 b0 b1 b2 b3.
Proof.
  unfold SwapEndian_32. rewrite !le32_sum.
  pose proof (byte_val_range b0). pose proof (byte_val_range b1).
  pose proof (byte_val_range b2). pose proof (byte_val_range b3).
  set (v := byte_val b3 + byte_val b2 * 2 ^ 8 + byte_val b1 * 2 ^ 16
            + byte_val b0 * 2 ^ 24).
  change 255 with (Z.ones 8). rewrite !Z.land_ones, !Z.shiftr_div_pow2 by lia.
  assert (E3 : v `mod` 2 ^ 8 = byte_val b3)
    by (subst v; Z.to_euclidean_division_equations; lia).
  assert (E2 : (v `div` 2 ^ 8) `mod` 2 ^ 8 = byte_val b2)
    by (subst v; Z.to_euclidean_division_equations; lia).
  assert (E1 : (v `div` 2 ^ 16) `mod` 2 ^ 8 = byte_val b1)
    by (subst v; Z.to_euclidean_division_equations; lia).
  assert (E0 : (v `div` 2 ^ 24) `mod` 2 ^ 8 = byte_val b0)
    by (subst v; Z.to_euclidean_division_equations; lia).
  rewrite E3, E2, E1, E0.
  rewrite (Z.lor_comm (Z.shiftl (byte_val b3) 24)).
  rewrite (Z.lor_comm (Z.shiftl (byte_val b2) 16)).
  rewrite (Z.lor_comm (Z.shiftl (byte_val b1) 8)).
  rewrite <- !Z.lor_assoc.
  rewrite pack_bytes by done. lia.
Qed.

Lemma byte_val_byte_of (z : Z) : byte_val (byte_of z) = z `mod` 256.
Proof.
  unfold byte_val, byte_of.
  pose proof (Z.mod_pos_bound z 256 ltac:(lia)) as Hr.
  destruct (Byte.of_N (Z.to_N (z `mod` 256))) as [b|] eqn:E.
  - simpl. apply Byte.to_of_N in E. rewrite E. lia.
  - exfalso.
    pose proof (Byte.to_of_N_option_map (Z.to_N (z `mod` 256))) as Hm.
    rewrite E in Hm. simpl in Hm.
    destruct (N.leb_spec (Z.to_N (z `mod` 256)) 255); [done|lia].
Qed.

(** The four bytes of a value read back. *)
Lemma le32_le_bytes (z : Z) :
  le32 (byte_of z) (byte_of (Z.shiftr z 8)) (byte_of (Z.shiftr z 16))
    (byte_of (Z.shiftr z 24)) = z `mod` 2 ^ 32.
Proof.
  rewrite le32_sum, !byte_val_byte_of, !Z.shiftr_div_pow2 by lia.
  Z.to_euclidean_division_equations. lia.
Qed.

Lemma to_int_mod (z : Z) :
  - 2 ^ 31 <= z < 2 ^ 31 -> to_int (z `mod` 2 ^ 32) = z.
Proof.
  intros Hz. unfold to_int. Z.to_euclidean_division_equations. lia.
Qed.

(** The block length as the code obtains it, on either host. *)
Lemma block_length_decoded (big : bool) (buffer : list Byte.byte) :
  (if big then SwapEndian_32 (UnpackUnsignedInt big buffer)
   else UnpackUnsignedInt big buffer)
  = le32 (nth_byte 0 buffer) (nth_byte 1 buffer) (nth_byte 2 buffer)
      (nth_byte 3 buffer).
Proof.
  destruct big; simpl; [|done]. apply SwapEndian_32_le32.
Qed.

Lemma core_unsigned_decoded (big : bool) (x : list Byte.byte) (off : Z) :
  core_unsigned big x off
  = le32 (nth_byte 0 (word_at off x)) (nth_byte 1 (word_at off x))
      (nth_byte 2 (word_at off x)) (nth_byte 3 (word_at off x)).
Proof. by destruct big. Qed.

Lemma core_signed_decoded (big : bool) (x : list Byte.byte) (off : Z) :
  core_signed big x off
  = to_int (le32 (nth_byte 0 (word_at off x)) (nth_byte 1 (word_at off x))
              (nth_byte 2 (word_at off x)) (nth_byte 3 (word_at off x))).
Proof. by destruct big. Qed.

Lemma cigar_word_decoded (big : bool) (buf : list Byte.byte) (off : Z) :
  cigar_word big buf off
  = le32 (nth_byte 0 (word_at off buf)) (nth_byte 1 (word_at off buf))
      (nth_byte 2 (word_at off buf)) (nth_byte 3 (word_at off buf)).
Proof.
  unfold cigar_word. destruct big; [|done]. apply SwapEndian_32_le32.
Qed.

Lemma parse_cigar_decoded (big : bool) (buf : list Byte.byte) (off n : Z) :
  parse_cigar big buf off n = parse_cigar false buf off n.
Proof.
  unfold parse_cigar. apply map_ext. intros i.
  by rewrite !cigar_word_decoded.
Qed.

(** X3.  The host byte order does not show in what [LoadNextAlignmentInternal]
    decodes: on the same stream, a big-endian and a little-endian host get
    the same result flag, the same alignment and the same stream position
    (the swaps undo exactly what the host-order unpacking does). *)
Theorem X3_decoding_independent_of_host_byte_order
    (junk : nat -> Byte.byte) (r1 r2 : BamReaderPrivate.t C)
    (alignment : BamAlignment) :
  m_stream r1 = m_stream r2 ->
  (LoadNextAlignmentInternal junk r1 alignment).1
  = (LoadNextAlignmentInternal junk r2 alignment).1
  /\ m_stream (LoadNextAlignmentInternal junk r1 alignment).2
     = m_stream (LoadNextAlignmentInternal junk r2 alignment).2.
Proof.
  intros Hs. unfold LoadNextAlignmentInternal. rewrite <- Hs.
  destruct (Read 4 (m_stream r1)) as [got s1].
  case_bool_decide; [done|]. simpl.
  rewrite !block_length_decoded.
  case_bool_decide; [done|].
  destruct (Read BAM_CORE_SIZE s1) as [x s2]. simpl.
  case_bool_decide; [done|].
  rewrite !core_unsigned_decoded, !core_signed_decoded.
  case_bool_decide; [|done]. simpl.
  by rewrite (parse_cigar_decoded (m_isBigEndian r1)),
    (parse_cigar_decoded (m_isBigEndian r2)).
Qed.

Lemma land_mask_range (a : Z) :
  (0 <= Z.land a 65535 /\ Z.land a 65535 <= 65535)
  /\ (0 <= Z.land a 255 /\ Z.land a 255 <= 255).
Proof.
  change 65535 with (Z.ones 16) at 1 2. change 255 with (Z.ones 8) at 1 2.
  rewrite !Z.land_ones by lia.
  pose proof (Z.mod_pos_bound a (2 ^ 16) ltac:(lia)).
  pose proof (Z.mod_pos_bound a (2 ^ 8) ltac:(lia)). lia.
Qed.


(** X5.  A record that is cut short.  Behind a block length that is not
    zero, fewer than 32 bytes make the load fail with the message about the
    core and leave the alignment as it was.  With the core complete and the
    payload short (a block length below 32 announces a payload of more than
    four billion bytes), the load fails with the message about the character
    data, but the alignment has already got the fields of the core: its
    reference id is the one just read, while its CIGAR and its support data
    are still the old ones.  In both cases all remaining bytes have been
    consumed. *)
Theorem X5_truncated_record
    (junk : nat -> Byte.byte) (r : BamReaderPrivate.t C) (al : BamAlignment)
    (b0 b1 b2 b3 : Byte.byte) (rest : list Byte.byte) :
  unread (m_stream r) = b0 :: b1 :: b2 :: b3 :: rest ->
  le32 b0 b1 b2 b3 <> 0 ->
  ((length rest < 32)%nat ->
   exists r' : BamReaderPrivate.t C,
     LoadNextAlignmentInternal junk r al = (false, al, r')
     /\ cerr r'
        = cerr r ++ ["Expected more bytes reading BAM core. Is this file truncated or corrupted?"]
     /\ unread (m_stream r') = [])
  /\ ((32 <= length rest)%nat ->
      Z.of_nat (length rest) - 32 < wrap32 (le32 b0 b1 b2 b3 - 32) ->
      exists (al' : BamAlignment) (r' : BamReaderPrivate.t C),
        LoadNextAlignmentInternal junk r al = (false, al', r')
        /\ cerr r'
           = cerr r ++ ["Expected more bytes reading BAM char data. Is this file truncated or corrupted?"]
        /\ unread (m_stream r') = []
        /\ RefID al'
           = to_int (le32 (nth_byte 0 rest) (nth_byte 1 rest)
                       (nth_byte 2 rest) (nth_byte 3 rest))
        /\ CigarData al' = CigarData al
        /\ SupportData al' = SupportData al).
Proof.
  intros Hunread Hlen.
  assert (Hblock :
    (if m_isBigEndian r
     then SwapEndian_32 (UnpackUnsignedInt (m_isBigEndian r) [b0; b1; b2; b3])
     else UnpackUnsignedInt (m_isBigEndian r) [b0; b1; b2; b3])
    = le32 b0 b1 b2 b3) by apply block_length_decoded.
  split.
  - intros Hshort. unfold LoadNextAlignmentInternal, Read.
    rewrite Hunread. simpl. rewrite Hblock.
    unfold BAM_CORE_SIZE. change (Z.to_nat 32) with 32%nat.
    rewrite !drop_0.
    rewrite bool_decide_eq_false_2 by done.
    rewrite bool_decide_eq_true_2 by (rewrite length_take; lia).
    eexists. split; [done|]. simpl. split; [done|].
    apply drop_ge. lia.
  - intros Hcore Hshort. unfold LoadNextAlignmentInternal, Read.
    rewrite Hunread. simpl. rewrite Hblock.
    unfold BAM_CORE_SIZE. change (Z.to_nat 32) with 32%nat.
    rewrite !drop_0.
    rewrite bool_decide_eq_false_2 by done.
    rewrite bool_decide_eq_false_2 by (rewrite length_take; lia).
    rewrite bool_decide_eq_false_2
      by (rewrite length_take, length_drop; lia).
    eexists _, _. split; [done|]. simpl. split_and!; try done.
    + apply drop_ge. rewrite length_drop. lia.
    + rewrite core_signed_decoded. unfold word_at, nth_byte. simpl.
      destruct rest as [|c0 [|c1 [|c2 [|c3 rest']]]]; simpl in *; (done || lia).
Qed.

(** *** The record layout *)

Import BamLayout.

Lemma le32_of_le_bytes (z : Z) :
  0 <= z < 2 ^ 32 ->
  le32 (nth_byte 0 (le_bytes z)) (nth_byte 1 (le_bytes z))
    (nth_byte 2 (le_bytes z)) (nth_byte 3 (le_bytes z)) = z.
Proof.
  intros Hz. unfold le_bytes, nth_byte. simpl.
  rewrite le32_le_bytes. by apply Z.mod_small.
Qed.

Lemma word_at_app (pre l : list Byte.byte) (k : Z) :
  0 <= k ->
  word_at (Z.of_nat (length pre) + k) (pre ++ l) = word_at k l.
Proof.
  intros Hk. unfold word_at, nth_byte.
  replace (Z.to_nat (Z.of_nat (length pre) + k))
    with (length pre + Z.to_nat k)%nat by lia.
  rewrite <- !(Nat.add_assoc (length pre)).
  by rewrite !app_nth2_plus.
Qed.

Lemma word_at_le_bytes (z : Z) (l : list Byte.byte) :
  word_at 0 (le_bytes z ++ l) = le_bytes z.
Proof. done. Qed.

(** The [i]-th word of the CIGAR bytes. *)
Lemma word_at_cigar_bytes (ops : list (Z * Z)) :
  forall (tail : list Byte.byte) (i : nat) (op : Z * Z),
    ops !! i = Some op ->
    word_at (4 * Z.of_nat i) (cigar_bytes ops ++ tail)
    = le_bytes (op.2 * 16 + op.1).
Proof.
  induction ops as [|op0 ops IH]; intros tail i op Hi; [done|].
  unfold cigar_bytes. rewrite fmap_cons. cbn [concat].
  rewrite <- (assoc_L (++)). destruct i as [|i].
  - injection Hi as ->. apply word_at_le_bytes.
  - replace (4 * Z.of_nat (S i))
      with (Z.of_nat (length (le_bytes (op0.2 * 16 + op0.1)))
            + 4 * Z.of_nat i) by (simpl; lia).
    rewrite word_at_app by lia. by apply IH.
Qed.

(** Decoding one CIGAR word. *)
Lemma cigar_op_decoded (code len : Z) :
  0 <= code < 16 -> 0 <= len < 2 ^ 28 ->
  Z.land (len * 16 + code) BAM_CIGAR_MASK = code
  /\ Z.shiftr (len * 16 + code) BAM_CIGAR_SHIFT = len.
Proof.
  intros Hc Hl. unfold BAM_CIGAR_MASK, BAM_CIGAR_SHIFT.
  change 15 with (Z.ones 4). rewrite Z.land_ones, Z.shiftr_div_pow2 by lia.
  split; Z.to_euclidean_division_equations; lia.
Qed.

Lemma parse_cigar_layout (big : bool) (ops : list (Z * Z))
    (pre tail : list Byte.byte) :
  Forall (fun op => 0 <= op.1 < 16 /\ 0 <= op.2 < 2 ^ 28) ops ->
  parse_cigar big (pre ++ cigar_bytes ops ++ tail)
    (Z.of_nat (length pre)) (Z.of_nat (length ops))
  = (fun op => mkCigarOp (BAM_CIGAR_LOOKUP op.1) op.2) <$> ops.
Proof.
  intros Hops. unfold parse_cigar. rewrite Nat2Z.id.
  change (map ?f ?l) with (f <$> l).
  apply list_eq. intros i. rewrite !list_lookup_fmap.
  destruct (ops !! i) as [op|] eqn:Ei; simpl.
  - rewrite lookup_seq_lt by (by eapply lookup_lt_Some). simpl.
    rewrite cigar_word_decoded, word_at_app by lia.
    rewrite (word_at_cigar_bytes ops tail i op Ei).
    rewrite Forall_lookup in Hops. destruct (Hops i op Ei) as [Hc Hl].
    rewrite le32_of_le_bytes by lia.
    destruct (cigar_op_decoded op.1 op.2 Hc Hl) as [-> ->]. done.
  - apply lookup_ge_None in Ei. by rewrite lookup_seq_ge.
Qed.

Lemma le_bytes_shape (z : Z) :
  exists a b c d : Byte.byte,
    le_bytes z = [a; b; c; d] /\ le32 a b c d = z `mod` 2 ^ 32.
Proof. eexists _, _, _, _. split; [done|]. apply le32_le_bytes. Qed.

Lemma unpack_fields (bin mapq n : Z) :
  0 <= bin < 65536 -> 0 <= mapq < 256 -> 0 <= n < 256 ->
  let v := (bin * 65536 + mapq * 256 + n) `mod` 2 ^ 32 in
  Z.shiftr v 16 = bin /\ Z.land (Z.shiftr v 8) 255 = mapq /\ Z.land v 255 = n.
Proof.
  intros Hb Hm Hn v. subst v. rewrite Z.mod_small by lia.
  change 255 with (Z.ones 8). rewrite !Z.land_ones, !Z.shiftr_div_pow2 by lia.
  split_and!; Z.to_euclidean_division_equations; lia.
Qed.

Lemma unpack_flag (flag n : Z) :
  0 <= flag < 65536 -> 0 <= n < 65536 ->
  let v := (flag * 65536 + n) `mod` 2 ^ 32 in
  Z.shiftr v 16 = flag /\ Z.land v 65535 = n.
Proof.
  intros Hf Hn v. subst v. rewrite Z.mod_small by lia.
  change 65535 with (Z.ones 16). rewrite !Z.land_ones, !Z.shiftr_div_pow2 by lia.
  split_and!; Z.to_euclidean_division_equations; lia.
Qed.

(** X6.  Round trip through the record layout.  A record laid out as the
    format prescribes (block length, the eight core words, then name, CIGAR
    words and the remaining bytes, all little-endian) with every value
    within its field is loaded successfully, on either host byte order: each
    field of the alignment is the value that was laid out, the CIGAR
    operations are the ones laid out with their letters, the support data
    holds the payload, the stream stands right behind the record, and nothing
    is printed. *)
Theorem X6_decode_of_layout
    (junk : nat -> Byte.byte) (r : BamReaderPrivate.t C) (al : BamAlignment)
    (d : record_image) (rest : list Byte.byte) :
  well_formed d ->
  unread (m_stream r) = encode d ++ rest ->
  exists r' : BamReaderPrivate.t C,
    LoadNextAlignmentInternal junk r al = (true, decoded d al, r')
    /\ unread (m_stream r') = rest
    /\ position (m_stream r') = position (m_stream r) + 4 + block_length d
    /\ cerr r' = cerr r.
Proof.
  intros (Href & Hpos & Hbin & Hmapq & Hflag & Hqlen & Hmref & Hmpos & Hisize
          & Hname & Hcig & Hops & Hblock) Hunread.
  unfold int32 in *.
  assert (Hbl : 32 <= block_length d) by (unfold block_length; lia).
  unfold LoadNextAlignmentInternal, Read. rewrite Hunread. unfold encode.
  destruct (le_bytes_shape (block_length d)) as (a0 & a1 & a2 & a3 & -> & E0).
  destruct (le_bytes_shape (i_refID d)) as (b0 & b1 & b2 & b3 & -> & E1).
  destruct (le_bytes_shape (i_pos d)) as (c0 & c1 & c2 & c3 & -> & E2).
  destruct (le_bytes_shape
              (i_bin d * 65536 + i_mapq d * 256 + Z.of_nat (length (i_name d))))
    as (d0 & d1 & d2 & d3 & -> & E3).
  destruct (le_bytes_shape (i_flag d * 65536 + Z.of_nat (length (i_cigar d))))
    as (e0 & e1 & e2 & e3 & -> & E4).
  destruct (le_bytes_shape (i_query_len d)) as (f0 & f1 & f2 & f3 & -> & E5).
  destruct (le_bytes_shape (i_mate_ref d)) as (g0 & g1 & g2 & g3 & -> & E6).
  destruct (le_bytes_shape (i_mate_pos d)) as (h0 & h1 & h2 & h3 & -> & E7).
  destruct (le_bytes_shape (i_isize d)) as (k0 & k1 & k2 & k3 & -> & E8).
  simpl. rewrite block_length_decoded. unfold nth_byte. simpl. rewrite E0.
  rewrite (Z.mod_small (block_length d)) by lia.
  rewrite bool_decide_eq_false_2 by lia.
  rewrite !core_signed_decoded, !core_unsigned_decoded.
  unfold word_at, nth_byte. simpl.
  rewrite E1, E2, E3, E4, E5, E6, E7, E8.
  rewrite !to_int_mod by done.
  destruct (unpack_fields (i_bin d) (i_mapq d) (Z.of_nat (length (i_name d))))
    as (-> & -> & ->); [lia..|].
  destruct (unpack_flag (i_flag d) (Z.of_nat (length (i_cigar d))))
    as (-> & ->); [lia..|].
  rewrite (Z.mod_small (i_query_len d)) by lia.
  assert (Hdata : wrap32 (block_length d - BAM_CORE_SIZE)
                  = Z.of_nat (length (payload d))).
  { unfold wrap32, BAM_CORE_SIZE, block_length in *.
    rewrite Z.mod_small; lia. }
  rewrite Hdata, Nat2Z.id, !drop_0, take_app_length, drop_app_length.
  rewrite bool_decide_eq_true_2 by done.
  eexists. split.
  - f_equal. f_equal. unfold decoded.
    rewrite <- (parse_cigar_layout (m_isBigEndian r) (i_cigar d)
                  (i_name d) (i_rest d)).
    + by destruct al.
    + eapply Forall_impl; [exact Hops|]. simpl. lia.
  - simpl. split_and!; [done| |done]. unfold block_length. simpl. lia.
Qed.
End DecodingMore.

(** X3 on a record read by a big-endian and by a little-endian host. *)
Lemma X3_decoding_witness :
  let little := TestData.reader_on (TestData.core_record 3 77)
                  (RegionController.mkController None false) in
  let big :=
    BamReaderPrivate.mkReader (BamReaderPrivate.m_stream little) true [] 0 ""
      "" (RegionController.mkController None false) false [] [] [] [] in
  BamReaderPrivate.m_stream big = BamReaderPrivate.m_stream little
  /\ (BamReaderPrivate.LoadNextAlignmentInternal TestData.junk big
        BamTools.newBamAlignment).1
     = (BamReaderPrivate.LoadNextAlignmentInternal TestData.junk little
          BamTools.newBamAlignment).1.
Proof.
  intros little big.
  assert (Hs : BamReaderPrivate.m_stream big = BamReaderPrivate.m_stream little)
    by reflexivity.
  split; [exact Hs|].
  apply (proj1 (X3_decoding_independent_of_host_byte_order TestData.junk big
                  little BamTools.newBamAlignment Hs)).
Defined.

(** ** The reader, continued *)

Section ReaderMore.
Import BamTools BamReaderPrivate Prefetch BamReaderPointer.
Context {C : Type} `{RandomAccessController C}.
Variable junk : nat -> Byte.byte.

Lemma LoadNextAlignmentInternal_same_file (r r' : BamReaderPrivate.t C)
    (al al' : BamAlignment) (ok : bool) :
  LoadNextAlignmentInternal junk r al = (ok, al', r') -> same_file r r'.
Proof.
  unfold LoadNextAlignmentInternal, same_file.
  destruct (Read 4 (m_stream r)) as [got s1] eqn:E1.
  unfold Read in E1. injection E1 as _ <-.
  case_bool_decide; [by intros [= <- <- <-]|].
  simpl. case_bool_decide; [by intros [= <- <- <-]|].
  simpl. case_bool_decide; [by intros [= <- <- <-]|].
  case_bool_decide; by intros [= <- <- <-].
Qed.

Lemma LoadNextAlignmentInternal_threads (r r' : BamReaderPrivate.t C)
    (al al' : BamAlignment) (ok : bool) :
  LoadNextAlignmentInternal junk r al = (ok, al', r') ->
  pthread_calls r' = pthread_calls r /\ do_prefetch r' = do_prefetch r.
Proof.
  unfold LoadNextAlignmentInternal.
  destruct (Read 4 (m_stream r)) as [got s1] eqn:E1.
  case_bool_decide; [by intros [= <- <- <-]|].
  simpl. case_bool_decide; [by intros [= <- <- <-]|].
  simpl. case_bool_decide; [by intros [= <- <- <-]|].
  case_bool_decide; by intros [= <- <- <-].
Qed.

Lemma after_load_same_file (r : BamReaderPrivate.t C) (al : BamAlignment) :
  same_file r (after_load junk r al)
  /\ pthread_calls (after_load junk r al) = pthread_calls r
  /\ do_prefetch (after_load junk r al) = do_prefetch r.
Proof.
  unfold after_load, LoadNextAlignment.
  destruct (do_prefetch r) eqn:Hpre.
  - destruct (prefetch_alignments r) as [|[a|] rest]; by simpl.
  - destruct (LoadNextAlignmentInternal junk r al) as [[ok al'] r'] eqn:E.
    pose proof (LoadNextAlignmentInternal_same_file _ _ _ _ _ E).
    destruct (LoadNextAlignmentInternal_threads _ _ _ _ _ E) as [Hcalls Hp].
    split_and!; [done|done|congruence].
Qed.

Lemma after_loads_same_file (alignments : list BamAlignment) :
  forall r : BamReaderPrivate.t C,
    same_file r (after_loads junk alignments r)
    /\ pthread_calls (after_loads junk alignments r) = pthread_calls r
    /\ do_prefetch (after_loads junk alignments r) = do_prefetch r.
Proof.
  induction alignments as [|al alignments IH]; intros r; [done|].
  simpl. specialize (IH (after_load junk r al)).
  destruct (after_load_same_file r al) as (Hstep & Hc & Hp).
  destruct IH as (IH & IHc & IHp).
  unfold same_file in *. destruct IH as (-> & -> & -> & ->).
  split_and!; [apply Hstep..|congruence|congruence].
Qed.

Lemma StopPrefetch_stream (join_result : Z) (r : BamReaderPrivate.t C) :
  m_stream (StopPrefetch join_result r) = m_stream r
  /\ m_alignmentsBeginOffset (StopPrefetch join_result r)
     = m_alignmentsBeginOffset r
  /\ m_isBigEndian (StopPrefetch join_result r) = m_isBigEndian r
  /\ m_errorString (StopPrefetch join_result r) = m_errorString r
  /\ cerr (StopPrefetch join_result r) = cerr r.
Proof. unfold StopPrefetch. by destruct (do_prefetch r). Qed.

Lemma StopPrefetch_off (join_result : Z) (r : BamReaderPrivate.t C) :
  do_prefetch r = false -> StopPrefetch join_result r = r.
Proof. unfold StopPrefetch. by intros ->. Qed.

(** What a successful [Open] leaves behind. *)
Lemma Open_stream (env : open_env) (join_result : Z) (filename : string)
    (r0 r1 : BamReaderPrivate.t C) :
  Open env join_result filename r0 = (true, r1) ->
  exists bytes : list Byte.byte,
    file_content env = Some bytes
    /\ IsOpen (m_stream r1) = true
    /\ device (m_stream r1) = bytes
    /\ unread (m_stream r1) = drop (Z.to_nat (header_bytes env)) bytes
    /\ position (m_stream r1) = m_alignmentsBeginOffset r1
    /\ m_alignmentsBeginOffset r1
       = Z.of_nat (length (take (Z.to_nat (header_bytes env)) bytes)).
Proof.
  unfold Open. destruct (file_content env) as [bytes|]; [|done].
  intros Hopen. exists bytes. split; [done|].
  simpl in Hopen.
  destruct (isMultithreadingEnabled env); simpl in Hopen.
  - case_bool_decide; injection Hopen as <-; by simpl.
  - injection Hopen as <-. by simpl.
Qed.

(** A reader that [Open] left without a prefetch thread has prefetching
    off. *)
Lemma Open_unthreaded (env : open_env) (join_result : Z) (filename : string)
    (r0 r1 : BamReaderPrivate.t C) :
  Open env join_result filename r0 = (true, r1) ->
  pthread_calls r1 = [] -> do_prefetch r1 = false.
Proof.
  unfold Open. destruct (file_content env) as [bytes|]; [|done].
  simpl. destruct (isMultithreadingEnabled env); simpl.
  - case_bool_decide; intros [= <-]; simpl; intros Hcalls;
      by apply app_eq_nil in Hcalls as [_ ?].
  - by intros [= <-].
Qed.

Lemma Rewind_pthread_calls (join_result : Z) (streamError : string)
    (r : BamReaderPrivate.t C) :
  pthread_calls (Rewind join_result streamError r).2 = pthread_calls r.
Proof.
  unfold Rewind.
  destruct (Seek _ _ _ _) as [ok r'] eqn:E.
  assert (Hr' : pthread_calls r' = pthread_calls r).
  { change r' with (ok, r').2. rewrite <- E, Seek_pthread_calls. simpl.
    apply StopPrefetch_pthread_calls. }
  by destruct ok.
Qed.

(** X7.  [Rewind] after [Open], on a reader for which no prefetch thread
    has been created ([Open] found multithreading disabled).  Such a reader
    has prefetching off, and only its owner reads the stream.  Whatever the
    owner has loaded since the successful [Open], [Rewind] succeeds and puts
    the stream back exactly where [Open] left it, at the first alignment;
    there is still no thread and prefetching is still off, so the next load
    reads the stream itself and gets what the first load after [Open]
    got. *)
Theorem X7_Rewind_returns_to_first_alignment
    (env : open_env) (join_result : Z) (streamError filename : string)
    (r0 r1 : BamReaderPrivate.t C) (alignments : list BamAlignment)
    (al : BamAlignment) :
  Open env join_result filename r0 = (true, r1) ->
  pthread_calls r1 = [] ->
  let r2 := after_loads junk alignments r1 in
  do_prefetch r1 = false
  /\ do_prefetch r2 = false
  /\ exists r3 : BamReaderPrivate.t C,
       Rewind join_result streamError r2 = (true, r3)
       /\ m_stream r3 = m_stream r1
       /\ do_prefetch r3 = false
       /\ pthread_calls r3 = []
       /\ LoadNextAlignment junk r3 al
          = (let '(ok, al', r4) := LoadNextAlignmentInternal junk r3 al in
             Loaded ok al' r4)
       /\ (LoadNextAlignmentInternal junk r3 al).1
          = (LoadNextAlignmentInternal junk r1 al).1.
Proof.
  intros Hopen Hcalls r2.
  pose proof (Open_unthreaded env join_result filename r0 r1 Hopen Hcalls)
    as Hoff1.
  destruct (Open_stream env join_result filename r0 r1 Hopen)
    as (bytes & _ & Hisopen & Hdev & Hunread & Hpos & Hoff).
  destruct (after_loads_same_file alignments r1)
    as ((Hd & Ho & Hb & He) & Hcalls2 & Hoff2).
  fold r2 in Hd, Ho, Hb, He, Hcalls2, Hoff2.
  rewrite Hoff1 in Hoff2. rewrite Hcalls in Hcalls2.
  split; [done|]. split; [done|].
  pose proof (Rewind_pthread_calls join_result streamError r2) as Hcalls3.
  rewrite Hcalls2 in Hcalls3.
  destruct (StopPrefetch_stream join_result r2) as (Hs & Hb' & He' & _ & _).
  revert Hcalls3. unfold Rewind. simpl.
  set (ra := set_controller _ (StopPrefetch join_result r2)).
  assert (Hoff_a : do_prefetch ra = false)
    by (subst ra; simpl; apply StopPrefetch_do_prefetch).
  assert (Hsa : m_stream ra = m_stream r2) by (by subst ra).
  unfold Seek. rewrite (StopPrefetch_off join_result ra Hoff_a).
  rewrite Hsa, Ho, Hisopen. simpl.
  unfold StreamSeek. rewrite Hd, Hdev, Hb', Hb.
  rewrite bool_decide_eq_true_2
    by (rewrite Hoff, length_take; lia).
  simpl. intros Hcalls3.
  set (r3 := set_stream _ _).
  assert (Hstream : m_stream r3 = m_stream r1).
  { subst r3. simpl. rewrite Ho, Hisopen. clear Hsa.
    destruct (m_stream r1) as [o d u p]. simpl in *. subst.
    f_equal. rewrite Hoff, !length_take, Nat2Z.id.
    destruct (Nat.le_ge_cases (Z.to_nat (header_bytes env))
                (length (device (m_stream r2)))).
    - by rewrite Nat.min_l.
    - rewrite Nat.min_r by done. by rewrite !drop_ge. }
  assert (Hpre : do_prefetch r3 = false).
  { by subst r3. }
  exists r3. split_and!; [done|done|done|done| |].
  - unfold LoadNextAlignment. by rewrite Hpre.
  - apply LoadNextAlignmentInternal_local; [done|].
    subst r3 ra. simpl. congruence.
Qed.

(** X8.  A reader after [Close].  [Close] returns true exactly when the
    stream was not open or the device closes it; when the device throws on
    an open stream, [Close] returns false, keeps the stream as the device
    left it and sets the error text to its own message, a line feed, a tab
    and the text of the exception.  Either way prefetching is off, there
    are no references and no file name, and every reference name is unknown
    ([-1]).  After a [Close] that returned true the stream is closed:
    [GetNextAlignment] fails without touching the alignment or the reader,
    [Seek] fails with its message about an unopened file, and [Rewind]
    fails with that message wrapped into its own (again with a line feed
    and a tab between the two); the stream stays as it is. *)
Theorem X8_closed_reader_refuses
    (join_result : Z) (closing : close_outcome) (streamError : string)
    (r : BamReaderPrivate.t C) (al : BamAlignment)
    (refName : string) (p : Z) :
  let r' := (Close join_result closing r).2 in
  ((Close join_result closing r).1 = true
   <-> IsOpen (m_stream r) = false \/ closing = Closes)
  /\ (forall (what : string) (remains : BgzfStream),
        IsOpen (m_stream r) = true -> closing = CloseThrows what remains ->
        (Close join_result closing r).1 = false
        /\ m_stream r' = remains
        /\ m_errorString r'
           = "BamReader::Close: encountered error closing BAM file: "
             +:+ String "010" (String "009" what))
  /\ do_prefetch r' = false
  /\ m_references r' = [] /\ m_filename r' = EmptyString
  /\ GetReferenceID r' refName = -1
  /\ ((Close join_result closing r).1 = true ->
      IsOpen (m_stream r') = false
      /\ GetNextAlignment junk r' al = Some (Loaded false al r')
      /\ Seek join_result streamError p r'
         = (false,
            SetErrorString "BamReader::Seek"
              "cannot seek on unopened BAM file" r')
      /\ (Rewind join_result streamError r').1 = false
      /\ m_errorString (Rewind join_result streamError r').2
         = "BamReader::Rewind: could not rewind: "
           +:+ String "010" (String "009"
                 "BamReader::Seek: cannot seek on unopened BAM file")
      /\ m_stream (Rewind join_result streamError r').2 = m_stream r').
Proof.
  intros r'.
  destruct (StopPrefetch_stream join_result r) as (Hs & _).
  assert (Hoff : do_prefetch r' = false).
  { subst r'. unfold Close. simpl.
    destruct (IsOpen _); [destruct closing|];
      simpl; apply StopPrefetch_do_prefetch. }
  assert (Hrefs : m_references r' = [] /\ m_filename r' = EmptyString).
  { subst r'. unfold Close. simpl.
    by destruct (IsOpen _); [destruct closing|]. }
  destruct Hrefs as [Hrefs Hname].
  assert (Hstatus : (Close join_result closing r).1 = true
                    <-> IsOpen (m_stream r) = false \/ closing = Closes).
  { unfold Close. simpl. rewrite Hs.
    destruct (IsOpen (m_stream r)); [destruct closing|]; simpl;
      split; try done; try (by left); try (by right).
    by intros [|]. }
  assert (Hclosed : (Close join_result closing r).1 = true ->
                    IsOpen (m_stream r') = false).
  { subst r'. unfold Close. simpl. rewrite Hs.
    destruct (IsOpen (m_stream r)) eqn:E; [destruct closing|]; simpl;
      try done.
    intros _. by rewrite Hs. }
  split_and!; try done.
  - intros what remains Hopen ->. subst r'. unfold Close. simpl.
    rewrite Hs, Hopen. by simpl.
  - unfold GetReferenceID. rewrite Hrefs. reflexivity.
  - intros Hok. specialize (Hclosed Hok).
    split_and!; try done.
    + unfold GetNextAlignment, GetNextAlignment_bounded. by rewrite Hclosed.
    + unfold Seek. by rewrite Hclosed.
    + unfold Rewind, Seek. rewrite (StopPrefetch_off _ _ Hoff). simpl.
      by rewrite Hclosed.
    + unfold Rewind, Seek. rewrite (StopPrefetch_off _ _ Hoff). simpl.
      by rewrite Hclosed.
    + unfold Rewind, Seek. rewrite (StopPrefetch_off _ _ Hoff). simpl.
      by rewrite Hclosed.
Qed.

Lemma Close_queue (join_result : Z) (closing : close_outcome)
    (r : BamReaderPrivate.t C) :
  prefetch_alignments (Close join_result closing r).2 = prefetch_alignments r.
Proof.
  unfold Close. destruct (IsOpen _); [destruct closing|]; simpl;
    apply StopPrefetch_queue.
Qed.

Lemma Open_queue (env : open_env) (join_result : Z) (filename : string)
    (r : BamReaderPrivate.t C) :
  prefetch_alignments (Open env join_result filename r).2
  = prefetch_alignments r.
Proof.
  unfold Open. destruct (file_content env) as [bytes|]; simpl.
  - destruct (isMultithreadingEnabled env); simpl;
      [case_bool_decide; simpl|]; apply Close_queue.
  - apply Close_queue.
Qed.

(** X10.  Neither [Close] nor [Open] empties the queue of the prefetch
    worker.  A record that was read ahead and not yet taken when the reader
    is opened again is therefore the first one that [LoadNextAlignment]
    hands out after an [Open] that turns prefetching on; the stream of the
    new file is not read for it. *)
Theorem X10_Open_hands_out_what_was_queued
    (env : open_env) (join_result : Z) (closing : close_outcome)
    (filename : string)
    (r r1 : BamReaderPrivate.t C) (a : BamAlignment)
    (rest : list (option BamAlignment)) (al : BamAlignment) :
  Open env join_result filename r = (true, r1) ->
  do_prefetch r1 = true ->
  prefetch_alignments r = Some a :: rest ->
  prefetch_alignments (Close join_result closing r).2 = Some a :: rest
  /\ LoadNextAlignment junk r1 al
     = Loaded true a (set_prefetch_alignments rest r1)
  /\ m_stream (set_prefetch_alignments rest r1) = m_stream r1.
Proof.
  intros Hopen Hpre Hq.
  pose proof (Open_queue env join_result filename r) as Hkept.
  rewrite Hopen, Hq in Hkept. simpl in Hkept.
  split_and!.
  - by rewrite Close_queue.
  - unfold LoadNextAlignment. by rewrite Hpre, Hkept.
  - done.
Qed.

End ReaderMore.

(** *** The variant that returns a pointer *)

Section PointerFacts.
Import BamTools BamReaderPrivate BamReaderPointer.
Context {C : Type} `{RandomAccessController C}.
Variable junk : nat -> Byte.byte.

(** A load looks at the alignment it is given only to keep its name, bases
    and qualities. *)
Lemma LoadNextAlignmentInternal_text (r : BamReaderPrivate.t C)
    (a b : BamAlignment) :
  same_text a b ->
  (LoadNextAlignmentInternal junk r a).1.1
  = (LoadNextAlignmentInternal junk r b).1.1
  /\ (LoadNextAlignmentInternal junk r a).2
     = (LoadNextAlignmentInternal junk r b).2
  /\ ((LoadNextAlignmentInternal junk r a).1.1 = true ->
      (LoadNextAlignmentInternal junk r a).1.2
      = (LoadNextAlignmentInternal junk r b).1.2)
  /\ same_text (LoadNextAlignmentInternal junk r a).1.2 a.
Proof.
  intros (Hn & Hb & Hq). unfold LoadNextAlignmentInternal, same_text.
  destruct (Read 4 (m_stream r)) as [got s1].
  case_bool_decide; [done|]. simpl.
  case_bool_decide; [done|].
  destruct (Read BAM_CORE_SIZE s1) as [x s2]. simpl.
  case_bool_decide; [done|].
  case_bool_decide; [|done]. simpl.
  split_and!; try done. intros _.
  destruct a, b. simpl in Hn, Hb, Hq. subst. reflexivity.
Qed.

(** One load by either variant; the variant with a reference is given an
    alignment with the name, bases and qualities of a new one, unless the
    record comes from the queue. *)
Lemma LoadNextAlignment_pointer (r : BamReaderPrivate.t C)
    (al : BamAlignment) :
  do_prefetch r = true \/ same_text al newBamAlignment ->
  match LoadNextAlignment junk r al with
  | Polling => Prefetch.LoadNextAlignment_ptr junk r = None
  | Loaded false _ r' => Prefetch.LoadNextAlignment_ptr junk r = Some (None, r')
  | Loaded true al' r' =>
      Prefetch.LoadNextAlignment_ptr junk r = Some (Some al', r')
      /\ (do_prefetch r' = true \/ same_text al' newBamAlignment)
  end.
Proof.
  intros Hinv. unfold Prefetch.LoadNextAlignment_ptr, LoadNextAlignment.
  destruct (do_prefetch r) eqn:Epre.
  - destruct (prefetch_alignments r) as [|[a|] rest]; [done| |done].
    split; [done|]. by left.
  - destruct Hinv as [|Htext]; [done|].
    destruct (LoadNextAlignmentInternal_text r al newBamAlignment Htext)
      as (Hok & Hr & Hal & Htext').
    destruct (LoadNextAlignmentInternal junk r al) as [[ok1 a1] r1].
    destruct (LoadNextAlignmentInternal junk r newBamAlignment)
      as [[ok2 a2] r2].
    simpl in *. subst ok2 r2. destruct ok1; [|done].
    rewrite <- (Hal eq_refl). split; [done|]. right.
    destruct Htext as (Hn & Hb & Hq), Htext' as (Hn' & Hb' & Hq').
    unfold same_text. split_and!; congruence.
Qed.

Lemma read_until_overlap_pointer (fuel : nat) :
  forall (state : RegionState) (r : BamReaderPrivate.t C)
         (al : BamAlignment),
    do_prefetch r = true \/ same_text al newBamAlignment ->
    read_until_overlap_ptr junk fuel state r al
    = as_pointer <$> read_until_overlap junk fuel state r al.
Proof.
  induction fuel as [|fuel IH]; intros state r al Hinv; simpl.
  - by destruct (is_overlap state).
  - destruct (is_overlap state); [done|].
    pose proof (LoadNextAlignment_pointer r al Hinv) as Hload.
    destruct (LoadNextAlignment junk r al) as [[|] a1 r1|].
    + destruct Hload as [-> Hinv'].
      destruct (is_after _); [done|]. by apply IH.
    + by rewrite Hload.
    + by rewrite Hload.
Qed.

(** The call ends, with or without a region. *)
Lemma GetNextAlignment_total (r : BamReaderPrivate.t C) (al : BamAlignment) :
  is_Some (GetNextAlignment junk r al).
Proof.
  unfold GetNextAlignment, GetNextAlignment_bounded.
  destruct (IsOpen (m_stream r)); simpl; [|by eexists].
  destruct (HasRegion _ && negb _); [by eexists|].
  destruct (LoadNextAlignment junk r al) as [[|] a1 r1|] eqn:E;
    [|by eexists|by eexists].
  destruct (is_after _); [by eexists|].
  apply read_until_overlap_total.
  apply LoadNextAlignment_frame in E as (_ & _ & _ & Hlt). by apply Hlt.
Qed.


End PointerFacts.

(** ** The sorter, continued *)

(** *** The merge *)

Section MergeFacts.
Import BamTools ReadSorter SorterNotions.

(** *** The order of [Sort::ByPosition] *)

Lemma ByPosition_asym (a b : BamAlignment) :
  Sort.ByPosition a b = true -> not_after a b.
Proof.
  unfold not_after, Sort.ByPosition, Sort.ref_lt.
  repeat case_bool_decide; (done || lia).
Qed.

Lemma not_after_trans (a b c : BamAlignment) :
  not_after a b -> not_after b c -> not_after a c.
Proof.
  unfold not_after, Sort.ByPosition, Sort.ref_lt.
  repeat case_bool_decide; (done || lia).
Qed.

Lemma not_after_total (a b : BamAlignment) :
  Sort.ByPosition a b = false -> not_after b a.
Proof. done. Qed.

(** *** [std::stable_sort] *)

Lemma stable_insert_perm {A : Type} (lt : A -> A -> bool) (x : A)
    (l : list A) :
  stable_insert lt x l ≡ₚ x :: l.
Proof.
  induction l as [|y l IH]; simpl; [done|].
  destruct (lt y x); [|done]. rewrite IH. apply Permutation_swap.
Qed.

Lemma stable_sort_perm {A : Type} (lt : A -> A -> bool) (l : list A) :
  stable_sort lt l ≡ₚ l.
Proof.
  induction l as [|x l IH]; simpl; [done|].
  fold (stable_sort lt l). by rewrite stable_insert_perm, IH.
Qed.

Lemma stable_insert_sorted (x : BamAlignment) (l : list BamAlignment) :
  StronglySorted not_after l ->
  StronglySorted not_after (stable_insert Sort.ByPosition x l).
Proof.
  induction 1 as [|y l Hl IH Hy]; simpl.
  - by repeat constructor.
  - destruct (Sort.ByPosition y x) eqn:E.
    + constructor; [done|].
      rewrite stable_insert_perm. constructor; [|done].
      by apply ByPosition_asym.
    + constructor; [by constructor|].
      constructor; [done|].
      eapply Forall_impl; [exact Hy|]. intros z Hz.
      by apply not_after_trans with y.
Qed.

Lemma stable_sort_sorted (l : list BamAlignment) :
  StronglySorted not_after (stable_sort Sort.ByPosition l).
Proof.
  induction l as [|x l IH]; simpl; [constructor|].
  by apply stable_insert_sorted.
Qed.

(** *** The queue of the merge *)

Lemma multiset_insert_perm (el : SortedMergeElement)
    (reads : list SortedMergeElement) :
  multiset_insert el reads ≡ₚ el :: reads.
Proof.
  induction reads as [|y reads IH]; simpl; [done|].
  destruct (SortedMergeElement_lt el y); [done|].
  rewrite IH. apply Permutation_swap.
Qed.

Lemma multiset_insert_sorted (el : SortedMergeElement)
    (reads : list SortedMergeElement) :
  StronglySorted element_not_after reads ->
  StronglySorted element_not_after (multiset_insert el reads).
Proof.
  induction 1 as [|y reads Hreads IH Hy]; simpl.
  - by repeat constructor.
  - destruct (SortedMergeElement_lt el y) eqn:E.
    + constructor; [by constructor|].
      assert (Hle : element_not_after el y) by (by apply ByPosition_asym).
      constructor; [done|].
      eapply Forall_impl; [exact Hy|]. intros z Hz.
      by apply not_after_trans with (read y).
    + constructor; [done|].
      rewrite multiset_insert_perm. by constructor.
Qed.

(** Taking a record from a reader. *)
Lemma concat_take_head (readers : list (list BamAlignment)) :
  forall (i : nat) (al : BamAlignment) (rest : list BamAlignment),
    readers !! i = Some (al :: rest) ->
    concat readers ≡ₚ al :: concat (<[i := rest]> readers).
Proof.
  induction readers as [|x readers IH]; intros i al rest Hi; [done|].
  destruct i as [|i]; simpl in *.
  - by injection Hi as ->.
  - rewrite (IH i al rest Hi). by rewrite Permutation_middle.
Qed.

Lemma merge_loop_perm (fuel : nat) :
  forall (reads : list SortedMergeElement)
         (readers : list (list BamAlignment))
         (output out : list BamAlignment),
    merge_loop fuel reads readers output = Some out ->
    all_queued reads readers ->
    out ≡ₚ output ++ (read <$> reads) ++ concat readers.
Proof.
  induction fuel as [|fuel IH]; intros reads readers output out Hrun Hall.
  - destruct reads as [|el reads]; [|done]. injection Hrun as <-.
    assert (Hempty : concat readers = []).
    { apply concat_nil_Forall, Forall_lookup. intros i rest Hi.
      destruct rest as [|a rest]; [done|].
      destruct (Hall i (a :: rest) Hi) as (el & Hel & _); [done|].
      by apply elem_of_nil in Hel. }
    by rewrite Hempty, !app_nil_r.
  - destruct reads as [|el reads].
    { injection Hrun as <-.
      assert (Hempty : concat readers = []).
      { apply concat_nil_Forall, Forall_lookup. intros i rest Hi.
        destruct rest as [|a rest]; [done|].
        destruct (Hall i (a :: rest) Hi) as (el & Hel & _); [done|].
        by apply elem_of_nil in Hel. }
      by rewrite Hempty, !app_nil_r. }
    simpl in Hrun. unfold reader_GetNextAlignment in Hrun.
    destruct (readers !! source_reader el) as [[|al rest]|] eqn:Er.
    + apply IH in Hrun.
      * rewrite Hrun. simpl. by rewrite <- (assoc_L (++)).
      * intros i rest Hi Hne.
        destruct (Hall i rest Hi Hne) as (el' & Hel' & Hsrc).
        apply elem_of_cons in Hel' as [->|Hel']; [congruence|].
        by exists el'.
    + apply IH in Hrun.
      * rewrite Hrun, multiset_insert_perm. simpl.
        rewrite (concat_take_head readers _ al rest Er).
        rewrite <- (assoc_L (++)). simpl.
        apply Permutation_app_head. by rewrite <- Permutation_middle.
      * intros i rest' Hi Hne.
        destruct (decide (i = source_reader el)) as [->|Hi'].
        -- exists (mkElement al (source_reader el)).
           split; [|done]. rewrite multiset_insert_perm. by left.
        -- rewrite list_lookup_insert_ne in Hi by done.
           destruct (Hall i rest' Hi Hne) as (el' & Hel' & Hsrc).
           apply elem_of_cons in Hel' as [->|Hel']; [congruence|].
           exists el'. split; [|done]. rewrite multiset_insert_perm.
           by right.
    + apply IH in Hrun.
      * rewrite Hrun. simpl. by rewrite <- (assoc_L (++)).
      * intros i rest Hi Hne.
        destruct (Hall i rest Hi Hne) as (el' & Hel' & Hsrc).
        apply elem_of_cons in Hel' as [->|Hel']; [congruence|].
        by exists el'.
Qed.


Lemma merge_ready_step (reads : list SortedMergeElement)
    (readers : list (list BamAlignment)) (i : nat) (al : BamAlignment)
    (rest : list BamAlignment) :
  merge_ready reads readers ->
  readers !! i = Some (al :: rest) ->
  merge_ready (multiset_insert (mkElement al i) reads) (<[i := rest]> readers).
Proof.
  intros (Hsorted & Hruns & Hheads) Hi.
  assert (Hrun : StronglySorted not_after (al :: rest))
    by (by eapply Forall_lookup_1 in Hruns).
  apply StronglySorted_cons in Hrun as [Hal Hrest].
  split_and!.
  - by apply multiset_insert_sorted.
  - by apply Forall_insert.
  - intros el rest' Hel Hlook. rewrite multiset_insert_perm in Hel.
    destruct (decide (source_reader el = i)) as [Hsrc|Hsrc].
    + rewrite Hsrc, list_lookup_insert_eq in Hlook
        by (by eapply lookup_lt_Some).
      injection Hlook as <-.
      apply elem_of_cons in Hel as [->|Hel]; [done|].
      rewrite <- Hsrc in Hi. specialize (Hheads el _ Hel Hi).
      by apply Forall_cons in Hheads as [_ ?].
    + rewrite list_lookup_insert_ne in Hlook by done.
      apply elem_of_cons in Hel as [->|Hel]; [done|].
      by apply (Hheads el).
Qed.

Lemma merge_ready_tail (el : SortedMergeElement)
    (reads : list SortedMergeElement) (readers : list (list BamAlignment)) :
  merge_ready (el :: reads) readers -> merge_ready reads readers.
Proof.
  intros (Hsorted & Hruns & Hheads). split_and!; [|done|].
  - by apply StronglySorted_cons in Hsorted as [_ ?].
  - intros el' rest Hel. apply Hheads. by right.
Qed.

Lemma merge_loop_sorted (fuel : nat) :
  forall (reads : list SortedMergeElement)
         (readers : list (list BamAlignment))
         (output out : list BamAlignment),
    merge_loop fuel reads readers output = Some out ->
    merge_ready reads readers ->
    StronglySorted not_after output ->
    (forall x el, x ∈ output -> el ∈ reads -> not_after x (read el)) ->
    StronglySorted not_after out.
Proof.
  induction fuel as [|fuel IH];
    intros reads readers output out Hrun Hready Hout Hbound.
  - destruct reads; [|done]. by injection Hrun as <-.
  - destruct reads as [|el reads]; [by injection Hrun as <-|].
    simpl in Hrun.
    assert (Hout' : StronglySorted not_after (output ++ [read el])).
    { apply StronglySorted_app_2; [|done|by repeat constructor].
      intros x y Hx Hy. apply list_elem_of_singleton in Hy as ->.
      apply Hbound; [done|by left]. }
    assert (Htail : forall el', el' ∈ reads -> not_after (read el) (read el')).
    { destruct Hready as (Hsorted & _ & _).
      apply StronglySorted_cons in Hsorted as [Hel _].
      intros el' Hel'. by eapply Forall_forall in Hel. }
    unfold reader_GetNextAlignment in Hrun.
    destruct (readers !! source_reader el) as [[|al rest]|] eqn:Er.
    + eapply IH; [exact Hrun|by eapply merge_ready_tail|done|].
      intros x el' Hx Hel'. apply elem_of_app in Hx as [Hx|Hx].
      * apply Hbound; [done|by right].
      * apply list_elem_of_singleton in Hx as ->. by apply Htail.
    + assert (Hal : not_after (read el) al).
      { destruct Hready as (_ & _ & Hheads).
        specialize (Hheads el _ ltac:(by left) Er).
        by apply Forall_cons in Hheads as [? _]. }
      eapply IH; [exact Hrun| |done|].
      * apply merge_ready_step; [by eapply merge_ready_tail|done].
      * intros x el' Hx Hel'. rewrite multiset_insert_perm in Hel'.
        apply elem_of_app in Hx as [Hx|Hx].
        -- apply elem_of_cons in Hel' as [->|Hel'].
           ++ apply not_after_trans with (read el); [|done].
              apply Hbound; [done|by left].
           ++ apply Hbound; [done|by right].
        -- apply list_elem_of_singleton in Hx as ->.
           apply elem_of_cons in Hel' as [->|Hel']; [done|by apply Htail].
    + eapply IH; [exact Hrun|by eapply merge_ready_tail|done|].
      intros x el' Hx Hel'. apply elem_of_app in Hx as [Hx|Hx].
      * apply Hbound; [done|by right].
      * apply list_elem_of_singleton in Hx as ->. by apply Htail.
Qed.

(** The first loop. *)
Lemma seed_reads_spec (n : nat) :
  forall (ctr : nat) (readers readers' : list (list BamAlignment))
         (reads reads' : list SortedMergeElement),
    seed_reads n ctr readers reads = (reads', readers') ->
    (read <$> reads') ++ concat readers' ≡ₚ (read <$> reads) ++ concat readers
    /\ length readers' = length readers
    /\ (queued_below ctr reads readers ->
        queued_below (ctr + n) reads' readers')
    /\ (merge_ready reads readers -> merge_ready reads' readers').
Proof.
  induction n as [|n IH]; intros ctr readers readers' reads reads' Hseed.
  - injection Hseed as <- <-. by rewrite Nat.add_0_r.
  - simpl in Hseed. unfold reader_GetNextAlignment in Hseed.
    destruct (readers !! ctr) as [[|al rest]|] eqn:Er.
    + apply IH in Hseed as (Hperm & Hlen & Hq & Hready).
      split_and!; [done|done| |done].
      intros Hbelow. rewrite <- Nat.add_succ_comm. apply Hq.
      intros i rest Hi Hlook Hne.
      destruct (decide (i = ctr)) as [->|Hi']; [congruence|].
      apply (Hbelow i rest); [lia|done|done].
    + apply IH in Hseed as (Hperm & Hlen & Hq & Hready).
      split_and!.
      * rewrite Hperm, multiset_insert_perm. simpl.
        rewrite (concat_take_head readers ctr al rest Er).
        by rewrite <- Permutation_middle.
      * by rewrite Hlen, length_insert.
      * intros Hbelow. rewrite <- Nat.add_succ_comm. apply Hq.
        intros i rest' Hi Hlook Hne.
        destruct (decide (i = ctr)) as [->|Hi'].
        -- exists (mkElement al ctr). split; [|done].
           rewrite multiset_insert_perm. by left.
        -- rewrite list_lookup_insert_ne in Hlook by done.
           destruct (Hbelow i rest') as (el & Hel & Hsrc); [lia|done|done|].
           exists el. split; [|done]. rewrite multiset_insert_perm. by right.
      * intros Hr. apply Hready. by apply merge_ready_step.
    + apply IH in Hseed as (Hperm & Hlen & Hq & Hready).
      split_and!; [done|done| |done].
      intros Hbelow. rewrite <- Nat.add_succ_comm. apply Hq.
      intros i rest Hi Hlook Hne.
      destruct (decide (i = ctr)) as [->|Hi']; [congruence|].
      apply (Hbelow i rest); [lia|done|done].
Qed.

(** The merge of the opened readers: its result is a rearrangement of the
    records of all readers; it is in order when every run is. *)
Lemma merge_readers_spec (readers : list (list BamAlignment)) :
  exists out : list BamAlignment,
    merge_readers readers = Some out
    /\ out ≡ₚ concat readers
    /\ (Forall (StronglySorted not_after) readers ->
        StronglySorted not_after out).
Proof.
  destruct (merge_readers_total readers) as [out Hout]. exists out.
  split; [done|]. unfold merge_readers in Hout.
  destruct (seed_reads (length readers) 0 readers []) as [reads readers']
    eqn:Hseed.
  apply seed_reads_spec in Hseed as (Hperm & Hlen & Hq & Hready).
  split.
  - rewrite (merge_loop_perm _ _ _ _ _ Hout); [simpl; by rewrite Hperm|].
    assert (Hnone : queued_below 0 [] readers) by (intros ? ? ?; lia).
    intros i rest Hi Hne. apply (Hq Hnone i rest); [|done..].
    apply lookup_lt_Some in Hi. lia.
  - intros Hruns. eapply merge_loop_sorted; [exact Hout| |constructor|].
    + apply Hready. split_and!; [constructor|done|].
      intros el rest Hel. by apply elem_of_nil in Hel.
    + intros x el Hx. by apply elem_of_nil in Hx.
Qed.

End MergeFacts.

(** *** Spilling the runs *)

Section SpillFacts.
Import BamTools ReadSorter SorterNotions.
Variable can_create : string -> bool.
Hypothesis creatable : forall f : string, can_create f = true.

Lemma SortBuffer_comparator (s : ReadSorter.t) (buffer : list BamAlignment) :
  SortBuffer s buffer = stable_sort (comparator (sort_order s)) buffer.
Proof. unfold SortBuffer, ogeSortMt. by destruct (nothreads s), (sort_order s). Qed.

Lemma SortBuffer_config (s s' : ReadSorter.t) (buffer : list BamAlignment) :
  sort_order s' = sort_order s ->
  SortBuffer s' buffer = SortBuffer s buffer.
Proof. intros Ho. by rewrite !SortBuffer_comparator, Ho. Qed.

Lemma run_files_config (s s' : ReadSorter.t) (n0 : Z)
    (runs : list (list BamAlignment)) :
  sort_order s' = sort_order s -> tmp_file_dir s' = tmp_file_dir s ->
  m_tempFilenameStub s' = m_tempFilenameStub s ->
  run_files s' n0 runs = run_files s n0 runs.
Proof.
  intros Ho Hd Hs. unfold run_files. apply imap_ext. intros i run _.
  unfold temp_name. by rewrite Hd, Hs, (SortBuffer_config s s' run Ho).
Qed.

Lemma run_files_app (s : ReadSorter.t) (n0 : Z)
    (runs1 runs2 : list (list BamAlignment)) :
  run_files s n0 (runs1 ++ runs2)
  = run_files s n0 runs1
    ++ run_files s (n0 + Z.of_nat (length runs1)) runs2.
Proof.
  unfold run_files. rewrite imap_app. f_equal.
  apply imap_ext. intros i run _. simpl. do 2 f_equal. lia.
Qed.

Lemma write_files_app (files1 files2 : list (string * list BamAlignment))
    (d : gmap string (list BamAlignment)) :
  write_files (files1 ++ files2) d = write_files files2 (write_files files1 d).
Proof. unfold write_files. by rewrite fold_left_app. Qed.

Lemma spilled_refl (s : ReadSorter.t) :
  (nothreads s = true -> thread_pool s = []) -> spilled s s [].
Proof.
  intros Hpool. unfold spilled. simpl.
  rewrite Z.add_0_r, app_nil_r. by split_and!.
Qed.

Lemma spilled_trans (s s1 s2 : ReadSorter.t)
    (runs1 runs2 : list (list BamAlignment)) :
  spilled s s1 runs1 -> spilled s1 s2 runs2 -> spilled s s2 (runs1 ++ runs2).
Proof.
  intros (Ho & Hn & Ha & Hd & Hs & Hh & Hsr & Hmr & Hk & He & Hr & Hf & Hw & Hp)
         (Ho' & Hn' & Ha' & Hd' & Hs' & Hh' & Hsr' & Hmr' & Hk' & He' & Hr' & Hf'
          & Hw' & Hp').
  rewrite (run_files_config s s1) in Hf', Hw' by done.
  rewrite Hr in Hf', Hw'.
  unfold spilled. rewrite run_files_app, write_files_app, fmap_app.
  rewrite length_app, Nat2Z.inj_add.
  split_and!; try congruence.
  - rewrite Hr', Hr. lia.
  - by rewrite Hf', Hf, (assoc_L (++)).
  - done.
Qed.

Lemma CreateSortedTempFile_spilled (buffer : list BamAlignment)
    (s : ReadSorter.t) :
  (nothreads s = true -> thread_pool s = []) ->
  spilled s (CreateSortedTempFile can_create buffer s).2 [buffer]
  /\ source (CreateSortedTempFile can_create buffer s).2 = source s.
Proof.
  intros Hpool. unfold CreateSortedTempFile, spilled, run_files, write_files.
  simpl. rewrite Z.add_0_r.
  change (tmp_file_dir s +:+ m_tempFilenameStub s +:+ pretty (m_numberOfRuns s))
    with (temp_name s (m_numberOfRuns s)).
  destruct (nothreads s) eqn:En.
  - unfold WriteTempFile. rewrite creatable. simpl.
    unfold settled_disk. simpl. rewrite Hpool by done. simpl.
    rewrite En. by split_and!.
  - simpl. unfold settled_disk. simpl. rewrite fold_left_app. simpl.
    rewrite En. by split_and!.
Qed.

Lemma set_source_spilled (s s' : ReadSorter.t) (v : list BamAlignment)
    (runs : list (list BamAlignment)) :
  spilled s s' runs -> spilled s (set_source v s') runs.
Proof. done. Qed.


(** The reading loop: the records it has seen are, in their order, in the
    runs it has spilled and in the buffer it returns. *)
Lemma fill_buffers_spec (input : list BamAlignment) :
  forall (buffer : list BamAlignment) (s : ReadSorter.t),
    (nothreads s = true -> thread_pool s = []) ->
    exists runs : list (list BamAlignment),
      concat runs ++ (fill_buffers can_create input buffer s).1
      = buffer ++ input
      /\ spilled s (fill_buffers can_create input buffer s).2 runs
      /\ source (fill_buffers can_create input buffer s).2 = []
      /\ (input <> [] -> (fill_buffers can_create input buffer s).1 <> [])
      /\ (1 <= alignments_per_tempfile s ->
          Z.of_nat (length buffer) <= alignments_per_tempfile s ->
          Forall (fun run => Z.of_nat (length run) = alignments_per_tempfile s)
            runs
          /\ Z.of_nat (length (fill_buffers can_create input buffer s).1)
             <= alignments_per_tempfile s)
      /\ (alignments_per_tempfile s <= 0 ->
          runs ++ [(fill_buffers can_create input buffer s).1]
          = buffer :: ((fun a => [a]) <$> input)).
Proof.
  induction input as [|al input IH]; intros buffer s Hpool.
  - exists []. simpl. rewrite app_nil_r.
    split_and!; try done.
    apply set_source_spilled. by apply spilled_refl.
  - simpl. case_bool_decide as Hfull; simpl.
    + (* the buffer is full: it is spilled *)
      destruct (CreateSortedTempFile_spilled buffer s Hpool) as [Hsp _].
      set (s1 := (CreateSortedTempFile can_create buffer s).2) in *.
      assert (Hpool1 : nothreads s1 = true -> thread_pool s1 = [])
        by (destruct Hsp as (_&_&_&_&_&_&_&_&_&_&_&_&_&?); done).
      assert (Hk : alignments_per_tempfile s1 = alignments_per_tempfile s)
        by (destruct Hsp as (_&_&?&_); done).
      destruct (IH [al] s1 Hpool1) as (runs & Hcat & Hsp' & Hsrc & Hne & Hsz & Hz).
      exists (buffer :: runs). simpl.
      split_and!.
      * rewrite <- (assoc_L (++)), Hcat. done.
      * apply (spilled_trans s s1 _ [buffer] runs); done.
      * done.
      * intros _. destruct input as [|a input]; [done|]. apply Hne. done.
      * intros Hone Hlen. rewrite Hk in Hsz.
        destruct Hsz as [Hruns Hlast]; [done|simpl; lia|].
        split; [|done]. constructor; [lia|done].
      * intros Hzero. rewrite Hk in Hz. by rewrite (Hz Hzero).
    + (* there is room *)
      destruct (IH (buffer ++ [al]) s Hpool)
        as (runs & Hcat & Hsp' & Hsrc & Hne & Hsz & Hz).
      exists runs.
      split_and!.
      * rewrite Hcat. by rewrite <- (assoc_L (++)).
      * done.
      * done.
      * intros _. destruct input as [|a input]; [|by apply Hne].
        simpl. by destruct buffer.
      * intros Hone Hlen. apply Hsz; [done|]. rewrite length_app. simpl. lia.
      * intros Hzero. lia.
Qed.

(** Running the jobs of the pool. *)
Lemma run_jobs_spec (pool : list TempFileWriteJob) :
  forall s : ReadSorter.t,
    fold_left (fun s job => runJob can_create job s) pool s
    = set_disk
        (fold_left
           (fun d job => <[job_filename job := SortBuffer s (job_buffer job)]> d)
           pool (disk s)) s.
Proof.
  induction pool as [|job pool IH]; intros s; simpl; [by destruct s|].
  rewrite IH. unfold runJob, WriteTempFile. rewrite creatable. simpl.
  done.
Qed.

Lemma waitForJobCompletion_spec (s : ReadSorter.t) :
  waitForJobCompletion can_create s
  = set_disk (settled_disk s) (set_thread_pool [] s).
Proof. unfold waitForJobCompletion. by rewrite run_jobs_spec. Qed.


(** [GenerateSortedRuns] on a sorter whose thread pool is empty. *)
Lemma GenerateSortedRuns_spec (s : ReadSorter.t) :
  thread_pool s = [] ->
  exists runs : list (list BamAlignment),
    (GenerateSortedRuns can_create s).1 = true
    /\ concat runs = source s
    /\ spilled (set_header_SortOrder (header_order (sort_order s)) s)
         (GenerateSortedRuns can_create s).2 runs
    /\ disk (GenerateSortedRuns can_create s).2
       = write_files (run_files s (m_numberOfRuns s) runs) (disk s)
    /\ thread_pool (GenerateSortedRuns can_create s).2 = []
    /\ source (GenerateSortedRuns can_create s).2 = []
    /\ (1 <= alignments_per_tempfile s ->
        exists (full : list (list BamAlignment)) (last : list BamAlignment),
          runs = full ++ (if bool_decide (last = []) then [] else [last])
          /\ Forall (fun run =>
                       Z.of_nat (length run) = alignments_per_tempfile s) full
          /\ Z.of_nat (length last) <= alignments_per_tempfile s
          /\ (source s <> [] -> last <> []))
    /\ (alignments_per_tempfile s <= 0 -> source s <> [] ->
        runs = [] :: ((fun a => [a]) <$> source s)).
Proof.
  intros Hpool. unfold GenerateSortedRuns.
  set (s0 := set_header_SortOrder (header_order (sort_order s)) s).
  assert (Hpool0 : nothreads s0 = true -> thread_pool s0 = []) by done.
  destruct (fill_buffers_spec (source s0) [] s0 Hpool0)
    as (runs & Hcat & Hsp & Hsrc & Hne & Hsz & Hz).
  replace (match sort_order s0 with
           | SORT_NAME => fill_buffers can_create (source s0) [] s0
           | SORT_POSITION => fill_buffers can_create (source s0) [] s0
           end) with (fill_buffers can_create (source s0) [] s0)
    by (by destruct (sort_order s0)).
  destruct (fill_buffers can_create (source s0) [] s0) as [buffer s1] eqn:Efill.
  simpl in Hcat, Hsp, Hsrc, Hne, Hsz, Hz.
  assert (Hpool1 : nothreads s1 = true -> thread_pool s1 = [])
    by (destruct Hsp as (_&_&_&_&_&_&_&_&_&_&_&_&_&?); done).
  set (s2 := match buffer with
             | [] => s1
             | _ :: _ => (CreateSortedTempFile can_create buffer s1).2
             end).
  set (runs_all := runs ++ (if bool_decide (buffer = []) then [] else [buffer])).
  assert (Hsp2 : spilled s0 s2 runs_all /\ source s2 = []).
  { subst s2 runs_all. destruct buffer as [|a buffer].
    - rewrite bool_decide_eq_true_2 by done. by rewrite app_nil_r.
    - rewrite bool_decide_eq_false_2 by done.
      destruct (CreateSortedTempFile_spilled (a :: buffer) s1 Hpool1)
        as [Hsp1 Hsrc1].
      split; [|congruence]. by apply (spilled_trans s0 s1). }
  destruct Hsp2 as [Hsp2 Hsrc2].
  assert (Hcat2 : concat runs_all = source s).
  { subst runs_all. rewrite concat_app, <- Hcat.
    case_bool_decide as Hb; [by rewrite Hb|]. simpl. by rewrite app_nil_r. }
  pose proof Hsp2 as
    (Ho & Hn & Ha & Hd & Hs & Hh & Hsr & Hmr & Hk & He & Hr & Hf & Hw & Hp).
  exists runs_all.
  assert (Hsettled0 : settled_disk s0 = disk s)
    by (unfold settled_disk; subst s0; simpl; by rewrite Hpool).
  rewrite Hsettled0 in Hw.
  assert (Hsizes :
    1 <= alignments_per_tempfile s ->
    exists (full : list (list BamAlignment)) (last : list BamAlignment),
      runs_all = full ++ (if bool_decide (last = []) then [] else [last])
      /\ Forall (fun run => Z.of_nat (length run) = alignments_per_tempfile s)
           full
      /\ Z.of_nat (length last) <= alignments_per_tempfile s
      /\ (source s <> [] -> last <> [])).
  { intros Hone. exists runs, buffer.
    destruct Hsz as [Hfull Hlast]; [done|simpl; lia|]. done. }
  assert (Hzero :
    alignments_per_tempfile s <= 0 -> source s <> [] ->
    runs_all = [] :: ((fun a => [a]) <$> source s)).
  { intros Hk0 Hsome. subst runs_all.
    rewrite bool_decide_eq_false_2 by (by apply Hne). by apply Hz. }
  destruct (nothreads s2) eqn:En2; simpl.
  - (* without threads the files are written already *)
    unfold settled_disk in Hw. rewrite Hp in Hw by done. simpl in Hw.
    split_and!; try done. by apply Hp.
  - rewrite waitForJobCompletion_spec. simpl.
    split_and!; try done.
    unfold spilled. simpl. unfold settled_disk at 1. simpl.
    split_and!; try done.
    + by rewrite En2.
    + by rewrite Hsettled0.
Qed.

End SpillFacts.

(** *** From the input to the output *)

Section SortedOutput.
Import BamTools ReadSorter SorterNotions.

Lemma temp_name_inj (s : ReadSorter.t) (j k : Z) :
  temp_name s j = temp_name s k -> j = k.
Proof.
  unfold temp_name. intros Heq.
  apply (inj (String.app _)) in Heq. apply (inj (String.app _)) in Heq.
  by apply (inj pretty) in Heq.
Qed.

Lemma run_files_names (s : ReadSorter.t) (n0 : Z)
    (runs : list (list BamAlignment)) :
  (run_files s n0 runs).*1
  = (fun i : nat => temp_name s (n0 + Z.of_nat i)) <$> seq 0 (length runs).
Proof.
  unfold run_files. apply list_eq. intros i.
  rewrite !list_lookup_fmap, list_lookup_imap.
  destruct (runs !! i) as [run|] eqn:E; simpl.
  - by rewrite lookup_seq_lt by (by eapply lookup_lt_Some).
  - by rewrite lookup_seq_ge by (by apply lookup_ge_None).
Qed.

Lemma run_files_contents (s : ReadSorter.t) (n0 : Z)
    (runs : list (list BamAlignment)) :
  (run_files s n0 runs).*2 = SortBuffer s <$> runs.
Proof.
  unfold run_files. apply list_eq. intros i.
  rewrite !list_lookup_fmap, list_lookup_imap.
  by destruct (runs !! i).
Qed.

Lemma run_files_NoDup (s : ReadSorter.t) (n0 : Z)
    (runs : list (list BamAlignment)) :
  NoDup (run_files s n0 runs).*1.
Proof.
  rewrite run_files_names. apply NoDup_fmap_2; [|apply NoDup_seq].
  intros i j Heq. apply temp_name_inj in Heq. lia.
Qed.

(** Writing files and looking them up. *)
Lemma write_files_other (files : list (string * list BamAlignment)) :
  forall (d : gmap string (list BamAlignment)) (f : string),
    f ∉ files.*1 -> write_files files d !! f = d !! f.
Proof.
  induction files as [|p files IH]; intros d f Hf; [done|].
  unfold write_files in *. simpl. rewrite fmap_cons, not_elem_of_cons in Hf.
  destruct Hf as [Hne Hf]. rewrite IH by done.
  by rewrite lookup_insert_ne.
Qed.

Lemma write_files_lookup (files : list (string * list BamAlignment)) :
  forall (d : gmap string (list BamAlignment)),
    NoDup files.*1 ->
    Forall (fun p => write_files files d !! p.1 = Some p.2) files.
Proof.
  induction files as [|p files IH]; intros d Hnodup; [done|].
  rewrite fmap_cons in Hnodup. apply NoDup_cons in Hnodup as [Hp Hnodup].
  constructor.
  - unfold write_files. simpl.
    rewrite (write_files_other files _ _ Hp).
    by rewrite lookup_insert_eq.
  - by apply IH.
Qed.

Lemma open_readers_files (d : gmap string (list BamAlignment))
    (files : list (string * list BamAlignment)) :
  Forall (fun p => d !! p.1 = Some p.2) files ->
  open_readers d files.*1 = Some files.*2.
Proof.
  induction 1 as [|p files Hp _ IH]; [done|].
  rewrite !fmap_cons. cbn [open_readers]. by rewrite Hp, IH.
Qed.

Lemma delete_files_lookup (names : list string) :
  forall (d : gmap string (list BamAlignment)) (f : string),
    fold_left (fun d f => delete f d) names d !! f
    = if bool_decide (f ∈ names) then None else d !! f.
Proof.
  induction names as [|n names IH]; intros d f; simpl; [done|].
  rewrite IH. destruct (decide (f = n)) as [->|Hne].
  - rewrite (bool_decide_eq_true_2 (n ∈ n :: names)) by (by left).
    rewrite lookup_delete_eq. by case_bool_decide.
  - rewrite lookup_delete_ne by done.
    destruct (decide (f ∈ names)) as [Hin|Hin].
    + rewrite (bool_decide_eq_true_2 _ Hin).
      by rewrite bool_decide_eq_true_2 by (by right).
    + rewrite (bool_decide_eq_false_2 _ Hin).
      rewrite bool_decide_eq_false_2; [done|].
      by intros [?|?]%elem_of_cons.
Qed.


(** The order of the output, spelled out. *)
Lemma StronglySorted_lookup (l : list BamAlignment) :
  StronglySorted not_after l ->
  forall (i j : nat) (a b : BamAlignment),
    l !! i = Some a -> l !! j = Some b -> (i < j)%nat ->
    Sort.ByPosition b a = false.
Proof.
  induction 1 as [|x l Hl IH Hx]; intros i j a b Hi Hj Hlt; [done|].
  destruct j as [|j]; [lia|]. simpl in Hj.
  destruct i as [|i]; simpl in Hi.
  - injection Hi as <-. eapply Forall_lookup_1 in Hx; [|exact Hj]. done.
  - apply (IH i j); [done|done|lia].
Qed.

(** X11.  [MergeSortedRuns] when every temp file can be opened.  It returns
    true; what it hands to the sink is a rearrangement of the records of all
    temp files, each record once; if every temp file is in the order of
    [Sort::ByPosition], so is the output; afterwards the temp files are
    removed and no other file is touched. *)
Theorem X11_MergeSortedRuns_emits_every_record_once
    (s : ReadSorter.t) (readers : list (list BamAlignment)) :
  open_readers (disk s) (m_tempFilenames s) = Some readers ->
  exists (out : list BamAlignment) (s' : ReadSorter.t),
    MergeSortedRuns s = Returned (true, s')
    /\ sink s' = sink s ++ out
    /\ out ≡ₚ concat readers
    /\ ((forall run, run ∈ readers ->
           forall (i j : nat) (a b : BamAlignment),
             run !! i = Some a -> run !! j = Some b -> (i < j)%nat ->
             Sort.ByPosition b a = false) ->
        forall (i j : nat) (a b : BamAlignment),
          out !! i = Some a -> out !! j = Some b -> (i < j)%nat ->
          Sort.ByPosition b a = false)
    /\ (forall f : string,
          disk s' !! f
          = if bool_decide (f ∈ m_tempFilenames s) then None else disk s !! f)
    /\ m_tempFilenames s' = m_tempFilenames s.
Proof.
  intros Hopen.
  destruct (merge_readers_spec readers) as (out & Hout & Hperm & Hsorted).
  unfold MergeSortedRuns. rewrite Hopen, Hout. simpl.
  eexists out, _. split; [done|]. simpl.
  split_and!; [done|done| |apply delete_files_lookup|done].
  intros Hruns. apply StronglySorted_lookup, Hsorted.
  apply Forall_forall. intros run Hrun.
  specialize (Hruns run Hrun). clear Hrun.
  induction run as [|x run IH]; constructor.
  - apply IH. intros i j a b Hi Hj Hlt.
    apply (Hruns (S i) (S j) a b); [done|done|lia].
  - apply Forall_lookup. intros j b Hj.
    apply (Hruns 0%nat (S j) x b); [done|done|lia].
Qed.


Section WithFiles.
Variable can_create : string -> bool.
Hypothesis creatable : forall f : string, can_create f = true.

(** X12.  [GenerateSortedRuns] with a buffer size of at least one, when the
    temp files can be created.  The input is cut, in its order, into runs:
    every run but the last has exactly [alignments_per_tempfile] records, the
    last has at least one and at most that many, and no input gives no run.
    Run [i] is sorted by [SortBuffer] and stored under the name made of the
    temp directory, the stub and the number of the run, counted on from
    [m_numberOfRuns]; the names are registered in this order and, with or
    without threads, every file is written when the function returns. *)
Theorem X12_GenerateSortedRuns_cuts_the_input_into_runs (s : ReadSorter.t) :
  thread_pool s = [] ->
  1 <= alignments_per_tempfile s ->
  exists runs : list (list BamAlignment),
    let s' := (GenerateSortedRuns can_create s).2 in
    (GenerateSortedRuns can_create s).1 = true
    /\ concat runs = source s
    /\ (forall (i : nat) (run : list BamAlignment),
          runs !! i = Some run ->
          1 <= Z.of_nat (length run) <= alignments_per_tempfile s
          /\ ((S i < length runs)%nat ->
              Z.of_nat (length run) = alignments_per_tempfile s))
    /\ m_numberOfRuns s' = m_numberOfRuns s + Z.of_nat (length runs)
    /\ m_tempFilenames s'
       = m_tempFilenames s
         ++ ((fun i : nat => temp_name s (m_numberOfRuns s + Z.of_nat i))
               <$> seq 0 (length runs))
    /\ (forall (i : nat) (run : list BamAlignment),
          runs !! i = Some run ->
          disk s' !! temp_name s (m_numberOfRuns s + Z.of_nat i)
          = Some (SortBuffer s run))
    /\ thread_pool s' = [] /\ source s' = []
    /\ m_header_SortOrder s' = header_order (sort_order s).
Proof.
  intros Hpool Hone.
  destruct (GenerateSortedRuns_spec can_create creatable s Hpool)
    as (runs & Hok & Hcat & Hsp & Hdisk & Hpool' & Hsrc & Hsz & _).
  destruct (Hsz Hone) as (full & last & Hruns & Hfull & Hlast & Hne).
  destruct Hsp as (_ & _ & _ & _ & _ & Hh & _ & _ & _ & _ & Hr & Hf & _ & _).
  exists runs. simpl. split_and!; try done.
  - intros i run Hi. rewrite Hruns in Hi.
    apply lookup_app_Some in Hi as [Hi|[Hge Hi]].
    + eapply Forall_lookup_1 in Hfull; [|exact Hi]. lia.
    + case_bool_decide as Hl; [done|].
      apply list_lookup_singleton_Some in Hi as [Hi ->].
      split.
      * destruct run; [done|]. simpl. simpl in Hlast. lia.
      * rewrite Hruns, length_app. simpl. lia.
  - by rewrite <- run_files_names.
  - intros i run Hi. rewrite Hdisk.
    pose proof (write_files_lookup (run_files s (m_numberOfRuns s) runs)
                  (disk s) (run_files_NoDup _ _ _)) as Hall.
    eapply Forall_lookup_1 in Hall.
    2:{ unfold run_files. rewrite list_lookup_imap, Hi. done. }
    done.
Qed.


Lemma merge_single (rest : list BamAlignment) :
  forall (a : BamAlignment) (output : list BamAlignment) (fuel : nat),
    (length rest < fuel)%nat ->
    merge_loop fuel [mkElement a 0] [rest] output
    = Some (output ++ a :: rest).
Proof.
  induction rest as [|b rest IH]; intros a output fuel Hfuel.
  - destruct fuel as [|fuel]; [lia|]. simpl. by destruct fuel.
  - destruct fuel as [|fuel]; [simpl in Hfuel; lia|]. simpl.
    rewrite IH by (simpl in Hfuel; lia).
    by rewrite <- (assoc_L (++)).
Qed.

Lemma merge_readers_single (run : list BamAlignment) :
  merge_readers [run] = Some run.
Proof.
  unfold merge_readers. destruct run as [|a rest]; [done|].
  change (seed_reads (length [a :: rest]) 0 [a :: rest] [])
    with ([mkElement a 0], [rest]).
  apply (merge_single rest a []).
  unfold merge_fuel. simpl. rewrite app_nil_r. lia.
Qed.

(** What [Run] does when every temp file can be created. *)
Lemma Run_spec (s : ReadSorter.t) :
  thread_pool s = [] -> m_tempFilenames s = [] ->
  exists (runs : list (list BamAlignment)) (out : list BamAlignment)
         (s' : ReadSorter.t),
    Run can_create s = Returned (sort_retval s && merge_retval s, s')
    /\ concat runs = source s
    /\ merge_readers (SortBuffer s <$> runs) = Some out
    /\ sink s' = sink s ++ out
    /\ (forall f : string,
          disk s' !! f
          = if bool_decide (f ∈ m_tempFilenames s') then None
            else disk s !! f)
    /\ m_header_SortOrder s' = header_order (sort_order s)
    /\ (1 <= alignments_per_tempfile s ->
        exists (full : list (list BamAlignment)) (last : list BamAlignment),
          runs = full ++ (if bool_decide (last = []) then [] else [last])
          /\ Forall (fun run =>
                       Z.of_nat (length run) = alignments_per_tempfile s) full
          /\ Z.of_nat (length last) <= alignments_per_tempfile s
          /\ (source s <> [] -> last <> [])).
Proof.
  intros Hpool Hnames. unfold Run, RunSort.
  set (s0 := set_header_SortOrder (header_order (sort_order s)) s).
  destruct (GenerateSortedRuns_spec can_create creatable s0 Hpool)
    as (runs & Hok & Hcat & Hsp & Hdisk & Hpool' & Hsrc & Hsz & _).
  destruct (GenerateSortedRuns can_create s0) as [generated s1]. simpl in *.
  subst generated.
  destruct Hsp as (Ho & Hn & Ha & Hd & Hs & Hh & Hsr & Hmr & Hk & He & Hr & Hf
                   & _ & _).
  simpl in *. rewrite Hnames in Hf. simpl in Hf.
  rewrite (run_files_config s) in Hf by done.
  rewrite (run_files_config s s0) in Hdisk by done.
  assert (Hopen : open_readers (disk s1) (m_tempFilenames s1)
                  = Some (SortBuffer s <$> runs)).
  { rewrite Hf, Hdisk. rewrite open_readers_files.
    - by rewrite run_files_contents.
    - apply write_files_lookup. apply run_files_NoDup. }
  destruct (merge_readers_total (SortBuffer s <$> runs)) as [out Hout].
  unfold MergeSortedRuns. rewrite Hopen, Hout. simpl.
  exists runs, out. eexists. split; [by rewrite Hsr, Hmr|]. simpl.
  split_and!; try done.
  - by rewrite Hk.
  - intros f. rewrite delete_files_lookup. case_bool_decide as Hin; [done|].
    rewrite Hdisk. apply write_files_other. by rewrite <- Hf.
Qed.

(** X13.  [Run] from end to end, when the temp files can be created.  It
    returns [sort_retval && merge_retval]; the sink receives a rearrangement
    of the input, every record once; when sorting by position the output is
    in the order of [Sort::ByPosition] (no record is followed by one that
    the comparator puts before it); the temp files are gone afterwards, every
    other file is as before, and the header carries the sort order asked
    for. *)
Theorem X13_Run_outputs_the_input_in_position_order (s : ReadSorter.t) :
  thread_pool s = [] -> m_tempFilenames s = [] ->
  exists (out : list BamAlignment) (s' : ReadSorter.t),
    Run can_create s = Returned (sort_retval s && merge_retval s, s')
    /\ sink s' = sink s ++ out
    /\ out ≡ₚ source s
    /\ (sort_order s = SORT_POSITION ->
        forall (i j : nat) (a b : BamAlignment),
          out !! i = Some a -> out !! j = Some b -> (i < j)%nat ->
          Sort.ByPosition b a = false)
    /\ (forall f : string,
          disk s' !! f
          = if bool_decide (f ∈ m_tempFilenames s') then None
            else disk s !! f)
    /\ m_header_SortOrder s' = header_order (sort_order s).
Proof.
  intros Hpool Hnames.
  destruct (Run_spec s Hpool Hnames)
    as (runs & out & s' & Hrun & Hcat & Hout & Hsink & Hdisk & Hh & _).
  destruct (merge_readers_spec (SortBuffer s <$> runs))
    as (out' & Hout' & Hperm & Hsorted).
  rewrite Hout in Hout'. injection Hout' as <-.
  exists out, s'. split_and!; try done.
  - rewrite Hperm, <- Hcat. clear.
    induction runs as [|run runs IH]; [done|].
    rewrite fmap_cons. simpl.
    by rewrite IH, SortBuffer_comparator, stable_sort_perm.
  - intros Hpos. apply StronglySorted_lookup, Hsorted.
    apply Forall_fmap, Forall_forall. intros run _. simpl.
    rewrite SortBuffer_comparator, Hpos. apply stable_sort_sorted.
Qed.

(** X14.  Input that fits one buffer.  When the input has no more records
    than [alignments_per_tempfile], there is one run, and the output of
    [Run] is the stable sort of the input by the comparator of the sort
    order asked for, by name as well as by position: the merge has nothing
    to reorder. *)
Theorem X14_input_that_fits_one_buffer (s : ReadSorter.t) :
  thread_pool s = [] -> m_tempFilenames s = [] ->
  Z.of_nat (length (source s)) <= alignments_per_tempfile s ->
  exists s' : ReadSorter.t,
    Run can_create s = Returned (sort_retval s && merge_retval s, s')
    /\ sink s' = sink s ++ stable_sort (comparator (sort_order s)) (source s).
Proof.
  intros Hpool Hnames Hfits.
  destruct (Run_spec s Hpool Hnames)
    as (runs & out & s' & Hrun & Hcat & Hout & Hsink & _ & _ & Hsz).
  exists s'. split; [done|]. rewrite Hsink. f_equal.
  destruct (source s) as [|a input] eqn:Esrc.
  - (* no input: nothing comes out *)
    destruct (merge_readers_spec (SortBuffer s <$> runs))
      as (out' & Hout' & Hperm & _).
    rewrite Hout in Hout'. injection Hout' as <-.
    assert (Hnone : concat (SortBuffer s <$> runs) ≡ₚ concat runs).
    { clear. induction runs as [|run runs IH]; [done|].
      rewrite fmap_cons. simpl.
      by rewrite IH, SortBuffer_comparator, stable_sort_perm. }
    rewrite Hnone, Hcat in Hperm. by apply Permutation_nil_r in Hperm.
  - destruct Hsz as (full & last & Hruns & Hfull & Hlast & Hne);
      [simpl in Hfits; lia|].
    rewrite bool_decide_eq_false_2 in Hruns by (by apply Hne).
    destruct full as [|run full].
    + simpl in Hruns. subst runs. simpl in Hcat. rewrite app_nil_r in Hcat.
      subst last. simpl in Hout. rewrite merge_readers_single in Hout.
      injection Hout as <-. apply SortBuffer_comparator.
    + exfalso. apply Forall_cons in Hfull as [Hfirst _].
      assert (Hlen : length (concat runs) = length (a :: input))
        by (by rewrite Hcat).
      rewrite Hruns in Hlen. simpl in Hlen.
      rewrite !length_app, concat_app, length_app in Hlen. simpl in Hlen.
      rewrite length_app in Hlen. simpl in Hlen, Hfits.
      specialize (Hne ltac:(done)). destruct last; [done|]. simpl in Hlen. lia.
Qed.

End WithFiles.
End SortedOutput.

(** ** The FASTQ writer, continued *)

Section FastqMore.
Import BamTools FastqWriter FastqNotions.
Variable BuildCharData : BamAlignment -> BamAlignment.
Variable IsReverseStrand : BamAlignment -> bool.

Local Abbreviation SaveAlignment := (SaveAlignment BuildCharData IsReverseStrand).
Local Abbreviation SaveAlignments := (SaveAlignments BuildCharData IsReverseStrand).
Local Abbreviation mate_of := (mate_of BuildCharData).
Local Abbreviation plain_entry := (plain_entry BuildCharData).

(** X15.  [Open] of a new writer on a name other than "stdout".  It
    succeeds exactly when the three files [name_1.fastq], [name_2.fastq] and
    [name.fastq] can be created; the writer then has its three pointers on
    the three files, which are open and empty.  Otherwise it returns false
    with one message that names the first file that failed, and [open] stays
    false; if the forward file was created before the failure, it stays open
    and the forward pointer stays on it, while the orphan pointer is still
    on the standard output. *)
Theorem X15_Open_outcomes (can_create : string -> bool) (filename : string) :
  filename <> "stdout" ->
  let res := Open can_create filename new in
  res.1 = can_create (filename +:+ "_1.fastq")
          && can_create (filename +:+ "_2.fastq")
          && can_create (filename +:+ ".fastq")
  /\ (res.1 = true ->
      separate_files res.2 /\ open res.2 = true
      /\ text (fwd_file res.2) = EmptyString
      /\ text (rev_file res.2) = EmptyString
      /\ text (orphan_file res.2) = EmptyString
      /\ potential_pairs res.2 = ∅ /\ cerr res.2 = [])
  /\ (res.1 = false ->
      open res.2 = false
      /\ cerr res.2
         = ["Failed to open FASTQ "
            +:+ (if negb (can_create (filename +:+ "_1.fastq")) then "forward"
                 else if negb (can_create (filename +:+ "_2.fastq"))
                      then "reverse" else "orphan")
            +:+ " output file " +:+ filename])
  /\ (can_create (filename +:+ "_1.fastq") = true ->
      res.1 = false ->
      fwd_stream res.2 = to_fwd_file /\ is_open (fwd_file res.2) = true
      /\ orphan_stream res.2 = to_cout).
Proof.
  intros Hname res. subst res. unfold Open.
  assert (Hneq : String.eqb filename "stdout" = false)
    by (by apply String.eqb_neq).
  rewrite Hneq. simpl. unfold file_open. simpl.
  destruct (can_create (filename +:+ "_1.fastq")); simpl; [|done].
  destruct (can_create (filename +:+ "_2.fastq")); simpl; [|done].
  destruct (can_create (filename +:+ ".fastq")); simpl; [|done].
  unfold separate_files. simpl. by split_and!.
Qed.


(** *** One stream *)

(** While the forward and the reverse pointer are the same, every alignment
    is written at once and nothing is buffered. *)
Lemma SaveAlignments_one_stream (l : list BamAlignment) :
  forall w : FastqWriter.t,
    fwd_stream w = rev_stream w ->
    is_open (deref (fwd_stream w) w) = true ->
    fail_ (deref (fwd_stream w) w) = false ->
    exists w' : FastqWriter.t,
      SaveAlignments l w = Returned w'
      /\ deref (fwd_stream w) w'
         = mkOstream true false
             (text (deref (fwd_stream w) w) +:+ joined (plain_entry <$> l))
      /\ fwd_stream w' = fwd_stream w /\ rev_stream w' = rev_stream w
      /\ orphan_stream w' = orphan_stream w
      /\ potential_pairs w' = potential_pairs w
      /\ open w' = open w /\ cerr w' = cerr w
      /\ (forall p, p <> fwd_stream w -> deref p w' = deref p w).
Proof.
  induction l as [|a l IH]; intros w Hsame Hopen Hgood.
  - exists w. simpl. rewrite append_empty_r.
    split_and!; try done.
    destruct (deref (fwd_stream w) w) as [o f t]. simpl in *. by subst.
  - cbn [FastqWriter.SaveAlignments]. unfold FastqWriter.SaveAlignment.
    rewrite bool_decide_eq_true_2 by done.
    set (entry := fastq_entry _ _ _).
    set (w1 := write (fwd_stream w) entry w).
    assert (H1 : fwd_stream w1 = fwd_stream w /\ rev_stream w1 = rev_stream w
                 /\ orphan_stream w1 = orphan_stream w
                 /\ potential_pairs w1 = potential_pairs w
                 /\ open w1 = open w /\ cerr w1 = cerr w
                 /\ deref (fwd_stream w) w1
                    = mkOstream true false
                        (text (deref (fwd_stream w) w) +:+ entry)
                 /\ (forall p, p <> fwd_stream w -> deref p w1 = deref p w)).
    { subst w1. unfold write, put. rewrite Hgood, Hopen.
      destruct (fwd_stream w) eqn:Efs; simpl; split_and!; try done;
        intros p Hp'; by destruct p. }
    destruct H1 as (Hf1 & Hr1 & Ho1 & Hp1 & Hop1 & Hce1 & Hd1 & Hrest1).
    destruct (IH w1) as (w' & Hrun & Hd & Hf & Hr & Ho & Hp & Hop & Hce & Hrest).
    { congruence. }
    { by rewrite Hf1, Hd1. }
    { by rewrite Hf1, Hd1. }
    exists w'. rewrite Hf1 in Hd, Hrest. rewrite Hd1 in Hd. simpl in Hd.
    split_and!; try congruence.
    + rewrite Hd, fmap_cons. simpl. by rewrite append_assoc.
    + intros p Hp'. rewrite Hrest by done. by apply Hrest1.
Qed.

(** X16.  Writing to "stdout".  After [Open] on "stdout" every call of
    [SaveAlignment] writes its alignment at once, unpaired and unchanged:
    the standard output holds one entry per alignment, in the order of the
    calls; nothing is buffered, no call exits, [Close] adds nothing, and the
    three files stay empty. *)
Theorem X16_writing_to_stdout (can_create : string -> bool)
    (l : list BamAlignment) :
  exists w1 w2 w3 : FastqWriter.t,
    Open can_create "stdout" new = (true, w1)
    /\ SaveAlignments l w1 = Returned w2
    /\ Close w2 = (true, w3)
    /\ text (cout w2) = joined (plain_entry <$> l)
    /\ cout w3 = cout w2
    /\ potential_pairs w2 = ∅
    /\ text (fwd_file w3) = EmptyString /\ text (rev_file w3) = EmptyString
    /\ text (orphan_file w3) = EmptyString
    /\ cerr w3 = [].
Proof.
  set (w1 := set_open true (set_filename "stdout" new)).
  destruct (SaveAlignments_one_stream l w1)
    as (w2 & Hrun & Hd & Hf & Hr & Ho & Hp & Hop & Hce & Hrest); [done..|].
  simpl in *.
  exists w1, w2. eexists. split_and!; [done|done|done| | | | | | |].
  - by rewrite Hd.
  - unfold Close. rewrite Hp. unfold in_key_order.
    rewrite map_to_list_empty. simpl. rewrite Hop. by destruct w2.
  - done.
  - unfold Close. rewrite Hp. unfold in_key_order.
    rewrite map_to_list_empty. simpl. rewrite Hop.
    pose proof (Hrest to_fwd_file ltac:(done)) as Hfile. simpl in Hfile.
    destruct w2. simpl in *. by subst.
  - unfold Close. rewrite Hp. unfold in_key_order.
    rewrite map_to_list_empty. simpl. rewrite Hop.
    pose proof (Hrest to_rev_file ltac:(done)) as Hfile. simpl in Hfile.
    destruct w2. simpl in *. by subst.
  - unfold Close. rewrite Hp. unfold in_key_order.
    rewrite map_to_list_empty. simpl. rewrite Hop.
    pose proof (Hrest to_orphan_file ltac:(done)) as Hfile. simpl in Hfile.
    destruct w2. simpl in *. by subst.
  - unfold Close. rewrite Hp. unfold in_key_order.
    rewrite map_to_list_empty. simpl. rewrite Hop. by destruct w2.
Qed.


(** *** Reversing and complementing *)

Lemma compliment_char_twice (c : ascii) :
  compliment_char (compliment_char c) = c.
Proof.
  by destruct c as [[] [] [] [] [] [] [] []].
Qed.

Lemma compliment_twice (str : string) : compliment (compliment str) = str.
Proof.
  induction str as [|c str IH]; simpl; [done|].
  by rewrite compliment_char_twice, IH.
Qed.

Lemma compliment_rev_app (str acc : string) :
  compliment (String.rev_app str acc)
  = String.rev_app (compliment str) (compliment acc).
Proof.
  revert acc. induction str as [|c str IH]; intros acc; simpl; [done|].
  by rewrite IH.
Qed.

Lemma rev_app_rev_app (str : string) :
  forall acc rest : string,
    String.rev_app (String.rev_app str acc) rest
    = String.rev_app acc (str +:+ rest).
Proof.
  induction str as [|c str IH]; intros acc rest; simpl; [done|].
  by rewrite IH.
Qed.

Lemma reverse_twice (str : string) : reverse (reverse str) = str.
Proof.
  unfold reverse, String.rev. rewrite rev_app_rev_app. simpl.
  apply append_empty_r.
Qed.

Lemma length_rev_app (str : string) :
  forall acc : string,
    String.length (String.rev_app str acc)
    = (String.length str + String.length acc)%nat.
Proof.
  induction str as [|c str IH]; intros acc; simpl; [done|].
  rewrite IH. simpl. lia.
Qed.

Lemma length_compliment (str : string) :
  String.length (compliment str) = String.length str.
Proof. induction str as [|c str IH]; simpl; by rewrite ?IH. Qed.

(** X17.  Reversing and complementing twice gives the bases back;
    complementing commutes with reversing and keeps the length.  (This is
    what [SaveAlignment] does to the mate written as /2.) *)
Theorem X17_reverse_complement_round_trip (str : string) :
  compliment (reverse (compliment (reverse str))) = str
  /\ compliment (reverse str) = reverse (compliment str)
  /\ String.length (compliment (reverse str)) = String.length str.
Proof.
  assert (Hcomm : forall s, compliment (reverse s) = reverse (compliment s)).
  { intros s. unfold reverse, String.rev. by rewrite compliment_rev_app. }
  split_and!.
  - by rewrite (Hcomm str), reverse_twice, compliment_twice.
  - apply Hcomm.
  - rewrite length_compliment. unfold reverse, String.rev.
    rewrite length_rev_app. simpl. lia.
Qed.

(** *** After [Close] *)

Lemma write_to_closed_orphan_file (l : list (string * fastq_record_t)) :
  forall w : FastqWriter.t,
    orphan_stream w = to_orphan_file ->
    is_open (orphan_file w) = false ->
    let w' :=
      fold_left
        (fun w (i : string * fastq_record_t) =>
           write (orphan_stream w) (fastq_entry i.1 (seq i.2) (qual i.2)) w)
        l w in
    text (orphan_file w') = text (orphan_file w)
    /\ is_open (orphan_file w') = false
    /\ fwd_file w' = fwd_file w /\ rev_file w' = rev_file w
    /\ cout w' = cout w /\ open w' = open w
    /\ potential_pairs w' = potential_pairs w
    /\ orphan_stream w' = to_orphan_file.
Proof.
  induction l as [|i l IH]; intros w Hptr Hclosed; simpl; [done|].
  set (w1 := write (orphan_stream w) _ w).
  assert (H1 : text (orphan_file w1) = text (orphan_file w)
               /\ is_open (orphan_file w1) = false
               /\ fwd_file w1 = fwd_file w /\ rev_file w1 = rev_file w
               /\ cout w1 = cout w /\ open w1 = open w
               /\ potential_pairs w1 = potential_pairs w
               /\ orphan_stream w1 = to_orphan_file).
  { subst w1. rewrite Hptr. unfold write, put. simpl. rewrite Hclosed.
    by destruct (fail_ (orphan_file w)). }
  destruct H1 as (Ht1 & Hc1 & Hf1 & Hr1 & Hco1 & Hop1 & Hpp1 & Hptr1).
  destruct (IH w1 Hptr1 Hc1) as (Ht & Hc & Hf & Hr & Hco & Hop & Hpp & Hptr').
  split_and!; congruence.
Qed.

Lemma write_orphans_buffer (l : list (string * fastq_record_t)) :
  forall w : FastqWriter.t,
    potential_pairs
      (fold_left
         (fun w (i : string * fastq_record_t) =>
            write (orphan_stream w) (fastq_entry i.1 (seq i.2) (qual i.2)) w)
         l w)
    = potential_pairs w.
Proof.
  induction l as [|i l IH]; intros w; simpl; [done|].
  rewrite IH. unfold write. by destruct (orphan_stream w).
Qed.

(** X18.  The writer after [Close] (separate files).  [Close] does not
    empty the buffer.  A later [SaveAlignment] under a name that is still
    buffered finds the files closed and ends the process with [exit(-1)];
    under a new name it only buffers the record and returns true.  A second
    [Close] returns true and adds nothing to any file. *)
Theorem X18_writer_after_Close (w : FastqWriter.t) :
  separate_files w -> open w = true ->
  let w1 := (Close w).2 in
  potential_pairs w1 = potential_pairs w
  /\ (forall (a : BamAlignment) (rec : fastq_record_t),
        potential_pairs w !! (mate_of a).1 = Some rec ->
        SaveAlignment a w1 = Exited (-1))
  /\ (forall a : BamAlignment,
        potential_pairs w !! (mate_of a).1 = None ->
        exists w2 : FastqWriter.t,
          SaveAlignment a w1 = Returned (true, w2)
          /\ fwd_file w2 = fwd_file w1 /\ rev_file w2 = rev_file w1
          /\ orphan_file w2 = orphan_file w1)
  /\ (Close w1).1 = true
  /\ text (orphan_file (Close w1).2) = text (orphan_file w1)
  /\ text (fwd_file (Close w1).2) = text (fwd_file w1)
  /\ text (rev_file (Close w1).2) = text (rev_file w1).
Proof.
  intros Hsep Hopen w1.
  assert (Hclosed : closed_files w1 /\ potential_pairs w1 = potential_pairs w
                    /\ fail_ (fwd_file w1) = false /\ open w1 = false).
  { subst w1. unfold Close.
    destruct (write_orphans (in_key_order (potential_pairs w)) w Hsep)
      as (Hsep' & _ & _ & _ & Hop').
    unfold orphan_entry in *.
    assert (Hpp : potential_pairs
                    (fold_left
                       (fun w (i : string * fastq_record_t) =>
                          write (orphan_stream w)
                            (fastq_entry i.1 (seq i.2) (qual i.2)) w)
                       (in_key_order (potential_pairs w)) w)
                  = potential_pairs w).
    { apply write_orphans_buffer. }
    set (w0 := fold_left _ _ w) in *.
    rewrite Hop', Hopen. simpl.
    destruct w0 as [pf pr po c [fo ff ft] [ro rf rt] [oo of_ ot] op fn pp ce].
    unfold separate_files in Hsep'. simpl in *.
    destruct Hsep' as (-> & -> & -> & -> & -> & -> & -> & -> & ->).
    unfold closed_files. simpl. by split_and!. }
  destruct Hclosed as ((Hpf & Hpr & Hpo & Hfo & Hro & Hoo) & Hpp & Hff & Hop1).
  split_and!.
  - done.
  - intros a rec Hbuf. unfold FastqWriter.SaveAlignment.
    rewrite Hpf, Hpr, bool_decide_eq_false_2 by done.
    rewrite Hpp. unfold FastqWriter.mate_of in Hbuf. simpl in Hbuf.
    rewrite Hbuf.
    destruct w1 as [pf pr po c [fo ff ft] [ro rf rt] [oo of_ ot] op fn pp ce].
    simpl in *. subst. simpl. done.
  - intros a Hbuf. unfold FastqWriter.SaveAlignment.
    rewrite Hpf, Hpr, bool_decide_eq_false_2 by done.
    rewrite Hpp. unfold FastqWriter.mate_of in Hbuf. simpl in Hbuf.
    rewrite Hbuf. eexists. split; [done|]. by destruct w1.
  - done.
  - unfold Close.
    destruct (write_to_closed_orphan_file (in_key_order (potential_pairs w1))
                w1 Hpo Hoo) as (Ht & _ & _ & _ & _ & Hop' & _ & _).
    set (w0 := fold_left _ _ w1) in *. rewrite Hop', Hop1. simpl.
    by destruct w0.
  - unfold Close.
    destruct (write_to_closed_orphan_file (in_key_order (potential_pairs w1))
                w1 Hpo Hoo) as (_ & _ & Hf & _ & _ & Hop' & _ & _).
    set (w0 := fold_left _ _ w1) in *. rewrite Hop', Hop1. simpl.
    destruct w0. simpl in *. by rewrite Hf.
  - unfold Close.
    destruct (write_to_closed_orphan_file (in_key_order (potential_pairs w1))
                w1 Hpo Hoo) as (_ & _ & _ & Hr & _ & Hop' & _ & _).
    set (w0 := fold_left _ _ w1) in *. rewrite Hop', Hop1. simpl.
    destruct w0. simpl in *. by rewrite Hr.
Qed.

End FastqMore.

(** ** The prefetch worker: the queue of stream positions *)

Section PrefetchTells.
Import BamTools BamReaderPrivate Prefetch.
Context {C : Type} `{RandomAccessController C}.
Variable junk : nat -> Byte.byte.

Lemma LoadNextAlignmentInternal_tells (r r' : BamReaderPrivate.t C)
    (al al' : BamAlignment) (ok : bool) :
  LoadNextAlignmentInternal junk r al = (ok, al', r') ->
  prefetch_tell_fail r' = prefetch_tell_fail r.
Proof.
  unfold LoadNextAlignmentInternal.
  destruct (Read 4 (m_stream r)) as [got s1].
  case_bool_decide; [by intros [= <- <- <-]|].
  simpl. case_bool_decide; [by intros [= <- <- <-]|].
  destruct (Read BAM_CORE_SIZE s1) as [x s2].
  simpl. case_bool_decide; [by intros [= <- <- <-]|].
  case_bool_decide; by intros [= <- <- <-].
Qed.

(** While prefetching is on, the queue of stream positions has one entry
    for every record that the caller has taken or that waits in the
    queue. *)
Lemma step_tells (t : turn) (s : system C) :
  do_prefetch (reader s) = true ->
  length (prefetch_tell_fail (reader s))
  = (length (returned s) + length (prefetch_alignments (reader s)))%nat ->
  do_prefetch (reader (step junk t s)) = true
  /\ length (prefetch_tell_fail (reader (step junk t s)))
     = (length (returned (step junk t s))
        + length (prefetch_alignments (reader (step junk t s))))%nat.
Proof.
  intros Hpre Hlen. destruct t as [load_is_high|]; simpl.
  - unfold worker_step. destruct (pc s) as [| |threshold|].
    + unfold prefetch_one. rewrite Hpre. simpl.
      set (r1 := set_prefetch_tell_fail _ (reader s)).
      destruct (LoadNextAlignmentInternal junk r1 newBamAlignment)
        as [[ok al] r'] eqn:E.
      pose proof (LoadNextAlignmentInternal_tells _ _ _ _ _ E) as Htell.
      apply LoadNextAlignmentInternal_frame in E as (_ & _ & Hp & Hq & _).
      subst r1. simpl in *.
      destruct ok; simpl; rewrite Hp, Htell, Hq, !length_app; simpl;
        (split; [done|lia]).
    + unfold throttle. by repeat case_match.
    + unfold sleep_or_resume. by case_match.
    + done.
  - unfold caller_step, LoadNextAlignment_ptr. rewrite Hpre.
    destruct (prefetch_alignments (reader s)) as [|a rest] eqn:Eq; simpl.
    + split; [done|]. by rewrite Eq.
    + split; [done|]. rewrite length_app. simpl in *. lia.
Qed.

(** X20.  The queue of stream positions only grows.  The worker pushes the
    position of the stream onto [prefetch_tell_fail] before every load, and
    neither the worker nor [LoadNextAlignment] takes an entry out: under
    every interleaving the queue has one entry per record that the caller
    has taken or that waits in the queue of alignments, and after a whole
    file it has one entry per record and one for the end marker, although
    the queue of alignments is throttled. *)
Theorem X20_stream_positions_pile_up
    (r0 : BamReaderPrivate.t C) (schedule : list turn) :
  do_prefetch r0 = true ->
  prefetch_alignments r0 = [] ->
  prefetch_tell_fail r0 = [] ->
  let s := run junk schedule (start r0) in
  length (prefetch_tell_fail (reader s))
  = (length (returned s) + length (prefetch_alignments (reader s)))%nat
  /\ (pc s = Finished -> prefetch_alignments (reader s) = [] ->
      length (prefetch_tell_fail (reader s)) = length (pushes junk r0)).
Proof.
  intros Hpre Hq Htell s.
  assert (Hinv : forall s0 : system C,
    do_prefetch (reader s0) = true ->
    length (prefetch_tell_fail (reader s0))
    = (length (returned s0) + length (prefetch_alignments (reader s0)))%nat ->
    length (prefetch_tell_fail (reader (run junk schedule s0)))
    = (length (returned (run junk schedule s0))
       + length (prefetch_alignments (reader (run junk schedule s0))))%nat).
  { induction schedule as [|t schedule IH]; intros s0 Hp Hl; [done|].
    simpl. destruct (step_tells t s0 Hp Hl) as [Hp' Hl']. by apply IH. }
  assert (Hlen : length (prefetch_tell_fail (reader s))
                 = (length (returned s)
                    + length (prefetch_alignments (reader s)))%nat).
  { apply Hinv; simpl; [done|]. by rewrite Hq, Htell. }
  split; [done|]. intros Hpc Hempty. rewrite Hlen, Hempty. simpl.
  rewrite Nat.add_0_r. f_equal.
  destruct (run_in_file_order junk r0 schedule (start r0)) as (_ & _ & Horder).
  { by apply start_in_file_order. }
  fold s in Horder. unfold to_come in Horder.
  rewrite Hpc, Hempty, Hq in Horder. simpl in Horder.
  by rewrite app_nil_r in Horder.
Qed.

End PrefetchTells.

(** ** The further properties at concrete inputs *)

Section MoreInstances.
Import BamTools BamReaderPrivate Prefetch TestData Scenarios.

(** X1 on a file of two records: the worker runs to its end, then the caller
    empties the queue. *)
Lemma X1_prefetch_witness :
  let r0 := prefetching_reader 2 in
  let schedule :=
    [Worker false; Caller; Worker false; Worker false; Worker false;
     Worker false; Caller; Caller; Caller] in
  pc (run junk schedule (start r0)) = Finished
  /\ returned (run junk schedule (start r0)) = pushes junk r0.
Proof.
  intros r0 schedule.
  assert (Hpc : pc (run junk schedule (start r0)) = Finished) by reflexivity.
  split; [exact Hpc|].
  apply (X1_prefetch_delivers_every_record_once junk r0 schedule);
    reflexivity.
Defined.

(** X2 on a worker that sleeps because the load is high. *)
Lemma X2_throttled_worker_witness :
  pc sleeping_worker = Sleeping 100
  /\ queue_size (reader sleeping_worker) > 100
  /\ pc (run junk [Caller; Worker false; Caller; Worker true]
           (mkSystem (StopPrefetch 0 (reader sleeping_worker))
              (pc sleeping_worker) (count sleeping_worker)
              (returned sleeping_worker)))
     = Sleeping 100.
Proof.
  assert (Hpc : pc sleeping_worker = Sleeping 100) by reflexivity.
  assert (Hdeep : queue_size (reader sleeping_worker) > 100)
    by (vm_compute; reflexivity).
  split; [exact Hpc|]. split; [exact Hdeep|].
  apply (X2_throttled_worker_never_returns_after_StopPrefetch junk 0 100
           sleeping_worker _ Hpc Hdeep).
Defined.


(** X5 on a record cut after one byte of its core. *)
Lemma X5_truncated_record_witness :
  let r := reader_on (le_bytes 32 ++ [Byte.x07])
             (RegionController.mkController None false) in
  unread (m_stream r)
  = byte_of 32 :: byte_of 0 :: byte_of 0 :: byte_of 0 :: [Byte.x07]
  /\ le32 (byte_of 32) (byte_of 0) (byte_of 0) (byte_of 0) <> 0
  /\ exists r' : BamReaderPrivate.t RegionController.t,
       LoadNextAlignmentInternal junk r newBamAlignment
       = (false, newBamAlignment, r')
       /\ unread (m_stream r') = [].
Proof.
  intros r.
  assert (Hunread : unread (m_stream r)
                    = byte_of 32 :: byte_of 0 :: byte_of 0 :: byte_of 0
                      :: [Byte.x07]) by reflexivity.
  assert (Hlen : le32 (byte_of 32) (byte_of 0) (byte_of 0) (byte_of 0) <> 0)
    by (vm_compute; discriminate).
  split; [exact Hunread|]. split; [exact Hlen|].
  destruct (proj1 (X5_truncated_record junk r newBamAlignment _ _ _ _ _
                     Hunread Hlen))
    as (r' & Hload & _ & Hrest); [simpl; lia|].
  exists r'. split; [exact Hload|exact Hrest].
Defined.

(** X6 on a mapped read, followed by one more byte. *)
Lemma X6_decode_of_layout_witness :
  let r := reader_on (BamLayout.encode mapped_read ++ [Byte.x2a])
             (RegionController.mkController None false) in
  BamLayout.well_formed mapped_read
  /\ unread (m_stream r) = BamLayout.encode mapped_read ++ [Byte.x2a]
  /\ exists r' : BamReaderPrivate.t RegionController.t,
       LoadNextAlignmentInternal junk r newBamAlignment
       = (true, BamLayout.decoded mapped_read newBamAlignment, r')
       /\ unread (m_stream r') = [Byte.x2a].
Proof.
  intros r.
  assert (Hwf : BamLayout.well_formed mapped_read).
  { unfold BamLayout.well_formed, BamLayout.int32. simpl.
    repeat split; try lia; repeat constructor; simpl; lia. }
  assert (Hunread : unread (m_stream r)
                    = BamLayout.encode mapped_read ++ [Byte.x2a])
    by reflexivity.
  split; [exact Hwf|]. split; [exact Hunread|].
  destruct (X6_decode_of_layout junk r newBamAlignment mapped_read
              [Byte.x2a] Hwf Hunread) as (r' & Hload & Hrest & _).
  exists r'. split; [exact Hload|exact Hrest].
Defined.


(** X7 on a file of two records, opened with multithreading disabled: two
    records are loaded, then [Rewind]. *)
Lemma X7_Rewind_witness :
  let opened :=
    Open two_records_unthreaded 0 "in.bam" RegionController.new_reader in
  let loaded := [newBamAlignment; newBamAlignment] in
  opened = (true, opened.2)
  /\ pthread_calls opened.2 = []
  /\ exists r3 : BamReaderPrivate.t RegionController.t,
       Rewind 0 "" (BamReaderPointer.after_loads junk loaded opened.2)
       = (true, r3)
       /\ m_stream r3 = m_stream opened.2.
Proof.
  intros opened loaded.
  assert (Hopen : opened = (true, opened.2)) by reflexivity.
  assert (Hcalls : pthread_calls opened.2 = []) by reflexivity.
  split; [exact Hopen|]. split; [exact Hcalls|].
  destruct (X7_Rewind_returns_to_first_alignment junk two_records_unthreaded
              0 "" "in.bam" RegionController.new_reader opened.2 loaded
              newBamAlignment Hopen Hcalls)
    as (_ & _ & r3 & Hrewind & Hstream & _).
  exists r3. split; [exact Hrewind|exact Hstream].
Defined.

(** X8 on the same file, opened and closed again. *)
Lemma X8_closed_reader_witness :
  let opened :=
    Open two_records_unthreaded 0 "in.bam" RegionController.new_reader in
  let r' := (Close 0 Closes opened.2).2 in
  (Close 0 Closes opened.2).1 = true
  /\ GetNextAlignment junk r' newBamAlignment
     = Some (Loaded false newBamAlignment r')
  /\ (Rewind 0 "" r').1 = false.
Proof.
  intros opened r'.
  destruct (X8_closed_reader_refuses junk 0 Closes "" opened.2 newBamAlignment
              "chr1" 0) as (Hstatus & _ & _ & _ & _ & _ & Hafter).
  assert (Hok : (Close 0 Closes opened.2).1 = true)
    by (apply Hstatus; right; reflexivity).
  destruct (Hafter Hok) as (_ & Hnext & _ & Hrewind & _).
  split; [exact Hok|]. split; [exact Hnext|exact Hrewind].
Defined.

(** X10 on a reader that is opened again with one record in its queue. *)
Lemma X10_Open_witness :
  let opened := Open two_records 0 "in.bam" reader_with_queue in
  opened = (true, opened.2)
  /\ do_prefetch opened.2 = true
  /\ prefetch_alignments reader_with_queue = [Some (named "stale" 0 5)]
  /\ LoadNextAlignment junk opened.2 newBamAlignment
     = Loaded true (named "stale" 0 5) (set_prefetch_alignments [] opened.2).
Proof.
  intros opened.
  assert (Hopen : opened = (true, opened.2)) by reflexivity.
  assert (Hpre : do_prefetch opened.2 = true) by reflexivity.
  assert (Hq : prefetch_alignments reader_with_queue
               = [Some (named "stale" 0 5)]) by reflexivity.
  split; [exact Hopen|]. split; [exact Hpre|]. split; [exact Hq|].
  apply (X10_Open_hands_out_what_was_queued junk two_records 0 Closes "in.bam"
           reader_with_queue opened.2 (named "stale" 0 5) [] newBamAlignment
           Hopen Hpre Hq).
Defined.

(** X11 on two temp files. *)
Lemma X11_MergeSortedRuns_witness :
  let readers := [[named "a" 0 10; named "b" 0 30]; [named "c" 0 20]] in
  ReadSorter.open_readers (ReadSorter.disk two_runs)
    (ReadSorter.m_tempFilenames two_runs) = Some readers
  /\ exists (out : list BamAlignment) (s' : ReadSorter.t),
       ReadSorter.MergeSortedRuns two_runs = Returned (true, s')
       /\ out ≡ₚ concat readers.
Proof.
  intros readers.
  assert (Hopen : ReadSorter.open_readers (ReadSorter.disk two_runs)
                    (ReadSorter.m_tempFilenames two_runs) = Some readers)
    by (vm_compute; reflexivity).
  split; [exact Hopen|].
  destruct (X11_MergeSortedRuns_emits_every_record_once two_runs readers Hopen)
    as (out & s' & Hrun & _ & Hperm & _).
  exists out, s'. split; [exact Hrun|exact Hperm].
Defined.

(** X12, X13 and X14 on three records, two to a temp file (X14: three). *)
Lemma X12_GenerateSortedRuns_witness :
  let s := sorter ReadSorter.SORT_NAME false 2 three_records ∅ in
  ReadSorter.thread_pool s = []
  /\ 1 <= ReadSorter.alignments_per_tempfile s
  /\ exists runs : list (list BamAlignment),
       concat runs = ReadSorter.source s
       /\ ReadSorter.m_numberOfRuns
            (ReadSorter.GenerateSortedRuns (fun _ => true) s).2
          = ReadSorter.m_numberOfRuns s + Z.of_nat (length runs).
Proof.
  intros s.
  assert (Hpool : ReadSorter.thread_pool s = []) by reflexivity.
  assert (Hone : 1 <= ReadSorter.alignments_per_tempfile s) by (simpl; lia).
  split; [exact Hpool|]. split; [exact Hone|].
  destruct (X12_GenerateSortedRuns_cuts_the_input_into_runs (fun _ => true)
              (fun _ => eq_refl) s Hpool Hone)
    as (runs & _ & Hcat & _ & Hruns & _).
  exists runs. split; [exact Hcat|exact Hruns].
Defined.

Lemma X13_Run_witness :
  let s := sorter ReadSorter.SORT_POSITION false 2 three_records ∅ in
  ReadSorter.thread_pool s = []
  /\ ReadSorter.m_tempFilenames s = []
  /\ exists (out : list BamAlignment) (s' : ReadSorter.t),
       ReadSorter.Run (fun _ => true) s = Returned (true, s')
       /\ out ≡ₚ three_records.
Proof.
  intros s.
  assert (Hpool : ReadSorter.thread_pool s = []) by reflexivity.
  assert (Hnames : ReadSorter.m_tempFilenames s = []) by reflexivity.
  split; [exact Hpool|]. split; [exact Hnames|].
  destruct (X13_Run_outputs_the_input_in_position_order (fun _ => true)
              (fun _ => eq_refl) s Hpool Hnames)
    as (out & s' & Hrun & _ & Hperm & _).
  exists out, s'. split; [exact Hrun|exact Hperm].
Defined.

Lemma X14_one_buffer_witness :
  let s := sorter ReadSorter.SORT_NAME true 3 three_records ∅ in
  ReadSorter.thread_pool s = []
  /\ ReadSorter.m_tempFilenames s = []
  /\ Z.of_nat (length (ReadSorter.source s))
     <= ReadSorter.alignments_per_tempfile s
  /\ exists s' : ReadSorter.t,
       ReadSorter.Run (fun _ => true) s = Returned (true, s')
       /\ ReadSorter.sink s'
          = ReadSorter.stable_sort Sort.ByName three_records.
Proof.
  intros s.
  assert (Hpool : ReadSorter.thread_pool s = []) by reflexivity.
  assert (Hnames : ReadSorter.m_tempFilenames s = []) by reflexivity.
  assert (Hfits : Z.of_nat (length (ReadSorter.source s))
                  <= ReadSorter.alignments_per_tempfile s) by (simpl; lia).
  split; [exact Hpool|]. split; [exact Hnames|]. split; [exact Hfits|].
  destruct (X14_input_that_fits_one_buffer (fun _ => true)
              (fun _ => eq_refl) s Hpool Hnames Hfits) as (s' & Hrun & Hsink).
  exists s'. split; [exact Hrun|exact Hsink].
Defined.


(** X15 on the name "out" when the reverse file cannot be created. *)
Lemma X15_Open_witness :
  let can_create := fun path : string => negb (String.eqb path "out_2.fastq") in
  "out" <> "stdout"
  /\ (FastqWriter.Open can_create "out" FastqWriter.new).1 = false.
Proof.
  intros can_create.
  assert (Hname : "out" <> "stdout") by discriminate.
  split; [exact Hname|].
  rewrite (proj1 (X15_Open_outcomes can_create "out" Hname)).
  reflexivity.
Defined.

(** X18 on a writer with one buffered record. *)
Lemma X18_writer_after_Close_witness :
  let w0 := (FastqWriter.Open (fun _ => true) "out" FastqWriter.new).2 in
  let w :=
    FastqWriter.set_potential_pairs
      {[ "r" := FastqWriter.mkRecord "AAC" "!#%" ]} w0 in
  FastqWriter.separate_files w
  /\ FastqWriter.open w = true
  /\ FastqWriter.SaveAlignment already_built strand_bit
       (read_of "r" "GGT" "&(*" 16) (FastqWriter.Close w).2
     = Exited (-1).
Proof.
  intros w0 w.
  assert (Hsep : FastqWriter.separate_files w)
    by (unfold FastqWriter.separate_files; repeat split; reflexivity).
  assert (Hopen : FastqWriter.open w = true) by reflexivity.
  split; [exact Hsep|]. split; [exact Hopen|].
  destruct (X18_writer_after_Close already_built strand_bit w Hsep Hopen)
    as (_ & Hexit & _).
  apply (Hexit (read_of "r" "GGT" "&(*" 16) (FastqWriter.mkRecord "AAC" "!#%")).
  reflexivity.
Defined.

(** X20 on a file of two records read to its end. *)
Lemma X20_stream_positions_witness :
  let r0 := prefetching_reader 2 in
  let schedule :=
    [Worker false; Caller; Worker false; Worker false; Worker false;
     Worker false; Caller; Caller; Caller] in
  do_prefetch r0 = true
  /\ prefetch_alignments r0 = []
  /\ prefetch_tell_fail r0 = []
  /\ length (prefetch_tell_fail (reader (run junk schedule (start r0))))
     = 3%nat.
Proof.
  intros r0 schedule.
  assert (Hpre : do_prefetch r0 = true) by reflexivity.
  assert (Hq : prefetch_alignments r0 = []) by reflexivity.
  assert (Htell : prefetch_tell_fail r0 = []) by reflexivity.
  split; [exact Hpre|]. split; [exact Hq|]. split; [exact Htell|].
  rewrite (proj1 (X20_stream_positions_pile_up junk r0 schedule Hpre Hq
                    Htell)).
  reflexivity.
Defined.

End MoreInstances.
